(** * Invoice / transaction matching engine: a shallow embedding

    Embedded sources:
    - [src/utils/string-distance.ts], the string similarity functions
      (module [StringDistance]);
    - the type definitions imported as [@/types/matching]
      (module [Types]);
    - [src/utils/matching-engine.ts], the scoring functions and the
      candidate generator (module [MatchingEngine]);
    - the utilities imported as [@/utils/matching-utils], which follow the
      sample data in [src/utils/sample-data.ts] (module [MatchingUtils]).

    Conventions of the embedding.
    - A JavaScript [number] is modelled by the type [JS.number]: a finite
      rational, [NaN], or one of the two infinities.  Arithmetic is exact:
      the rounding of IEEE-754 doubles, overflow and the sign of zero are
      not modelled.  Division by zero, the propagation of [NaN] and the
      comparisons with [NaN] are modelled the way the language defines them.
    - Where a result turns on rounding (the amount score at the boundary
      of the tolerance), the code is embedded once more over IEEE-754
      binary64 numbers (modules [Binary64] and [MatchingEngine64]).
    - Numbers supplied by a caller (amounts, configuration fields) are
      finite, so these record fields have type [Q]; everything the engine
      computes has type [JS.number].
    - A [Date] is modelled by its time value (milliseconds since the epoch,
      a [Z]); the local time zone of the host is a parameter.
    - Text is modelled by [string] (8-bit characters); the case mappings
      and the character classes are the ASCII ones. *)

From Stdlib Require Import ZArith QArith Qround Qabs Qminmax Lia Lqa.
From Stdlib Require Import List Bool Ascii String.
From Stdlib Require Import Sorting.Permutation Sorting.Sorted.
From Stdlib Require Import SpecFloat.
From stdpp Require Import gmap strings.

Import ListNotations.
Local Open Scope Q_scope.

(* ================================================================== *)
(** * The host language                                                *)
(* ================================================================== *)

Module JS.

(** ** Numbers *)

Inductive number : Type :=
| NaN
| PosInf
| NegInf
| Num (q : Q).

Definition ofZ (z : Z) : number := Num (inject_Z z).
Definition ofNat (n : nat) : number := ofZ (Z.of_nat n).

(** The sign of a number other than [NaN]; zero has sign [Eq]. *)
Definition sgn (x : number) : comparison :=
  match x with
  | NaN => Eq
  | PosInf => Gt
  | NegInf => Lt
  | Num q => q ?= 0
  end.

Definition sgn_mul (a b : comparison) : comparison :=
  match a, b with
  | Eq, _ | _, Eq => Eq
  | Gt, Gt | Lt, Lt => Gt
  | Gt, Lt | Lt, Gt => Lt
  end.

(** An infinity of the given sign; sign [Eq] stands for the undefined
    forms (such as infinity times zero) and gives [NaN]. *)
Definition infinity (s : comparison) : number :=
  match s with
  | Gt => PosInf
  | Lt => NegInf
  | Eq => NaN
  end.

Definition neg (x : number) : number :=
  match x with
  | NaN => NaN
  | PosInf => NegInf
  | NegInf => PosInf
  | Num q => Num (- q)
  end.

Definition add (x y : number) : number :=
  match x, y with
  | NaN, _ | _, NaN => NaN
  | PosInf, NegInf | NegInf, PosInf => NaN
  | PosInf, _ | _, PosInf => PosInf
  | NegInf, _ | _, NegInf => NegInf
  | Num a, Num b => Num (a + b)
  end.

Definition sub (x y : number) : number :=
  match x, y with
  | Num a, Num b => Num (a - b)
  | _, _ => add x (neg y)
  end.

Definition mul (x y : number) : number :=
  match x, y with
  | NaN, _ | _, NaN => NaN
  | Num a, Num b => Num (a * b)
  | _, _ => infinity (sgn_mul (sgn x) (sgn y))
  end.

(** [x / y].  A finite non-zero number divided by zero is an infinity,
    zero divided by zero is [NaN]. *)
Definition div (x y : number) : number :=
  match x, y with
  | NaN, _ | _, NaN => NaN
  | Num a, Num b =>
      if Qeq_bool b 0 then infinity (a ?= 0) else Num (a / b)
  | Num _, _ => Num 0
  | _, Num b => infinity (sgn_mul (sgn x) (if Qeq_bool b 0 then Gt else b ?= 0))
  | _, _ => NaN
  end.

(** The order of two numbers; [None] when one of them is [NaN]. *)
Definition compare (x y : number) : option comparison :=
  match x, y with
  | NaN, _ | _, NaN => None
  | Num a, Num b => Some (a ?= b)
  | PosInf, PosInf | NegInf, NegInf => Some Eq
  | PosInf, _ | _, NegInf => Some Gt
  | _, PosInf | NegInf, _ => Some Lt
  end.

(** [x < y], [x <= y], [x > y], [x >= y], [x === y]: all false when an
    operand is [NaN]. *)
Definition ltb (x y : number) : bool :=
  match compare x y with Some Lt => true | _ => false end.
Definition leb (x y : number) : bool :=
  match compare x y with Some Lt | Some Eq => true | _ => false end.
Definition gtb (x y : number) : bool :=
  match compare x y with Some Gt => true | _ => false end.
Definition geb (x y : number) : bool :=
  match compare x y with Some Gt | Some Eq => true | _ => false end.
Definition strictEq (x y : number) : bool :=
  match compare x y with Some Eq => true | _ => false end.

(** Truthiness of a number: [0] and [NaN] are falsy. *)
Definition truthy (x : number) : bool :=
  match x with
  | NaN => false
  | Num q => negb (Qeq_bool q 0)
  | _ => true
  end.

Definition isNaN (x : number) : bool :=
  match x with NaN => true | _ => false end.

(** ** [Math] *)

Module Math.

Definition abs (x : number) : number :=
  match x with
  | NaN => NaN
  | PosInf | NegInf => PosInf
  | Num q => Num (Qabs q)
  end.

(** [Math.max] and [Math.min] give [NaN] as soon as an argument is. *)
Definition max (x y : number) : number :=
  match compare x y with
  | None => NaN
  | Some Lt => y
  | Some _ => x
  end.

Definition min (x y : number) : number :=
  match compare x y with
  | None => NaN
  | Some Gt => y
  | Some _ => x
  end.

Definition floor (x : number) : number :=
  match x with
  | Num q => ofZ (Qfloor q)
  | _ => x
  end.

End Math.

(** Numeric equality up to the representation of the rational. *)
Definition num_eq (x y : number) : Prop :=
  match x, y with
  | NaN, NaN | PosInf, PosInf | NegInf, NegInf => True
  | Num a, Num b => a == b
  | _, _ => False
  end.

(** A number of the closed unit interval. *)
Definition inUnit (x : number) : Prop :=
  exists q, x = Num q /\ 0 <= q <= 1.


(** ** [Array.prototype.slice]

    [ToIntegerOrInfinity]: [NaN] is 0, a finite number is truncated towards
    zero. *)
Inductive integer : Type :=
| Finite (z : Z)
| PlusInfinity
| MinusInfinity.

Definition toIntegerOrInfinity (x : number) : integer :=
  match x with
  | NaN => Finite 0
  | PosInf => PlusInfinity
  | NegInf => MinusInfinity
  | Num q => Finite (if Qle_bool 0 q then Qfloor q else Qceiling q)
  end.

(** [l.slice(0, end)]: a negative [end] counts from the end of the array. *)
Definition sliceTo {A : Type} (l : list A) (end_ : number) : list A :=
  let len := Z.of_nat (List.length l) in
  match toIntegerOrInfinity end_ with
  | MinusInfinity => []
  | PlusInfinity => l
  | Finite k =>
      let final := if (k <? 0)%Z then Z.max (len + k) 0 else Z.min k len in
      firstn (Z.to_nat final) l
  end.

(** ** [Array.prototype.sort]

    The sort is stable, and for a comparator that orders the elements
    consistently its result is the one stable arrangement, whatever the
    algorithm of the host.  It is modelled by a stable insertion sort; [x]
    goes after [y] exactly when the comparator gives a positive number
    ([NaN] counts as zero). *)

Fixpoint insertBy {A : Type} (cmp : A -> A -> number) (x : A) (l : list A)
  : list A :=
  match l with
  | [] => [x]
  | y :: l' =>
      if gtb (cmp x y) (Num 0) then y :: insertBy cmp x l' else x :: y :: l'
  end.

Definition sort {A : Type} (cmp : A -> A -> number) (l : list A) : list A :=
  fold_right (insertBy cmp) [] l.

(** ** Characters and strings *)

Definition code (c : ascii) : nat := nat_of_ascii c.

Definition between (lo hi : nat) (c : ascii) : bool :=
  (lo <=? code c)%nat && (code c <=? hi)%nat.

Definition isDigit (c : ascii) : bool := between 48 57 c.
Definition isUpper (c : ascii) : bool := between 65 90 c.
Definition isLower (c : ascii) : bool := between 97 122 c.
Definition isLetter (c : ascii) : bool := isUpper c || isLower c.
(** [\w] *)
Definition isWord (c : ascii) : bool :=
  isLetter c || isDigit c || (code c =? 95)%nat.
(** [\s] *)
Definition isSpace (c : ascii) : bool :=
  between 9 13 c || (code c =? 32)%nat.

Definition lowerChar (c : ascii) : ascii :=
  if isUpper c then ascii_of_nat (code c + 32) else c.
Definition upperChar (c : ascii) : ascii :=
  if isLower c then ascii_of_nat (code c - 32) else c.

Definition chars (s : string) : list ascii := list_ascii_of_string s.
Definition text (l : list ascii) : string := string_of_list_ascii l.

Definition toLowerCase (s : string) : string := text (map lowerChar (chars s)).
Definition toUpperCase (s : string) : string := text (map upperChar (chars s)).

Fixpoint dropSpaces (l : list ascii) : list ascii :=
  match l with
  | c :: l' => if isSpace c then dropSpaces l' else l
  | [] => []
  end.

Definition trim (s : string) : string :=
  text (rev (dropSpaces (rev (dropSpaces (chars s))))).

Definition strlen (s : string) : nat := String.length s.

(** [s.split(sep)] for a separator that matches one character of the
    class [sep]. *)
Fixpoint splitChars (sep : ascii -> bool) (cur : list ascii) (l : list ascii)
  : list (list ascii) :=
  match l with
  | [] => [rev cur]
  | c :: l' =>
      if sep c then rev cur :: splitChars sep [] l'
      else splitChars sep (c :: cur) l'
  end.

Definition split (sep : ascii -> bool) (s : string) : list string :=
  map text (splitChars sep [] (chars s)).

(** [[...new Set(l)]]: the distinct elements in the order of their first
    occurrence. *)
Fixpoint mem (x : string) (l : list string) : bool :=
  match l with
  | [] => false
  | y :: l' => String.eqb x y || mem x l'
  end.

Definition distinct (l : list string) : list string :=
  rev (fold_left (fun seen x => if mem x seen then seen else x :: seen) l []).

(** ** Regular expressions

    The fragment the sources use: the word boundary [\b], a greedy bounded
    repetition of a character class, and sequencing, matched by
    backtracking. *)

Module RegExp.

Inductive t : Type :=
| Boundary
| Repeat (cls : ascii -> bool) (lo : nat) (hi : option nat)
| Seq (r1 r2 : t).

(** A position in the subject: the character before it and the rest. *)
Definition isBoundary (prev : option ascii) (rest : list ascii) : bool :=
  let w (o : option ascii) := match o with Some c => isWord c | None => false end in
  xorb (w prev) (w (hd_error rest)).

Definition canTake (hi : option nat) : bool :=
  match hi with Some O => false | _ => true end.

(** [cls{lo,hi}] at the position [(prev, rest)]; [acc] is the text matched
    so far, reversed, and [k] matches what follows in the pattern. *)
Fixpoint greedy {R : Type} (cls : ascii -> bool) (lo : nat) (hi : option nat)
    (prev : option ascii) (rest acc : list ascii)
    (k : option ascii -> list ascii -> list ascii -> option R) : option R :=
  let stop := match lo with O => k prev rest acc | S _ => None end in
  match rest with
  | c :: rest' =>
      if cls c && canTake hi then
        match greedy cls (Nat.pred lo) (option_map Nat.pred hi)
                (Some c) rest' (c :: acc) k with
        | Some r => Some r
        | None => stop
        end
      else stop
  | [] => stop
  end.

Fixpoint exec {R : Type} (r : t) (prev : option ascii) (rest acc : list ascii)
    (k : option ascii -> list ascii -> list ascii -> option R) : option R :=
  match r with
  | Boundary => if isBoundary prev rest then k prev rest acc else None
  | Repeat cls lo hi => greedy cls lo hi prev rest acc k
  | Seq r1 r2 => exec r1 prev rest acc (fun p s a => exec r2 p s a k)
  end.

(** The match that starts at the position, if there is one: the matched
    text and the position after it. *)
Definition matchAt (r : t) (prev : option ascii) (rest : list ascii)
  : option (list ascii * option ascii * list ascii) :=
  exec r prev rest [] (fun p s a => Some (rev a, p, s)).

(** [s.match(r)] for a pattern with the [g] flag: the matches from left
    to right, none overlapping another ([null] is the empty list). *)
Fixpoint scan (fuel : nat) (r : t) (prev : option ascii) (rest : list ascii)
  : list (list ascii) :=
  match fuel with
  | O => []
  | S fuel' =>
      match matchAt r prev rest, rest with
      | Some (c :: m, p, s), _ => (c :: m) :: scan fuel' r p s
      | Some ([], _, _), c :: rest' => [] :: scan fuel' r (Some c) rest'
      | Some ([], _, _), [] => [[]]
      | None, c :: rest' => scan fuel' r (Some c) rest'
      | None, [] => []
      end
  end.

Definition matchAll (r : t) (s : string) : list string :=
  map text (scan (S (List.length (chars s))) r None (chars s)).

End RegExp.

(** ** [Date]

    A date is its time value in milliseconds since the epoch; invalid
    dates and the limit on the range of time values are not modelled.  The
    host's time zone is the function [LocalTZA] of the language definition:
    the offset of local time at a time given in UTC ([true]) or in local
    time ([false]). *)

Definition TimeZone : Type := Z -> bool -> Z.

Module Date.

Definition msPerDay : Z := 86400000.

Definition Day (t : Z) : Z := (t / msPerDay)%Z.

(** Day number of the civil date [y]-[m]-[d], [m] from 1 to 12. *)
Definition daysFromCivil (y m d : Z) : Z :=
  (let y' := if m <=? 2 then y - 1 else y in
   let era := y' / 400 in
   let yoe := y' - era * 400 in
   let doy := (153 * (if 2 <? m then m - 3 else m + 9) + 2) / 5 + d - 1 in
   let doe := yoe * 365 + yoe / 4 - yoe / 100 + doy in
   era * 146097 + doe - 719468)%Z.

(** Civil date (year, month from 1 to 12, day of the month) of a day
    number. *)
Definition civilFromDays (z : Z) : Z * Z * Z :=
  (let z' := z + 719468 in
   let era := z' / 146097 in
   let doe := z' - era * 146097 in
   let yoe := (doe - doe / 1460 + doe / 36524 - doe / 146096) / 365 in
   let doy := doe - (365 * yoe + yoe / 4 - yoe / 100) in
   let mp := (5 * doy + 2) / 153 in
   let d := doy - (153 * mp + 2) / 5 + 1 in
   let m := if mp <? 10 then mp + 3 else mp - 9 in
   ((if m <=? 2 then yoe + era * 400 + 1 else yoe + era * 400), m, d))%Z.

Definition YearFromTime (t : Z) : Z := fst (fst (civilFromDays (Day t))).
Definition MonthFromTime (t : Z) : Z := (snd (fst (civilFromDays (Day t))) - 1)%Z.
Definition DateFromTime (t : Z) : Z := snd (civilFromDays (Day t)).

Definition MakeDay (year month date : Z) : Z :=
  (daysFromCivil (year + month / 12) (month mod 12 + 1) 1 + date - 1)%Z.

Definition MakeDate (day time : Z) : Z := (day * msPerDay + time)%Z.

Definition LocalTime (tz : TimeZone) (t : Z) : Z := (t + tz t true)%Z.
Definition UTC (tz : TimeZone) (t : Z) : Z := (t - tz t false)%Z.

Definition getFullYear (tz : TimeZone) (t : Z) : Z := YearFromTime (LocalTime tz t).
Definition getMonth (tz : TimeZone) (t : Z) : Z := MonthFromTime (LocalTime tz t).
Definition getDate (tz : TimeZone) (t : Z) : Z := DateFromTime (LocalTime tz t).
Definition getTime (t : Z) : number := ofZ t.

(** [new Date(year, month, date)]: midnight of that local day; a year
    from 0 to 99 stands for 1900 + year. *)
Definition ofLocal (tz : TimeZone) (year month date : Z) : Z :=
  (let yr := if (0 <=? year) && (year <=? 99) then 1900 + year else year in
   UTC tz (MakeDate (MakeDay yr month date) 0))%Z.

(** [new Date('YYYY-MM-DD')]: a date-only string is midnight UTC. *)
Definition ofISODate (y m d : Z) : Z := MakeDate (daysFromCivil y m d) 0.

(** The time zone UTC. *)
Definition utc : TimeZone := fun _ _ => 0%Z.

End Date.

End JS.


Import JS.

(* ================================================================== *)
(** * [src/utils/string-distance.ts]                                   *)
(* ================================================================== *)

Module StringDistance.

(** One row of the distance matrix below the row [prev]: [left] is the
    entry to the left of the next one, [prev] starts at the entry on its
    upper left. *)
Fixpoint fillRow (c2 : ascii) (s1 : list ascii) (prev : list nat) (left : nat)
  : list nat :=
  match s1, prev with
  | c1 :: s1', diag :: ((up :: _) as prev') =>
      let cost := if Ascii.eqb c1 c2 then 0%nat else 1%nat in
      let cell := Nat.min (Nat.min (left + 1)%nat (up + 1)%nat) (diag + cost)%nat in
      cell :: fillRow c2 s1' prev' cell
  | _, _ => []
  end.

(** The rows [1 ..] of the matrix, each from the one before; the result is
    the last row.  [j] is the index of the row before the next one. *)
Fixpoint fillMatrix (s1 s2 : list ascii) (row : list nat) (j : nat) : list nat :=
  match s2 with
  | [] => row
  | c2 :: s2' => fillMatrix s1 s2' (S j :: fillRow c2 s1 row (S j)) (S j)
  end.

Definition levenshteinDistance (str1 str2 : string) : nat :=
  let s1 := trim (toLowerCase str1) in
  let s2 := trim (toLowerCase str2) in
  if (strlen s1 =? 0)%nat then strlen s2
  else if (strlen s2 =? 0)%nat then strlen s1
  else
    let row0 := seq 0%nat (strlen s1 + 1)%nat in
    List.last (fillMatrix (chars s1) (chars s2) row0 0%nat) 0%nat.

Definition levenshteinSimilarity (str1 str2 : string) : number :=
  let distance := levenshteinDistance str1 str2 in
  let maxLength := Nat.max (strlen str1) (strlen str2) in
  if (maxLength =? 0)%nat then Num 1
  else sub (Num 1) (div (ofNat distance) (ofNat maxLength)).

(** The loop of [fuzzyScore]: [p] and [t] are what is left of the pattern
    and of the target; the result is the final [patternIndex] (as what is
    left of the pattern), [targetIndex] and [matchedCharacters]. *)
Fixpoint fuzzyLoop (p t : list ascii) (targetIndex matchedCharacters : nat)
  : list ascii * nat * nat :=
  match t, p with
  | ct :: t', cp :: p' =>
      if Ascii.eqb cp ct
      then fuzzyLoop p' t' (S targetIndex) (S matchedCharacters)
      else fuzzyLoop p t' (S targetIndex) matchedCharacters
  | _, _ => (p, targetIndex, matchedCharacters)
  end.

Definition fuzzyScore (pattern target : string) : number :=
  let p := trim (toLowerCase pattern) in
  let t := trim (toLowerCase target) in
  if (strlen p =? 0)%nat then Num 1
  else if (strlen t =? 0)%nat then Num 0
  else
    let '(rest, targetIndex, matchedCharacters) :=
      fuzzyLoop (chars p) (chars t) 0%nat 0%nat in
    match rest with
    | [] =>
        let consecutiveBonus := div (ofNat matchedCharacters) (ofNat (strlen p)) in
        let positionBonus :=
          sub (Num 1) (div (div (ofNat targetIndex) (ofNat (strlen t))) (Num 2)) in
        Math.max (Num 0.5)
          (Math.min (Num 1) (div (add consecutiveBonus positionBonus) (Num 2)))
    | _ :: _ => Num 0
    end.

(** [/\b\d{3,}\b/g] *)
Definition numberPattern : RegExp.t :=
  RegExp.Seq RegExp.Boundary
    (RegExp.Seq (RegExp.Repeat isDigit 3%nat None) RegExp.Boundary).

(** [/\b[A-Z]{1,4}-?\d{1,10}\b/gi] *)
Definition alphanumericPattern : RegExp.t :=
  RegExp.Seq RegExp.Boundary
   (RegExp.Seq (RegExp.Repeat isLetter 1%nat (Some 4%nat))
    (RegExp.Seq (RegExp.Repeat (fun c => (code c =? 45)%nat) 0%nat (Some 1%nat))
     (RegExp.Seq (RegExp.Repeat isDigit 1%nat (Some 10%nat)) RegExp.Boundary))).

(** [/[\s\-_(),]/g] *)
Definition isSeparator (c : ascii) : bool :=
  isSpace c || existsb (fun n => (code c =? n)%nat) [45; 95; 40; 41; 44]%nat.

Definition extractReferences (txt : string) : list string :=
  if (strlen txt =? 0)%nat then []
  else
    let numberMatches := RegExp.matchAll numberPattern txt in
    let alphanumericMatches := RegExp.matchAll alphanumericPattern txt in
    let words :=
      List.filter (fun w => (2 <? strlen w)%nat)
        (split isSeparator (toLowerCase txt)) in
    distinct (numberMatches ++ map toUpperCase alphanumericMatches ++ words).

(** The inner loop of [compareReferenceSets], with its [break]. *)
Fixpoint bestMatchLoop (ref1 : string) (refs2 : list string) (bestMatch : number)
  : number :=
  match refs2 with
  | [] => bestMatch
  | ref2 :: refs2' =>
      if String.eqb ref1 ref2 then Num 1
      else
        let similarity := levenshteinSimilarity ref1 ref2 in
        let bestMatch := Math.max bestMatch similarity in
        let fuzzy := fuzzyScore ref1 ref2 in
        let bestMatch := Math.max bestMatch fuzzy in
        bestMatchLoop ref1 refs2' bestMatch
  end.

(** The outer loop: the state is [(totalScore, comparisons)]. *)
Definition compareLoop (refs1 refs2 : list string) : number * nat :=
  fold_left
    (fun '(totalScore, comparisons) ref1 =>
       (add totalScore (bestMatchLoop ref1 refs2 (Num 0)), S comparisons))
    refs1 (Num 0, 0%nat).

Definition compareReferenceSets (refs1 refs2 : list string) : number :=
  if (List.length refs1 =? 0)%nat && (List.length refs2 =? 0)%nat then Num 1
  else if (List.length refs1 =? 0)%nat || (List.length refs2 =? 0)%nat then Num 0
  else
    let '(totalScore, comparisons) := compareLoop refs1 refs2 in
    if (0 <? comparisons)%nat then div totalScore (ofNat comparisons) else Num 0.

End StringDistance.

Import StringDistance.


(* ================================================================== *)
(** * The types of [@/types/matching]                                  *)
(* ================================================================== *)

Module Types.

Inductive InvoiceStatus := InvPending | InvPartial | InvReconciled.
Inductive TransactionStatus := TxnPending | TxnReconciled.
Inductive Source := Bank | PaymentProcessor | Manual.

Module Invoice.
Record t : Type := mk {
  id : string;
  amount : Q;
  date : Z;
  dueDate : option Z;
  customerId : string;
  customerName : string;
  referenceId : option string;
  description : option string;
  status : option InvoiceStatus
}.
End Invoice.

Module Transaction.
Record t : Type := mk {
  id : string;
  amount : Q;
  date : Z;
  description : string;
  reference : option string;
  source : Source;
  status : option TransactionStatus
}.
End Transaction.

Record Breakdown : Type := mkBreakdown {
  amountDifference : number;
  dateDifference : number;
  amountMatch : bool;
  dateInWindow : bool;
  referenceSimilarity : number
}.

Record MatchCandidate : Type := mkCandidate {
  invoiceId : string;
  transactionId : string;
  confidenceScore : number;
  amountScore : number;
  dateScore : number;
  referenceScore : number;
  breakdown : Breakdown
}.

Record MatchingConfig : Type := mkConfig {
  exactAmountMatch : bool;
  amountTolerance : Q;
  amountWeight : Q;
  dateWindowDays : Q;
  dateWeight : Q;
  referenceSimilarityThreshold : Q;
  referenceWeight : Q;
  minConfidenceScore : Q
}.

Definition DEFAULT_MATCHING_CONFIG : MatchingConfig := {|
  exactAmountMatch := false;
  amountTolerance := 0.02;
  amountWeight := 0.4;
  dateWindowDays := 30;
  dateWeight := 0.3;
  referenceSimilarityThreshold := 0.5;
  referenceWeight := 0.3;
  minConfidenceScore := 0.5
|}.

(** [Partial<MatchingConfig>]: each field may be absent. *)
Module Partial.
Record t : Type := mk {
  exactAmountMatch : option bool;
  amountTolerance : option Q;
  amountWeight : option Q;
  dateWindowDays : option Q;
  dateWeight : option Q;
  referenceSimilarityThreshold : option Q;
  referenceWeight : option Q;
  minConfidenceScore : option Q
}.

(** [{}] *)
Definition empty : t := mk None None None None None None None None.
End Partial.

(** [{ ...base, ...over }] *)
Definition spread (base : MatchingConfig) (over : Partial.t) : MatchingConfig := {|
  exactAmountMatch := default (exactAmountMatch base) (Partial.exactAmountMatch over);
  amountTolerance := default (amountTolerance base) (Partial.amountTolerance over);
  amountWeight := default (amountWeight base) (Partial.amountWeight over);
  dateWindowDays := default (dateWindowDays base) (Partial.dateWindowDays over);
  dateWeight := default (dateWeight base) (Partial.dateWeight over);
  referenceSimilarityThreshold :=
    default (referenceSimilarityThreshold base) (Partial.referenceSimilarityThreshold over);
  referenceWeight := default (referenceWeight base) (Partial.referenceWeight over);
  minConfidenceScore := default (minConfidenceScore base) (Partial.minConfidenceScore over)
|}.

End Types.

Import Types.

(* ================================================================== *)
(** * [src/utils/matching-engine.ts]                                   *)
(* ================================================================== *)

Module MatchingEngine.

Module AmountResult.
Record t : Type := mk { score : number; isMatch : bool; difference : number }.
End AmountResult.

Module DateResult.
Record t : Type := mk { score : number; inWindow : bool; difference : number }.
End DateResult.

Section Engine.

(** The time zone of the host. *)
Variable tz : TimeZone.

Definition normalizeDate (date : Z) : Z :=
  let d := date in
  Date.ofLocal tz (Date.getFullYear tz d) (Date.getMonth tz d) (Date.getDate tz d).

Definition dateDifferenceDays (date1 date2 : Z) : number :=
  let d1 := normalizeDate date1 in
  let d2 := normalizeDate date2 in
  let diffMs := Math.abs (sub (Date.getTime d1) (Date.getTime d2)) in
  Math.floor (div diffMs (mul (mul (mul (Num 1000) (Num 60)) (Num 60)) (Num 24))).

Definition calculateAmountScore (invoiceAmount transactionAmount : number)
    (config : MatchingConfig) : AmountResult.t :=
  let difference := Math.abs (sub invoiceAmount transactionAmount) in
  let percentageDifference := mul (div difference invoiceAmount) (Num 100) in
  if strictEq invoiceAmount transactionAmount then
    AmountResult.mk (Num 1) true (Num 0)
  else if exactAmountMatch config then
    AmountResult.mk (Num 0) false difference
  else
    let tolerance :=
      div (mul (Num (amountTolerance config)) invoiceAmount) (Num 100) in
    if leb difference tolerance then
      let score :=
        sub (Num 1)
          (div percentageDifference (mul (Num (amountTolerance config)) (Num 100))) in
      AmountResult.mk (Math.max (Num 0) score) true difference
    else
      let maxDifference := mul invoiceAmount (Num 0.5) in
      let score :=
        Math.max (Num 0) (sub (Num 1) (div percentageDifference (Num 50))) in
      AmountResult.mk (Math.max (Num 0) (mul score (Num 0.5))) false difference.

Definition calculateDateScore (invoiceDate transactionDate : Z)
    (config : MatchingConfig) : DateResult.t :=
  let difference := dateDifferenceDays invoiceDate transactionDate in
  let inWindow := leb difference (Num (dateWindowDays config)) in
  if strictEq difference (Num 0) then
    DateResult.mk (Num 1) true (Num 0)
  else if negb inWindow then
    DateResult.mk (Num 0.1) false difference
  else
    let score := sub (Num 1) (div difference (Num (dateWindowDays config))) in
    DateResult.mk (Math.max (Num 0) score) true difference.

(** [x || ''] for an optional string. *)
Definition orEmpty (x : option string) : string := default EmptyString x.

Definition calculateReferenceScore (invoice : Invoice.t)
    (transaction : Transaction.t) (config : MatchingConfig) : number :=
  let invoiceRefs :=
    extractReferences
      (Invoice.customerName invoice ++ " " ++
       orEmpty (Invoice.referenceId invoice) ++ " " ++
       orEmpty (Invoice.description invoice))%string in
  let transactionRefs := extractReferences (Transaction.description transaction) in
  if (List.length invoiceRefs =? 0)%nat || (List.length transactionRefs =? 0)%nat
  then Num 0.3
  else
    let similarity := compareReferenceSets invoiceRefs transactionRefs in
    let customerSimilarity :=
      levenshteinSimilarity (Invoice.customerName invoice)
        (Transaction.description transaction) in
    Math.max similarity (mul customerSimilarity (Num 0.8)).

Definition calculateConfidenceScore (amountScore dateScore referenceScore : number)
    (config : MatchingConfig) : number :=
  let totalWeight :=
    add (add (Num (amountWeight config)) (Num (dateWeight config)))
      (Num (referenceWeight config)) in
  let normalizedAmountWeight := div (Num (amountWeight config)) totalWeight in
  let normalizedDateWeight := div (Num (dateWeight config)) totalWeight in
  let normalizedRefWeight := div (Num (referenceWeight config)) totalWeight in
  let confidence :=
    add (add (mul amountScore normalizedAmountWeight)
             (mul dateScore normalizedDateWeight))
        (mul referenceScore normalizedRefWeight) in
  Math.max (Num 0) (Math.min (Num 1) confidence).

(** [(a, b) => b.confidenceScore - a.confidenceScore] *)
Definition byConfidenceDesc (a b : MatchCandidate) : number :=
  sub (confidenceScore b) (confidenceScore a).

(** The body of the loop of [findCandidatesForInvoice]: what is pushed for
    one transaction, if anything. *)
Definition candidateFor (invoice : Invoice.t) (transaction : Transaction.t)
    (config : MatchingConfig) : option MatchCandidate :=
  let amountResult :=
    calculateAmountScore (Num (Invoice.amount invoice))
      (Num (Transaction.amount transaction)) config in
  let dateResult :=
    calculateDateScore (Invoice.date invoice) (Transaction.date transaction) config in
  let referenceScore := calculateReferenceScore invoice transaction config in
  let confidenceScore :=
    calculateConfidenceScore (AmountResult.score amountResult)
      (DateResult.score dateResult) referenceScore config in
  if geb confidenceScore (Num (minConfidenceScore config)) then
    Some {|
      invoiceId := Invoice.id invoice;
      transactionId := Transaction.id transaction;
      confidenceScore := confidenceScore;
      amountScore := AmountResult.score amountResult;
      dateScore := DateResult.score dateResult;
      referenceScore := referenceScore;
      breakdown := {|
        amountDifference := AmountResult.difference amountResult;
        dateDifference := DateResult.difference dateResult;
        amountMatch := AmountResult.isMatch amountResult;
        dateInWindow := DateResult.inWindow dateResult;
        referenceSimilarity := referenceScore
      |}
    |}
  else None.

Definition findCandidatesForInvoice (invoice : Invoice.t)
    (transactions : list Transaction.t) (config : MatchingConfig)
  : list MatchCandidate :=
  let candidates :=
    fold_left
      (fun candidates transaction =>
         match candidateFor invoice transaction config with
         | Some c => candidates ++ [c]
         | None => candidates
         end)
      transactions [] in
  sort byConfidenceDesc candidates.

Definition findMatches (invoices : list Invoice.t)
    (transactions : list Transaction.t) (config : Partial.t)
  : list MatchCandidate :=
  let finalConfig := spread DEFAULT_MATCHING_CONFIG config in
  let allCandidates :=
    fold_left
      (fun allCandidates invoice =>
         allCandidates ++ findCandidatesForInvoice invoice transactions finalConfig)
      invoices [] in
  sort byConfidenceDesc allCandidates.

(** The default of the parameter [topN]. *)
Definition defaultTopN : number := Num 3.

Definition findTopMatches (invoices : list Invoice.t)
    (transactions : list Transaction.t) (topN : number) (config : Partial.t)
  : gmap string (list MatchCandidate) :=
  let finalConfig := spread DEFAULT_MATCHING_CONFIG config in
  fold_left
    (fun (matchesByInvoice : gmap string (list MatchCandidate)) invoice =>
       let candidates :=
         findCandidatesForInvoice invoice transactions finalConfig in
       <[Invoice.id invoice := sliceTo candidates topN]> matchesByInvoice)
    invoices ∅.

End Engine.

Module ConfidenceDistribution.
Record t : Type := mk { high : nat; medium : nat; low : nat }.
End ConfidenceDistribution.

Record MatchingStats : Type := mkStats {
  totalInvoices : nat;
  totalTransactions : nat;
  totalCandidates : nat;
  averageConfidence : number;
  confidenceDistribution : ConfidenceDistribution.t
}.

(** The body of the loop of [getMatchingStats]; the state is
    [(totalConfidence, confidenceDistribution)]. *)
Definition statsStep (state : number * ConfidenceDistribution.t)
    (candidate : MatchCandidate) : number * ConfidenceDistribution.t :=
  let '(totalConfidence, d) := state in
  let totalConfidence := add totalConfidence (confidenceScore candidate) in
  let d :=
    if geb (confidenceScore candidate) (Num 0.8) then
      ConfidenceDistribution.mk (S (ConfidenceDistribution.high d))
        (ConfidenceDistribution.medium d) (ConfidenceDistribution.low d)
    else if geb (confidenceScore candidate) (Num 0.5) then
      ConfidenceDistribution.mk (ConfidenceDistribution.high d)
        (S (ConfidenceDistribution.medium d)) (ConfidenceDistribution.low d)
    else
      ConfidenceDistribution.mk (ConfidenceDistribution.high d)
        (ConfidenceDistribution.medium d) (S (ConfidenceDistribution.low d)) in
  (totalConfidence, d).

Definition getMatchingStats (candidates : list MatchCandidate) : MatchingStats :=
  let '(totalConfidence, confidenceDistribution) :=
    fold_left statsStep candidates
      (Num 0, ConfidenceDistribution.mk 0 0 0) in
  {| totalInvoices :=
       size (list_to_set (map invoiceId candidates) : gset string);
     totalTransactions :=
       size (list_to_set (map transactionId candidates) : gset string);
     totalCandidates := List.length candidates;
     averageConfidence :=
       if (0 <? List.length candidates)%nat
       then div totalConfidence (ofNat (List.length candidates))
       else Num 0;
     confidenceDistribution := confidenceDistribution |}.

End MatchingEngine.

Import MatchingEngine.

(* ================================================================== *)
(** * The utilities of [@/utils/matching-utils]                        *)
(* ================================================================== *)

Module MatchingUtils.

(** [maxConfidence ? c.confidenceScore <= maxConfidence : true]: the test
    is the truthiness of [maxConfidence], so an absent bound, [0] and [NaN]
    all take the second branch. *)
Definition filterByConfidence (candidates : list MatchCandidate)
    (minConfidence : number) (maxConfidence : option number)
  : list MatchCandidate :=
  List.filter
    (fun c =>
       let meetsMin := geb (confidenceScore c) minConfidence in
       let meetsMax :=
         match maxConfidence with
         | Some m => if truthy m then leb (confidenceScore c) m else true
         | None => true
         end in
       meetsMin && meetsMax)
    candidates.

(** The two grouping functions differ in the key only.  [groupStep] is the
    body of their first loop. *)
Definition groupStep (key : MatchCandidate -> string)
    (grouped : gmap string (list MatchCandidate)) (candidate : MatchCandidate)
  : gmap string (list MatchCandidate) :=
  let grouped :=
    match grouped !! key candidate with
    | None => <[key candidate := []]> grouped
    | Some _ => grouped
    end in
  <[key candidate := (grouped !!! key candidate) ++ [candidate]]> grouped.

Definition groupBy (key : MatchCandidate -> string)
    (candidates : list MatchCandidate) : gmap string (list MatchCandidate) :=
  let grouped := fold_left (groupStep key) candidates ∅ in
  sort byConfidenceDesc <$> grouped.

Definition groupByInvoice (candidates : list MatchCandidate)
  : gmap string (list MatchCandidate) := groupBy invoiceId candidates.

Definition groupByTransaction (candidates : list MatchCandidate)
  : gmap string (list MatchCandidate) := groupBy transactionId candidates.

(** [m.get(k)!.length]: the key is present for every candidate of the list
    the map was built from (lemma [groupBy_lookup] below), so the total
    lookup never takes its default. *)
Definition findOneToOneMatches (candidates : list MatchCandidate)
  : list MatchCandidate :=
  let byInvoice := groupByInvoice candidates in
  let byTransaction := groupByTransaction candidates in
  List.filter
    (fun c =>
       let invoiceMatches :=
         (List.length (byInvoice !!! invoiceId c) =? 1)%nat in
       let transactionMatches :=
         (List.length (byTransaction !!! transactionId c) =? 1)%nat in
       invoiceMatches && transactionMatches)
    candidates.

Definition findAmbiguousMatches (candidates : list MatchCandidate)
  : list MatchCandidate :=
  let byInvoice := groupByInvoice candidates in
  let byTransaction := groupByTransaction candidates in
  List.filter
    (fun c =>
       let invoiceMatches :=
         (1 <? List.length (byInvoice !!! invoiceId c))%nat in
       let transactionMatches :=
         (1 <? List.length (byTransaction !!! transactionId c))%nat in
       invoiceMatches || transactionMatches)
    candidates.

Record MatchingMetrics : Type := mkMetrics {
  precision : number;
  recall : number;
  f1Score : number;
  truePositives : nat;
  falsePositives : nat;
  falseNegatives : nat
}.

(** [`${c.invoiceId}-${c.transactionId}`] *)
Definition pairKey (c : MatchCandidate) : string :=
  (invoiceId c ++ "-" ++ transactionId c)%string.

(** The two counting loops run over sets; the counters do not depend on
    the order in which the elements come. *)
Definition calculateMetrics (proposedMatches : list MatchCandidate)
    (trueMatches : gset string) : MatchingMetrics :=
  let proposed : gset string := list_to_set (map pairKey proposedMatches) in
  let '(truePositives, falsePositives) :=
    fold_left
      (fun '(tp, fp) m =>
         if bool_decide (m ∈ trueMatches) then (S tp, fp) else (tp, S fp))
      (elements proposed) (0%nat, 0%nat) in
  let falseNegatives :=
    fold_left
      (fun fn m => if negb (bool_decide (m ∈ proposed)) then S fn else fn)
      (elements trueMatches) 0%nat in
  let precision :=
    if (truePositives + falsePositives =? 0)%nat then Num 0
    else div (ofNat truePositives) (ofNat (truePositives + falsePositives)) in
  let recall :=
    if (truePositives + falseNegatives =? 0)%nat then Num 0
    else div (ofNat truePositives) (ofNat (truePositives + falseNegatives)) in
  let f1Score :=
    if strictEq (add precision recall) (Num 0) then Num 0
    else div (mul (Num 2) (mul precision recall)) (add precision recall) in
  {| precision := precision;
     recall := recall;
     f1Score := f1Score;
     truePositives := truePositives;
     falsePositives := falsePositives;
     falseNegatives := falseNegatives |}.

Module Distribution.
Record t : Type := mk { min : number; max : number; avg : number }.
End Distribution.

Record ScoringAnalysis : Type := mkAnalysis {
  amountScoreInfluence : number;
  dateScoreInfluence : number;
  referenceScoreInfluence : number;
  amountScoresDistribution : Distribution.t;
  dateScoresDistribution : Distribution.t;
  referenceScoresDistribution : Distribution.t
}.

(** The variables of the loop of [analyzeScoringFactors]. *)
Module Running.
Record t : Type := mk {
  amountSum : number; dateSum : number; referenceSum : number;
  amountMin : number; amountMax : number;
  dateMin : number; dateMax : number;
  refMin : number; refMax : number
}.
End Running.

Definition analyzeStep (s : Running.t) (c : MatchCandidate) : Running.t := {|
  Running.amountSum := add (Running.amountSum s) (amountScore c);
  Running.dateSum := add (Running.dateSum s) (dateScore c);
  Running.referenceSum := add (Running.referenceSum s) (referenceScore c);
  Running.amountMin := Math.min (Running.amountMin s) (amountScore c);
  Running.amountMax := Math.max (Running.amountMax s) (amountScore c);
  Running.dateMin := Math.min (Running.dateMin s) (dateScore c);
  Running.dateMax := Math.max (Running.dateMax s) (dateScore c);
  Running.refMin := Math.min (Running.refMin s) (referenceScore c);
  Running.refMax := Math.max (Running.refMax s) (referenceScore c)
|}.

Definition analyzeScoringFactors (candidates : list MatchCandidate)
  : ScoringAnalysis :=
  if (List.length candidates =? 0)%nat then
    {| amountScoreInfluence := Num 0;
       dateScoreInfluence := Num 0;
       referenceScoreInfluence := Num 0;
       amountScoresDistribution := Distribution.mk (Num 0) (Num 0) (Num 0);
       dateScoresDistribution := Distribution.mk (Num 0) (Num 0) (Num 0);
       referenceScoresDistribution := Distribution.mk (Num 0) (Num 0) (Num 0) |}
  else
    let s :=
      fold_left analyzeStep candidates
        (Running.mk (Num 0) (Num 0) (Num 0)
           PosInf NegInf PosInf NegInf PosInf NegInf) in
    let totalScoreSum :=
      add (add (Running.amountSum s) (Running.dateSum s)) (Running.referenceSum s) in
    let count := ofNat (List.length candidates) in
    {| amountScoreInfluence :=
         if strictEq totalScoreSum (Num 0) then Num 0
         else div (Running.amountSum s) totalScoreSum;
       dateScoreInfluence :=
         if strictEq totalScoreSum (Num 0) then Num 0
         else div (Running.dateSum s) totalScoreSum;
       referenceScoreInfluence :=
         if strictEq totalScoreSum (Num 0) then Num 0
         else div (Running.referenceSum s) totalScoreSum;
       amountScoresDistribution :=
         Distribution.mk (Running.amountMin s) (Running.amountMax s)
           (div (Running.amountSum s) count);
       dateScoresDistribution :=
         Distribution.mk (Running.dateMin s) (Running.dateMax s)
           (div (Running.dateSum s) count);
       referenceScoresDistribution :=
         Distribution.mk (Running.refMin s) (Running.refMax s)
           (div (Running.referenceSum s) count) |}.

End MatchingUtils.

Import MatchingUtils.

(* ================================================================== *)
(** * The statements of the specification                              *)
(* ================================================================== *)

Module Spec.

(** How a call ends.  The sources have no [throw] statement and call
    nothing that throws, so every call of the engine returns. *)
Inductive Fault : Type := InvalidConfiguration.

Inductive Completion (A : Type) : Type :=
| Returns (v : A)
| Throws (f : Fault).
Arguments Returns {A} v.
Arguments Throws {A} f.

Definition composeConfidence (amountScore dateScore referenceScore : number)
    (config : MatchingConfig) : Completion number :=
  Returns (calculateConfidenceScore amountScore dateScore referenceScore config).

Definition allWeightsZero (config : MatchingConfig) : Prop :=
  amountWeight config == 0 /\ dateWeight config == 0 /\ referenceWeight config == 0.

(** A configuration with the three weights at zero, the other fields as
    in the default. *)
Definition zeroWeights : MatchingConfig :=
  mkConfig false 0.02 0 30 0 0.5 0 0.5.

(** [Math.max(0, Math.min(1, x))] *)
Definition clamp (x : number) : number := Math.max (Num 0) (Math.min (Num 1) x).

(** The weighted sum of three finite scores, the weights normalised by
    their total. *)
Definition weightedSum (config : MatchingConfig) (a d r : Q) : Q :=
  let total := amountWeight config + dateWeight config + referenceWeight config in
  a * (amountWeight config / total) + d * (dateWeight config / total)
  + r * (referenceWeight config / total).

(** The quantities of the amount formula, for a non-zero invoice amount. *)
Definition percentDiff (invoiceAmount transactionAmount : Q) : Q :=
  Qabs (invoiceAmount - transactionAmount) / invoiceAmount * 100.

Definition tolerance (config : MatchingConfig) (invoiceAmount : Q) : Q :=
  amountTolerance config * invoiceAmount / 100.

(** A time zone whose offsets from UTC are all of less than a day. *)
Definition boundedOffsets (tz : TimeZone) : Prop :=
  forall t b, (Z.abs (tz t b) < Date.msPerDay)%Z.

(** The day number [n] is the one of its own civil date, as the [Date]
    constructor reads that date. *)
Definition civilRoundTrip (n : Z) : bool :=
  let '(y, m, d) := Date.civilFromDays n in
  let yr := if (0 <=? y)%Z && (y <=? 99)%Z then (1900 + y)%Z else y in
  (Date.MakeDay yr (m - 1) d =? n)%Z.

(** The composed confidence of a pair, and the candidate that stands for
    the pair. *)
Definition confidenceOf (tz : TimeZone) (config : MatchingConfig)
    (invoice : Invoice.t) (transaction : Transaction.t) : number :=
  calculateConfidenceScore
    (AmountResult.score
       (calculateAmountScore (Num (Invoice.amount invoice))
          (Num (Transaction.amount transaction)) config))
    (DateResult.score
       (calculateDateScore tz (Invoice.date invoice)
          (Transaction.date transaction) config))
    (calculateReferenceScore invoice transaction config)
    config.

Definition candidateOf (tz : TimeZone) (config : MatchingConfig)
    (pair : Invoice.t * Transaction.t) : MatchCandidate :=
  let '(invoice, transaction) := pair in
  let amountResult :=
    calculateAmountScore (Num (Invoice.amount invoice))
      (Num (Transaction.amount transaction)) config in
  let dateResult :=
    calculateDateScore tz (Invoice.date invoice) (Transaction.date transaction)
      config in
  let referenceScore := calculateReferenceScore invoice transaction config in
  {| invoiceId := Invoice.id invoice;
     transactionId := Transaction.id transaction;
     confidenceScore := confidenceOf tz config invoice transaction;
     amountScore := AmountResult.score amountResult;
     dateScore := DateResult.score dateResult;
     referenceScore := referenceScore;
     breakdown := {|
       amountDifference := AmountResult.difference amountResult;
       dateDifference := DateResult.difference dateResult;
       amountMatch := AmountResult.isMatch amountResult;
       dateInWindow := DateResult.inWindow dateResult;
       referenceSimilarity := referenceScore |} |}.

(** The pairs of the cross product whose confidence reaches the
    threshold. *)
Definition meetsThreshold (tz : TimeZone) (config : MatchingConfig)
    (pair : Invoice.t * Transaction.t) : bool :=
  geb (confidenceOf tz config (fst pair) (snd pair))
      (Num (minConfidenceScore config)).

Definition qualifyingPairs (tz : TimeZone) (config : MatchingConfig)
    (invoices : list Invoice.t) (transactions : list Transaction.t)
  : list (Invoice.t * Transaction.t) :=
  List.filter (meetsThreshold tz config) (list_prod invoices transactions).

(** A candidate with a finite confidence. *)
Definition finiteConfidence (c : MatchCandidate) : Prop :=
  exists q, confidenceScore c = Num q.

(** In descending order of confidence: each candidate has at least the
    confidence of every later one. *)
Definition descending (l : list MatchCandidate) : Prop :=
  StronglySorted
    (fun a b => geb (confidenceScore a) (confidenceScore b) = true) l.

(** [filterByRange(candidates, min, max?)] with inclusive bounds. *)
Definition filterByRange (candidates : list MatchCandidate) (min : number)
    (max : option number) : list MatchCandidate :=
  List.filter
    (fun c =>
       geb (confidenceScore c) min &&
       match max with
       | Some m => leb (confidenceScore c) m
       | None => true
       end)
    candidates.

(** A candidate with the given identifiers and confidence, the match
    otherwise perfect. *)
Definition candidate (invoice transaction : string) (confidence : Q)
  : MatchCandidate :=
  mkCandidate invoice transaction (Num confidence) (Num 1) (Num 1) (Num 1)
    (mkBreakdown (Num 0) (Num 0) true true (Num 1)).

(** The size of the group of the key [k]: the number of candidates of the
    list that have this key. *)
Definition groupSize (key : MatchCandidate -> string)
    (candidates : list MatchCandidate) (k : string) : nat :=
  List.length (List.filter (fun c => String.eqb (key c) k) candidates).

(** Scenario A: the invoice and the transaction; the fields the scenario
    leaves open are parameters, the optional ones it does not give are
    absent. *)
Definition scenarioInvoice (id customerId : string) (dueDate : option Z)
    (status : option InvoiceStatus) : Invoice.t :=
  Invoice.mk id 1000 (Date.ofISODate 2024 1 15) dueDate customerId
    "Test Company" None None status.

Definition scenarioTransaction (id : string) (reference : option string)
    (source : Source) (status : option TransactionStatus) : Transaction.t :=
  Transaction.mk id 1000 (Date.ofISODate 2024 1 15)
    "Test Company REF-001 payment" reference source status.

End Spec.

Import Spec.

(* ================================================================== *)
(** * Double precision                                                 *)
(* ================================================================== *)

(** A JavaScript number is an IEEE 754 binary64 value.  Where a result
    turns on rounding, the code is embedded over [spec_float] at precision
    53 and maximal exponent 1024: each operation rounds to nearest, ties to
    even; zeros carry a sign; [NaN] compares with nothing. *)
Module Binary64.

Definition prec : Z := 53.
Definition emax : Z := 1024.

Definition double : Type := spec_float.

(** An integer literal, and a decimal literal [digits / 10^scale]: the
    double nearest to it, for [digits] and [10^scale] below [2^53]. *)
Definition ofZ (z : Z) : double := binary_normalize prec emax z 0 false.

Definition add : double -> double -> double := SFadd prec emax.
Definition sub : double -> double -> double := SFsub prec emax.
Definition mul : double -> double -> double := SFmul prec emax.
Definition div : double -> double -> double := SFdiv prec emax.

Definition ofDecimal (digits scale : Z) : double :=
  div (ofZ digits) (ofZ (10 ^ scale)).

(** [x === y], [x <= y], [x < y]. *)
Definition strictEq (x y : double) : bool := SFeqb x y.
Definition leb (x y : double) : bool := SFleb x y.
Definition ltb (x y : double) : bool := SFltb x y.

(** [Math.abs] and [Math.max]; [+0] is the greater of the two zeros. *)
Definition abs (x : double) : double := SFabs x.

Definition max (x y : double) : double :=
  match SFcompare x y with
  | None => S754_nan
  | Some Lt => y
  | Some Gt => x
  | Some Eq => match x with S754_zero true => y | _ => x end
  end.

(** The rational a finite double stands for. *)
Definition toQ (x : double) : Q :=
  match x with
  | S754_finite s m e => inject_Z (cond_Zopp s (Zpos m)) * Qpower 2 e
  | _ => 0
  end.

End Binary64.

(** [calculateAmountScore] of [matching-engine.ts] over doubles. *)
Module MatchingEngine64.

Import Binary64.

Record MatchingConfig : Type := mkConfig {
  exactAmountMatch : bool;
  amountTolerance : double;
  amountWeight : double;
  dateWindowDays : double;
  dateWeight : double;
  referenceSimilarityThreshold : double;
  referenceWeight : double;
  minConfidenceScore : double
}.

Definition DEFAULT_MATCHING_CONFIG : MatchingConfig := {|
  exactAmountMatch := false;
  amountTolerance := ofDecimal 2 2;
  amountWeight := ofDecimal 4 1;
  dateWindowDays := ofZ 30;
  dateWeight := ofDecimal 3 1;
  referenceSimilarityThreshold := ofDecimal 5 1;
  referenceWeight := ofDecimal 3 1;
  minConfidenceScore := ofDecimal 5 1
|}.

Module AmountResult.
Record t : Type := mk { score : double; isMatch : bool; difference : double }.
End AmountResult.

Definition calculateAmountScore (invoiceAmount transactionAmount : double)
    (config : MatchingConfig) : AmountResult.t :=
  let difference := abs (sub invoiceAmount transactionAmount) in
  let percentageDifference := mul (div difference invoiceAmount) (ofZ 100) in
  if strictEq invoiceAmount transactionAmount then
    AmountResult.mk (ofZ 1) true (ofZ 0)
  else if exactAmountMatch config then
    AmountResult.mk (ofZ 0) false difference
  else
    let tolerance :=
      div (mul (amountTolerance config) invoiceAmount) (ofZ 100) in
    if leb difference tolerance then
      let score :=
        sub (ofZ 1)
          (div percentageDifference (mul (amountTolerance config) (ofZ 100))) in
      AmountResult.mk (max (ofZ 0) score) true difference
    else
      let maxDifference := mul invoiceAmount (ofDecimal 5 1) in
      let score :=
        max (ofZ 0) (sub (ofZ 1) (div percentageDifference (ofZ 50))) in
      AmountResult.mk (max (ofZ 0) (mul score (ofDecimal 5 1))) false difference.

End MatchingEngine64.

(** The amount formula of the specification, each operation in double
    precision, in the order the formula is written. *)
Module Spec64.

Import Binary64.

Definition percentDiff (invoiceAmount transactionAmount : double) : double :=
  mul (div (abs (sub invoiceAmount transactionAmount)) invoiceAmount) (ofZ 100).

Definition tolerance (config : MatchingEngine64.MatchingConfig)
    (invoiceAmount : double) : double :=
  div (mul (MatchingEngine64.amountTolerance config) invoiceAmount) (ofZ 100).

(** [1 - percentDiff / (amountTolerance * 100)], clamped at zero from
    below. *)
Definition scoreWithin (config : MatchingEngine64.MatchingConfig)
    (invoiceAmount transactionAmount : double) : double :=
  max (ofZ 0)
    (sub (ofZ 1)
       (div (percentDiff invoiceAmount transactionAmount)
          (mul (MatchingEngine64.amountTolerance config) (ofZ 100)))).

(** [max(0, 0.5 * (1 - percentDiff / 50))]. *)
Definition scoreOutside (invoiceAmount transactionAmount : double) : double :=
  max (ofZ 0)
    (mul (ofDecimal 5 1)
       (sub (ofZ 1) (div (percentDiff invoiceAmount transactionAmount) (ofZ 50)))).

(** The configuration of the exact values of a configuration of doubles. *)
Definition exact (config : MatchingEngine64.MatchingConfig) : Types.MatchingConfig :=
  Types.mkConfig (MatchingEngine64.exactAmountMatch config)
    (toQ (MatchingEngine64.amountTolerance config))
    (toQ (MatchingEngine64.amountWeight config))
    (toQ (MatchingEngine64.dateWindowDays config))
    (toQ (MatchingEngine64.dateWeight config))
    (toQ (MatchingEngine64.referenceSimilarityThreshold config))
    (toQ (MatchingEngine64.referenceWeight config))
    (toQ (MatchingEngine64.minConfidenceScore config)).

(** The default configuration with another tolerance. *)
Definition withTolerance (amountTolerance : double) : MatchingEngine64.MatchingConfig :=
  MatchingEngine64.mkConfig false amountTolerance (ofDecimal 4 1) (ofZ 30)
    (ofDecimal 3 1) (ofDecimal 5 1) (ofDecimal 3 1) (ofDecimal 5 1).

End Spec64.

(* ================================================================== *)
(** * Reference notions for the laws of the library                    *)
(* ================================================================== *)

Module Reference.

(** The text the distance functions compare: lower-cased, then trimmed. *)
Definition normalize (s : string) : list ascii := chars (trim (toLowerCase s)).

(** The recurrence of the edit distance: the least number of insertions,
    deletions and substitutions, by the first characters of the two
    texts. *)
Fixpoint editDistance (a : list ascii) : list ascii -> nat :=
  fix inner (b : list ascii) : nat :=
    match a, b with
    | [], _ => List.length b
    | _, [] => List.length a
    | x :: a', y :: b' =>
        Nat.min (Nat.min (editDistance a' b + 1) (inner b' + 1))
          (editDistance a' b' + (if Ascii.eqb x y then 0 else 1))
    end%nat.

(** The rows of the distance matrix: the distances of the growing
    prefixes of the first text ([ra] is the prefix so far, reversed, and
    [todo] what follows it) to one prefix [rb] of the second, reversed. *)
Fixpoint distanceRow (ra todo rb : list ascii) : list nat :=
  match todo with
  | [] => [editDistance ra rb]
  | c :: todo' => editDistance ra rb :: distanceRow (c :: ra) todo' rb
  end.

(** The candidates of one invoice in a list. *)
Definition candidatesOf (key : MatchCandidate -> string) (k : string)
    (candidates : list MatchCandidate) : list MatchCandidate :=
  List.filter (fun c => String.eqb (key c) k) candidates.

(** A candidate all of whose scores are finite numbers of the unit
    interval. *)
Definition unitScores (c : MatchCandidate) : Prop :=
  inUnit (confidenceScore c) /\ inUnit (amountScore c) /\
  inUnit (dateScore c) /\ inUnit (referenceScore c).

(** The configuration [config] with another threshold. *)
Definition withThreshold (config : Partial.t) (threshold : Q) : Partial.t :=
  Partial.mk (Partial.exactAmountMatch config) (Partial.amountTolerance config)
    (Partial.amountWeight config) (Partial.dateWindowDays config)
    (Partial.dateWeight config) (Partial.referenceSimilarityThreshold config)
    (Partial.referenceWeight config) (Some threshold).

Definition setThreshold (config : MatchingConfig) (threshold : Q) : MatchingConfig :=
  mkConfig (exactAmountMatch config) (amountTolerance config) (amountWeight config)
    (dateWindowDays config) (dateWeight config)
    (referenceSimilarityThreshold config) (referenceWeight config) threshold.

(** The sum of a score over a list of candidates, and the least and the
    greatest of the scores, when all are finite. *)
Definition scoreOf (f : MatchCandidate -> number) (c : MatchCandidate) : Q :=
  match f c with Num q => q | _ => 0 end.

Definition finiteScore (f : MatchCandidate -> number) (c : MatchCandidate) : Prop :=
  exists q, f c = Num q.

(** [m] groups the candidates by [key]: a key has a group exactly when a
    candidate has the key, and the group is not empty, holds the candidates
    of the key, and is in descending order when the confidences are
    finite. *)
Definition groupedBy (key : MatchCandidate -> string)
    (candidates : list MatchCandidate)
    (m : gmap string (list MatchCandidate)) : Prop :=
  forall k,
    (m !! k = None <-> forall c, In c candidates -> key c <> k) /\
    (forall g, m !! k = Some g ->
       g <> [] /\ Permutation g (candidatesOf key k candidates) /\
       (Forall finiteConfidence candidates -> descending g)).

(** The metrics of given counts: the arithmetic of [calculateMetrics]
    after its two counting loops. *)
Definition metricsOf (tp fp fn : nat) : MatchingMetrics :=
  let precision :=
    if (tp + fp =? 0)%nat then Num 0 else div (ofNat tp) (ofNat (tp + fp)) in
  let recall :=
    if (tp + fn =? 0)%nat then Num 0 else div (ofNat tp) (ofNat (tp + fn)) in
  let f1Score :=
    if strictEq (add precision recall) (Num 0) then Num 0
    else div (mul (Num 2) (mul precision recall)) (add precision recall) in
  mkMetrics precision recall f1Score tp fp fn.

(** The set of the keys of the proposed matches. *)
Definition proposedKeys (proposedMatches : list MatchCandidate) : gset string :=
  list_to_set (map pairKey proposedMatches).

(** The three variables the loop of [analyzeScoringFactors] keeps for one
    score: its sum, its least and its greatest value. *)
Definition track (f : MatchCandidate -> number) (s : number * number * number)
    (c : MatchCandidate) : number * number * number :=
  let '(sum, least, greatest) := s in
  (add sum (f c), Math.min least (f c), Math.max greatest (f c)).

(** The sum of a finite score over the candidates. *)
Definition totalOf (f : MatchCandidate -> number) (candidates : list MatchCandidate)
  : Q :=
  fold_right (fun c acc => scoreOf f c + acc) 0 candidates.

(** [d] holds the extremes of the score [f] among the candidates: [min]
    is the least and [max] the greatest of the scores, each the score of
    one of the candidates. *)
Definition extremes (f : MatchCandidate -> number)
    (candidates : list MatchCandidate) (d : Distribution.t) : Prop :=
  exists least greatest,
    Distribution.min d = Num least /\ Distribution.max d = Num greatest /\
    (forall c, In c candidates -> least <= scoreOf f c <= greatest) /\
    (exists c, In c candidates /\ f c = Num least) /\
    (exists c, In c candidates /\ f c = Num greatest).

(** A time zone of constant offset [c], in milliseconds. *)
Definition fixedOffset (c : Z) : TimeZone := fun _ _ => c.

(** A time zone whose offset is [c] before the instant [s] and an hour
    more from then on; a local time of the skipped hour is read with the
    offset before the change. *)
Definition springForward (s c : Z) : TimeZone :=
  fun t isUTC =>
    if isUTC then (if t <? s then c else c + 3600000)%Z
    else (if t <? s + c + 3600000 then c else c + 3600000)%Z.

(** Midnight of 0100-01-01, as a local time value: from there on the
    [Date] constructor reads a year as it stands. *)
Definition year100 : Z := Date.MakeDate (Date.daysFromCivil 100 1 1) 0.


(** The least number of characters a match of the pattern has. *)
Fixpoint minLength (r : RegExp.t) : nat :=
  match r with
  | RegExp.Boundary => 0
  | RegExp.Repeat _ lo _ => lo
  | RegExp.Seq r1 r2 => minLength r1 + minLength r2
  end%nat.

End Reference.

Import Reference.

(* ================================================================== *)
(** * The embedding on small inputs                                    *)
(* ================================================================== *)

Example levenshteinDistance_kitten :
  levenshteinDistance "kitten" " Sitting " = 3%nat.
Proof. reflexivity. Qed.

Example levenshteinDistance_empty : levenshteinDistance "" "abc" = 3%nat.
Proof. reflexivity. Qed.

Example fuzzyScore_in_order :
  num_eq (fuzzyScore "acme" "a3cxme corp") (Num (19 # 22)) /\
  fuzzyScore "abc" "abd" = Num 0.
Proof. split; vm_compute; reflexivity. Qed.

Example numberPattern_matches :
  RegExp.matchAll numberPattern "Test 001 a1234 12 12345_ 999" = ["001"; "999"]%string.
Proof. reflexivity. Qed.

Example alphanumericPattern_matches :
  RegExp.matchAll alphanumericPattern "inv-2024-002 ab12345678901 x9"
  = ["inv-2024"; "x9"]%string.
Proof. reflexivity. Qed.

Example extractReferences_transaction :
  extractReferences "Test Company REF-001 payment"
  = ["001"; "REF-001"; "test"; "company"; "ref"; "payment"]%string.
Proof. reflexivity. Qed.

Example extractReferences_invoice :
  extractReferences "Test Company  " = ["test"; "company"]%string.
Proof. reflexivity. Qed.

Example civil_dates :
  Date.ofISODate 2024 1 15 = 1705276800000%Z /\
  Date.civilFromDays 19737 = (2024, 1, 15)%Z /\
  Date.civilFromDays (-1) = (1969, 12, 31)%Z /\
  Date.daysFromCivil 2000 2 29 = 11016%Z.
Proof. repeat split. Qed.

(** Scenario B of the specification: 1000 against 1015 under the default
    tolerance is outside the tolerance of the formula (0.2). *)
Example amount_1000_1015 :
  let result := calculateAmountScore (Num 1000) (Num 1015) DEFAULT_MATCHING_CONFIG in
  num_eq (AmountResult.score result) (Num 0.485) /\
  AmountResult.isMatch result = false /\
  AmountResult.difference result = Num 15.
Proof. repeat split. Qed.

(** A negative invoice amount is outside the precondition, and the amount
    score of such a pair can leave the unit interval. *)
Example amount_negative_invoice :
  num_eq
    (AmountResult.score
       (calculateAmountScore (Num (-100)) (Num 100) DEFAULT_MATCHING_CONFIG))
    (Num 2.5).
Proof. reflexivity. Qed.

(** In a zone with daylight saving time (here five hours west of UTC in
    January and four in March) the two dates of scenario C are 59 whole
    days apart; in UTC they are 60 apart. *)
Example scenario_days :
  let dst : TimeZone :=
    fun t _ => if (t <? 1710054000000)%Z then (-18000000)%Z else (-14400000)%Z in
  dateDifferenceDays dst (Date.ofISODate 2024 1 15) (Date.ofISODate 2024 3 15)
  = Num 59 /\
  dateDifferenceDays Date.utc (Date.ofISODate 2024 1 15) (Date.ofISODate 2024 3 15)
  = Num 60.
Proof. split; reflexivity. Qed.

(* ================================================================== *)
(** * Regular expressions: the matches consume the subject             *)
(* ================================================================== *)

Section RegExpFacts.

Context {R : Type}.

Lemma greedy_suffix cls rest : forall lo hi prev acc
    (k : option ascii -> list ascii -> list ascii -> option R) res,
  RegExp.greedy cls lo hi prev rest acc k = Some res ->
  exists p s a, k p s a = Some res /\ rev a ++ s = rev acc ++ rest.
Proof.
  induction rest as [|c rest IH]; intros lo hi prev acc k res H;
    cbn [RegExp.greedy] in H.
  - destruct lo; [eauto | discriminate].
  - assert (Hstop : match lo with O => k prev (c :: rest) acc | S _ => None end
                    = Some res ->
                    exists p s a, k p s a = Some res /\
                      rev a ++ s = rev acc ++ c :: rest).
    { destruct lo; [eauto | discriminate]. }
    destruct (cls c && RegExp.canTake hi); [|auto].
    destruct (RegExp.greedy cls (Nat.pred lo) (option_map Nat.pred hi) (Some c)
                rest (c :: acc) k) as [r|] eqn:E; [|auto].
    injection H as ->.
    destruct (IH _ _ _ _ _ _ E) as (p & s & a & Hk & Hs).
    exists p, s, a. split; [assumption|].
    rewrite Hs. cbn [rev]. now rewrite <- app_assoc.
Qed.

Lemma exec_suffix r : forall prev rest acc
    (k : option ascii -> list ascii -> list ascii -> option R) res,
  RegExp.exec r prev rest acc k = Some res ->
  exists p s a, k p s a = Some res /\ rev a ++ s = rev acc ++ rest.
Proof.
  induction r as [|cls lo hi|r1 IH1 r2 IH2]; intros prev rest acc k res H;
    cbn [RegExp.exec] in H.
  - destruct (RegExp.isBoundary prev rest); [eauto | discriminate].
  - now apply greedy_suffix in H.
  - apply IH1 in H as (p1 & s1 & a1 & H & Hs1).
    apply IH2 in H as (p & s & a & H & Hs).
    exists p, s, a. split; [assumption | congruence].
Qed.

End RegExpFacts.

Lemma matchAt_suffix r prev rest m p s :
  RegExp.matchAt r prev rest = Some (m, p, s) -> m ++ s = rest.
Proof.
  unfold RegExp.matchAt. intros H.
  apply exec_suffix in H as (p' & s' & a' & H & Hs).
  injection H as <- <- <-. exact Hs.
Qed.

(** The fuel of [matchAll] is enough: more of it changes nothing. *)
Lemma scan_fuel_enough r : forall fuel1 fuel2 prev rest,
  (List.length rest < fuel1)%nat -> (List.length rest < fuel2)%nat ->
  RegExp.scan fuel1 r prev rest = RegExp.scan fuel2 r prev rest.
Proof.
  induction fuel1 as [|fuel1 IH]; intros fuel2 prev rest H1 H2; [lia|].
  destruct fuel2 as [|fuel2]; [lia|]. cbn [RegExp.scan].
  destruct (RegExp.matchAt r prev rest) as [[[m p] s]|] eqn:E.
  - destruct m as [|c m].
    + destruct rest as [|c rest]; [reflexivity|].
      f_equal. apply IH; cbn [List.length] in *; lia.
    + apply matchAt_suffix in E. f_equal.
      apply IH; subst rest; cbn [List.length app] in *;
        rewrite ?length_app in *; lia.
  - destruct rest as [|c rest]; [reflexivity|].
    apply IH; cbn [List.length] in *; lia.
Qed.

(* ================================================================== *)
(** * Numbers: comparison and arithmetic on finite values              *)
(* ================================================================== *)

Section NumberFacts.

Lemma leb_Num a b : leb (Num a) (Num b) = true <-> a <= b.
Proof.
  unfold leb, JS.compare. rewrite Qle_alt.
  destruct (a ?= b); split; intros; congruence.
Qed.

Lemma geb_Num a b : geb (Num a) (Num b) = true <-> b <= a.
Proof.
  unfold geb, JS.compare. rewrite Qle_alt, <- (Qcompare_antisym a b).
  destruct (a ?= b); simpl; split; intros; congruence.
Qed.

Lemma ltb_Num a b : ltb (Num a) (Num b) = true <-> a < b.
Proof.
  unfold ltb, JS.compare. rewrite Qlt_alt.
  destruct (a ?= b); split; intros; congruence.
Qed.

Lemma gtb_Num a b : gtb (Num a) (Num b) = true <-> b < a.
Proof.
  unfold gtb, JS.compare. rewrite Qgt_alt.
  destruct (a ?= b); split; intros; congruence.
Qed.

Lemma strictEq_Num a b : strictEq (Num a) (Num b) = true <-> a == b.
Proof.
  unfold strictEq, JS.compare. rewrite Qeq_alt.
  destruct (a ?= b); split; intros; congruence.
Qed.

Lemma leb_Num_false a b : leb (Num a) (Num b) = false <-> b < a.
Proof.
  rewrite <- not_true_iff_false, leb_Num. split; intros H.
  - now apply Qnot_le_lt.
  - now apply Qlt_not_le.
Qed.

Lemma strictEq_Num_false a b : strictEq (Num a) (Num b) = false <-> ~ a == b.
Proof. now rewrite <- not_true_iff_false, strictEq_Num. Qed.

Lemma max_Num_l a b : b <= a -> Math.max (Num a) (Num b) = Num a.
Proof.
  intros H. unfold Math.max, JS.compare.
  destruct (a ?= b) eqn:E; try reflexivity.
  apply Qlt_alt in E. exfalso. now apply (Qlt_not_le a b).
Qed.

Lemma max_Num_r a b : a < b -> Math.max (Num a) (Num b) = Num b.
Proof.
  intros H. unfold Math.max, JS.compare.
  destruct (a ?= b) eqn:E; try reflexivity; exfalso.
  - apply Qeq_alt in E. rewrite E in H. now apply (Qlt_irrefl b).
  - apply Qgt_alt in E. now apply (Qlt_irrefl a), (Qlt_trans a b a).
Qed.

Lemma min_Num_l a b : a <= b -> Math.min (Num a) (Num b) = Num a.
Proof.
  intros H. unfold Math.min, JS.compare.
  destruct (a ?= b) eqn:E; try reflexivity.
  apply Qgt_alt in E. exfalso. now apply (Qlt_not_le b a).
Qed.

Lemma min_Num_r a b : b < a -> Math.min (Num a) (Num b) = Num b.
Proof.
  intros H. unfold Math.min, JS.compare.
  destruct (a ?= b) eqn:E; try reflexivity; exfalso.
  - apply Qeq_alt in E. rewrite E in H. now apply (Qlt_irrefl b).
  - apply Qlt_alt in E. now apply (Qlt_irrefl a), (Qlt_trans a b a).
Qed.

Lemma div_Num a b : ~ b == 0 -> div (Num a) (Num b) = Num (a / b).
Proof.
  intros H. unfold div. destruct (Qeq_bool b 0) eqn:E; [|reflexivity].
  apply Qeq_bool_iff in E. contradiction.
Qed.

Lemma div_zero_zero a b : a == 0 -> b == 0 -> div (Num a) (Num b) = NaN.
Proof.
  intros Ha Hb. unfold div.
  apply Qeq_bool_iff in Hb. rewrite Hb.
  destruct (a ?= 0) eqn:E; try reflexivity; exfalso.
  - apply Qlt_alt in E. rewrite Ha in E. now apply (Qlt_irrefl 0).
  - apply Qgt_alt in E. rewrite Ha in E. now apply (Qlt_irrefl 0).
Qed.

Lemma Qdiv_pos_const x (p : positive) : x / (Zpos p # 1) == x * (1 # p).
Proof. unfold Qdiv, Qinv. simpl. reflexivity. Qed.

Lemma mul_NaN_r x : mul x NaN = NaN.
Proof. now destruct x. Qed.

Lemma add_NaN_r x : add x NaN = NaN.
Proof. now destruct x. Qed.

Lemma clamp_Num q : exists r, clamp (Num q) = Num r /\ 0 <= r <= 1 /\
  (q <= 0 -> r == 0) /\ (1 <= q -> r == 1) /\ (0 <= q <= 1 -> r == q).
Proof.
  unfold clamp.
  destruct (Qlt_le_dec q 1) as [H1|H1].
  - rewrite (min_Num_r 1 q H1).
    destruct (Qlt_le_dec 0 q) as [H0|H0].
    + rewrite (max_Num_r 0 q H0). exists q. repeat split; intros; lra.
    + rewrite (max_Num_l 0 q H0). exists 0. repeat split; intros; lra.
  - rewrite (min_Num_l 1 q H1), (max_Num_r 0 1) by lra.
    exists 1. repeat split; intros; lra.
Qed.

Lemma clamp_range x : clamp x = NaN \/ inUnit (clamp x).
Proof.
  destruct x as [| | |q].
  - now left.
  - right. exists 1. split; [reflexivity | lra].
  - right. exists 0. split; [reflexivity | lra].
  - right. destruct (clamp_Num q) as (r & Hr & Hu & _). now exists r.
Qed.

Lemma clamp_mono a b : a <= b -> leb (clamp (Num a)) (clamp (Num b)) = true.
Proof.
  intros Hab.
  destruct (clamp_Num a) as (ra & -> & Ha & Ha0 & Ha1 & Hai).
  destruct (clamp_Num b) as (rb & -> & Hb & Hb0 & Hb1 & Hbi).
  apply leb_Num.
  destruct (Qlt_le_dec a 0), (Qlt_le_dec 1 a), (Qlt_le_dec b 0), (Qlt_le_dec 1 b);
    try lra;
    repeat match goal with
    | H : ?P -> _ |- _ =>
        first [ specialize (H ltac:(lra)) | clear H ]
    end; lra.
Qed.

End NumberFacts.

(* ================================================================== *)
(** * The confidence composer                                          *)
(* ================================================================== *)

Section Confidence.

Variable config : MatchingConfig.

Lemma confidence_is_clamp a d r :
  exists x, calculateConfidenceScore a d r config = clamp x.
Proof. unfold calculateConfidenceScore, clamp. eauto. Qed.

Lemma confidence_range a d r :
  calculateConfidenceScore a d r config = NaN \/
  inUnit (calculateConfidenceScore a d r config).
Proof.
  destruct (confidence_is_clamp a d r) as [x ->]. apply clamp_range.
Qed.

(** With a non-zero total weight and finite scores the composer computes
    the clamped weighted sum. *)
Lemma confidence_finite (a d r : Q) :
  ~ amountWeight config + dateWeight config + referenceWeight config == 0 ->
  calculateConfidenceScore (Num a) (Num d) (Num r) config
  = clamp (Num (weightedSum config a d r)).
Proof.
  intros Htotal. unfold calculateConfidenceScore, weightedSum.
  cbn [add]. rewrite !div_Num by assumption. reflexivity.
Qed.

Lemma confidence_zero_total a d r :
  allWeightsZero config -> calculateConfidenceScore a d r config = NaN.
Proof.
  intros (Ha & Hd & Hr). unfold calculateConfidenceScore. cbn [add].
  assert (Ht : amountWeight config + dateWeight config + referenceWeight config == 0)
    by (rewrite Ha, Hd, Hr; reflexivity).
  rewrite !div_zero_zero by assumption.
  now rewrite !mul_NaN_r.
Qed.

Hypothesis amountWeight_nonneg : 0 <= amountWeight config.
Hypothesis dateWeight_nonneg : 0 <= dateWeight config.
Hypothesis referenceWeight_nonneg : 0 <= referenceWeight config.
Hypothesis totalWeight_pos :
  0 < amountWeight config + dateWeight config + referenceWeight config.

Lemma normalized_nonneg w :
  0 <= w ->
  0 <= w / (amountWeight config + dateWeight config + referenceWeight config).
Proof.
  intros Hw. apply Qle_shift_div_l; [assumption | lra].
Qed.

Lemma weightedSum_mono a a' d d' r r' :
  a <= a' -> d <= d' -> r <= r' ->
  weightedSum config a d r <= weightedSum config a' d' r'.
Proof.
  intros Ha Hd Hr. unfold weightedSum.
  repeat apply Qplus_le_compat;
    apply Qmult_le_compat_r; auto using normalized_nonneg.
Qed.

Lemma confidence_mono a a' d d' r r' :
  a <= a' -> d <= d' -> r <= r' ->
  leb (calculateConfidenceScore (Num a) (Num d) (Num r) config)
      (calculateConfidenceScore (Num a') (Num d') (Num r') config) = true.
Proof.
  intros Ha Hd Hr.
  rewrite !confidence_finite by lra.
  apply clamp_mono, weightedSum_mono; assumption.
Qed.

End Confidence.




(** C7.  With non-negative weights of positive total, the confidence does
    not decrease when one of the three scores grows and the other two stay
    as they are. *)
Theorem confidence_monotone (config : MatchingConfig) :
  0 <= amountWeight config -> 0 <= dateWeight config ->
  0 <= referenceWeight config ->
  0 < amountWeight config + dateWeight config + referenceWeight config ->
  forall a d r x : Q,
    (a <= x ->
     leb (calculateConfidenceScore (Num a) (Num d) (Num r) config)
         (calculateConfidenceScore (Num x) (Num d) (Num r) config) = true) /\
    (d <= x ->
     leb (calculateConfidenceScore (Num a) (Num d) (Num r) config)
         (calculateConfidenceScore (Num a) (Num x) (Num r) config) = true) /\
    (r <= x ->
     leb (calculateConfidenceScore (Num a) (Num d) (Num r) config)
         (calculateConfidenceScore (Num a) (Num d) (Num x) config) = true).
Proof.
  intros Ha Hd Hr Ht a d r x.
  repeat split; intros Hx;
    apply confidence_mono; auto; apply Qle_refl.
Qed.

Lemma confidence_monotone_witness :
  leb (calculateConfidenceScore (Num 0.2) (Num 0.5) (Num 0.3)
         DEFAULT_MATCHING_CONFIG)
      (calculateConfidenceScore (Num 0.9) (Num 0.5) (Num 0.3)
         DEFAULT_MATCHING_CONFIG) = true.
Proof.
  refine (proj1 (confidence_monotone DEFAULT_MATCHING_CONFIG _ _ _ _
                   0.2 0.5 0.3 0.9) _);
    vm_compute; congruence.
Defined.

(* ================================================================== *)
(** * The amount score                                                 *)
(* ================================================================== *)

Section AmountScore.

Variable config : MatchingConfig.
Variables invoiceAmount transactionAmount : Q.

Local Abbreviation difference := (Qabs (invoiceAmount - transactionAmount)).

Lemma amount_equal :
  invoiceAmount == transactionAmount ->
  calculateAmountScore (Num invoiceAmount) (Num transactionAmount) config
  = AmountResult.mk (Num 1) true (Num 0).
Proof.
  intros H. unfold calculateAmountScore.
  apply strictEq_Num in H. now rewrite H.
Qed.

Lemma amount_exact :
  ~ invoiceAmount == transactionAmount -> exactAmountMatch config = true ->
  calculateAmountScore (Num invoiceAmount) (Num transactionAmount) config
  = AmountResult.mk (Num 0) false (Num difference).
Proof.
  intros H Hexact. unfold calculateAmountScore.
  apply strictEq_Num_false in H. now rewrite H, Hexact.
Qed.

Hypothesis unequal : ~ invoiceAmount == transactionAmount.
Hypothesis tolerant : exactAmountMatch config = false.
Hypothesis positive : 0 < invoiceAmount.

Lemma difference_pos : 0 < difference.
Proof.
  apply Qabs_case; intros H.
  - destruct (Qlt_le_dec 0 (invoiceAmount - transactionAmount)); [assumption|].
    exfalso. apply unequal. lra.
  - destruct (Qlt_le_dec 0 (- (invoiceAmount - transactionAmount))); [assumption|].
    exfalso. apply unequal. lra.
Qed.

Lemma percentDiff_nonneg : 0 <= percentDiff invoiceAmount transactionAmount.
Proof.
  unfold percentDiff.
  apply Qmult_le_0_compat; [|lra].
  apply Qle_shift_div_l; [assumption|]. pose proof difference_pos. lra.
Qed.

(** The code of the two branches after the early returns. *)
Lemma amount_branches :
  calculateAmountScore (Num invoiceAmount) (Num transactionAmount) config
  = if leb (Num difference) (Num (tolerance config invoiceAmount)) then
      AmountResult.mk
        (Math.max (Num 0)
           (sub (Num 1)
              (div (Num (percentDiff invoiceAmount transactionAmount))
                   (Num (amountTolerance config * 100)))))
        true (Num difference)
    else
      AmountResult.mk
        (Math.max (Num 0)
           (mul (Math.max (Num 0)
                   (Num (1 - percentDiff invoiceAmount transactionAmount / 50)))
                (Num 0.5)))
        false (Num difference).
Proof.
  unfold calculateAmountScore.
  apply strictEq_Num_false in unequal. rewrite unequal, tolerant.
  cbn [sub mul Math.abs].
  assert (Hinv : ~ invoiceAmount == 0) by lra.
  assert (H100 : ~ 100 == 0) by (intros H; discriminate H).
  assert (H50 : ~ 50 == 0) by (intros H; discriminate H).
  rewrite (div_Num difference invoiceAmount Hinv).
  cbn [mul]. rewrite (div_Num _ 100 H100), (div_Num _ 50 H50).
  reflexivity.
Qed.

Lemma tolerance_pos :
  difference <= tolerance config invoiceAmount -> 0 < amountTolerance config.
Proof.
  intros H. pose proof difference_pos as Hd. unfold tolerance in H.
  rewrite Qdiv_pos_const in H.
  destruct (Qlt_le_dec 0 (amountTolerance config)) as [|Hn]; [assumption|].
  exfalso. nra.
Qed.

Lemma percentDiff_within :
  difference <= tolerance config invoiceAmount ->
  percentDiff invoiceAmount transactionAmount / (amountTolerance config * 100)
  <= 1 / 100.
Proof.
  intros H. pose proof (tolerance_pos H) as Ht.
  apply Qle_shift_div_r; [lra|].
  unfold percentDiff.
  assert (Hq : difference / invoiceAmount <= amountTolerance config * (1 # 100)).
  { apply Qle_shift_div_r; [assumption|].
    unfold tolerance in H. rewrite Qdiv_pos_const in H. nra. }
  rewrite Qdiv_pos_const.
  generalize dependent (difference / invoiceAmount). intros q Hq. lra.
Qed.

Lemma amount_within :
  difference <= tolerance config invoiceAmount ->
  calculateAmountScore (Num invoiceAmount) (Num transactionAmount) config
  = AmountResult.mk
      (Num (1 - percentDiff invoiceAmount transactionAmount
                / (amountTolerance config * 100)))
      true (Num difference).
Proof.
  intros H. rewrite amount_branches.
  rewrite (proj2 (leb_Num _ _) H).
  pose proof (tolerance_pos H) as Ht. pose proof (percentDiff_within H) as Hp.
  rewrite div_Num by lra. cbn [sub].
  rewrite Qdiv_pos_const in Hp.
  rewrite max_Num_r by lra. reflexivity.
Qed.

Lemma amount_outside :
  tolerance config invoiceAmount < difference ->
  exists s,
    calculateAmountScore (Num invoiceAmount) (Num transactionAmount) config
    = AmountResult.mk (Num s) false (Num difference) /\
    s == Qmax 0 (0.5 * (1 - percentDiff invoiceAmount transactionAmount / 50)).
Proof.
  intros H. rewrite amount_branches.
  rewrite (proj2 (leb_Num_false _ _) H).
  set (x := 1 - percentDiff invoiceAmount transactionAmount / 50).
  destruct (Qlt_le_dec 0 x) as [Hx|Hx].
  - rewrite (max_Num_r 0 x Hx). cbn [mul].
    rewrite max_Num_r by lra. eexists; split; [reflexivity|].
    rewrite Q.max_r by lra. ring.
  - rewrite (max_Num_l 0 x Hx). cbn [mul].
    rewrite max_Num_l by lra. eexists; split; [reflexivity|].
    rewrite Q.max_l by lra. reflexivity.
Qed.

End AmountScore.

(* ================================================================== *)
(** * The amount score in double precision                             *)
(* ================================================================== *)

Section Rounding.

Local Open Scope Z_scope.

(** Shifting and rounding keep a mantissa that is not negative so. *)
Lemma shr_1_nonneg mrs : 0 <= shr_m mrs -> 0 <= shr_m (shr_1 mrs).
Proof.
  destruct mrs as [m r s]. destruct m as [|p|p]; cbn; intros H; try lia.
  destruct p; cbn; lia.
Qed.

Lemma iter_shr_1_nonneg p : forall mrs,
  0 <= shr_m mrs -> 0 <= shr_m (SpecFloat.iter_pos shr_1 p mrs).
Proof.
  induction p as [p IH|p IH|]; intros mrs H; cbn.
  - apply IH, IH, shr_1_nonneg, H.
  - apply IH, IH, H.
  - apply shr_1_nonneg, H.
Qed.

Lemma shr_fexp_nonneg m e l :
  0 <= m -> 0 <= shr_m (fst (shr_fexp Binary64.prec Binary64.emax m e l)).
Proof.
  intros H. unfold shr_fexp, shr.
  assert (Hm : 0 <= shr_m (shr_record_of_loc m l)) by (destruct l as [|[]]; exact H).
  destruct (fexp _ _ _ - e); cbn [fst]; try exact Hm.
  now apply iter_shr_1_nonneg.
Qed.

Lemma round_nearest_even_nonneg m l : 0 <= m -> 0 <= round_nearest_even m l.
Proof.
  intros H. destruct l as [|[]]; cbn; try lia. destruct (Z.even m); lia.
Qed.

(** A rounded value keeps the sign it is given. *)
Lemma binary_round_aux_sign s m e l :
  0 <= m ->
  let r := binary_round_aux Binary64.prec Binary64.emax s m e l in
  r = S754_zero s \/ r = S754_infinity s \/ exists m' e', r = S754_finite s m' e'.
Proof.
  intros H. cbv zeta. unfold binary_round_aux.
  pose proof (shr_fexp_nonneg m e l H) as H1.
  destruct (shr_fexp _ _ m e l) as [mrs' e']. cbn [fst] in H1.
  pose proof (shr_fexp_nonneg _ e' loc_Exact
                (round_nearest_even_nonneg _ (loc_of_shr_record mrs') H1)) as H2.
  destruct (shr_fexp _ _ _ e' loc_Exact) as [mrs'' e'']. cbn [fst] in H2.
  destruct (shr_m mrs'') as [|p|p].
  - now left.
  - destruct (e'' <=? _); right; [right; eauto | now left].
  - lia.
Qed.

End Rounding.

Section AmountScore64.

Import Binary64.

Lemma half_eq : ofDecimal 5 1 = S754_finite false 4503599627370496 (-53).
Proof. vm_compute. reflexivity. Qed.

(** [Math.max(0, x)] is never below zero. *)
Lemma max_zero_not_below x : ltb (max (ofZ 0) x) (ofZ 0) = false.
Proof. destruct x as [[]|[]| |[] m e]; reflexivity. Qed.

(** Halving after the clamp at zero, as the code does, or before it, as the
    formula does, gives the same double. *)
Lemma max_half x :
  max (ofZ 0) (mul (max (ofZ 0) x) (ofDecimal 5 1))
  = max (ofZ 0) (mul (ofDecimal 5 1) x).
Proof.
  rewrite half_eq.
  destruct x as [[]|[]| |[] m e]; try reflexivity.
  - (* negative *)
    change (max (ofZ 0) (S754_finite true m e)) with (S754_zero false).
    change (mul (S754_zero false) (S754_finite false 4503599627370496 (-53)))
      with (S754_zero false).
    change (max (ofZ 0) (S754_zero false)) with (S754_zero false).
    unfold mul, SFmul. cbn [xorb].
    destruct (binary_round_aux_sign true (Zpos (4503599627370496 * m)) (-53 + e)
                loc_Exact ltac:(lia)) as [->|[->|(m' & e' & ->)]]; reflexivity.
  - (* positive *)
    change (max (ofZ 0) (S754_finite false m e)) with (S754_finite false m e).
    unfold mul, SFmul. cbn [xorb].
    now rewrite Pos.mul_comm, Z.add_comm.
Qed.

End AmountScore64.

(** C2 (fails on the code).  At the boundary of the tolerance the formula
    in exact arithmetic and the code part.  Invoice 1000, transaction 1003
    and the double nearest to 0.3: the exact tolerance of these three
    doubles is below the difference 3, yet the code finds a match.  Invoice
    1000 against the doubles nearest to 1000.2 and 0.02: the decimal
    difference 0.2 is the tolerance, yet the code finds no match and gives
    a score below 0.5. *)
Lemma calculateAmountScore_boundary :
  (let config := Spec64.withTolerance (Binary64.ofDecimal 3 1) in
   let invoiceAmount := Binary64.ofZ 1000 in
   let transactionAmount := Binary64.ofZ 1003 in
   Spec.tolerance (Spec64.exact config) (Binary64.toQ invoiceAmount)
   < Qabs (Binary64.toQ invoiceAmount - Binary64.toQ transactionAmount) /\
   MatchingEngine64.AmountResult.isMatch
     (MatchingEngine64.calculateAmountScore invoiceAmount transactionAmount config)
   = true) /\
  (let result :=
     MatchingEngine64.calculateAmountScore (Binary64.ofZ 1000)
       (Binary64.ofDecimal 10002 1) MatchingEngine64.DEFAULT_MATCHING_CONFIG in
   Qabs (1000 - 1000.2) <= Spec.tolerance Types.DEFAULT_MATCHING_CONFIG 1000 /\
   MatchingEngine64.AmountResult.isMatch result = false /\
   Binary64.ltb (MatchingEngine64.AmountResult.score result) (Binary64.ofDecimal 5 1)
   = true).
Proof.
  split; cbv zeta.
  - split; [vm_compute; reflexivity | vm_compute; reflexivity].
  - split; [vm_compute; discriminate|]. split; vm_compute; reflexivity.
Qed.

(** C2 (amended).  The amount score in double precision.  Equal amounts give
    [(1, true, 0)]; unequal amounts under [exactAmountMatch] give score [0]
    and no match; otherwise the rounded difference is compared with the
    rounded tolerance: at most the tolerance gives the score
    [max(0, 1 - percentDiff / (amountTolerance * 100))] and a match, above
    it gives [max(0, 0.5 * (1 - percentDiff / 50))] and no match, each
    operation rounded; the score is never below zero. *)
Theorem calculateAmountScore_rounded_formula
    (config : MatchingEngine64.MatchingConfig)
    (invoiceAmount transactionAmount : Binary64.double) :
  let result :=
    MatchingEngine64.calculateAmountScore invoiceAmount transactionAmount config in
  let diff := Binary64.abs (Binary64.sub invoiceAmount transactionAmount) in
  (Binary64.strictEq invoiceAmount transactionAmount = true ->
   result = MatchingEngine64.AmountResult.mk (Binary64.ofZ 1) true (Binary64.ofZ 0)) /\
  (Binary64.strictEq invoiceAmount transactionAmount = false ->
   MatchingEngine64.exactAmountMatch config = true ->
   result = MatchingEngine64.AmountResult.mk (Binary64.ofZ 0) false diff) /\
  (Binary64.strictEq invoiceAmount transactionAmount = false ->
   MatchingEngine64.exactAmountMatch config = false ->
   (Binary64.leb diff (Spec64.tolerance config invoiceAmount) = true ->
    result = MatchingEngine64.AmountResult.mk
               (Spec64.scoreWithin config invoiceAmount transactionAmount)
               true diff) /\
   (Binary64.leb diff (Spec64.tolerance config invoiceAmount) = false ->
    result = MatchingEngine64.AmountResult.mk
               (Spec64.scoreOutside invoiceAmount transactionAmount)
               false diff)) /\
  Binary64.ltb (MatchingEngine64.AmountResult.score result) (Binary64.ofZ 0) = false.
Proof.
  cbv zeta. unfold MatchingEngine64.calculateAmountScore, Spec64.tolerance,
    Spec64.scoreWithin, Spec64.scoreOutside, Spec64.percentDiff.
  destruct (Binary64.strictEq invoiceAmount transactionAmount).
  { repeat split; try discriminate; reflexivity. }
  destruct (MatchingEngine64.exactAmountMatch config).
  { repeat split; try discriminate; reflexivity. }
  destruct (Binary64.leb _ _).
  - split; [discriminate|]. split; [discriminate|]. split.
    + intros _ _. split; [reflexivity | discriminate].
    + apply max_zero_not_below.
  - split; [discriminate|]. split; [discriminate|]. split.
    + intros _ _. split; [discriminate|]. intros _. now rewrite max_half.
    + apply max_zero_not_below.
Qed.

Lemma calculateAmountScore_rounded_formula_witness :
  MatchingEngine64.calculateAmountScore (Binary64.ofZ 1000) (Binary64.ofZ 1015)
    MatchingEngine64.DEFAULT_MATCHING_CONFIG
  = MatchingEngine64.AmountResult.mk
      (Spec64.scoreOutside (Binary64.ofZ 1000) (Binary64.ofZ 1015)) false
      (Binary64.ofZ 15).
Proof.
  refine (proj2 (proj1 (proj2 (proj2
    (calculateAmountScore_rounded_formula MatchingEngine64.DEFAULT_MATCHING_CONFIG
       (Binary64.ofZ 1000) (Binary64.ofZ 1015)))) _ _) _);
    vm_compute; reflexivity.
Defined.

(* ================================================================== *)
(** * The date score                                                   *)
(* ================================================================== *)

Section DateScore.

Variable tz : TimeZone.

Lemma Qabs_inject_Z_sub a b :
  Qabs (inject_Z a - inject_Z b) == inject_Z (Z.abs (a - b)).
Proof.
  unfold Qeq, Qabs, inject_Z, Qminus, Qplus, Qopp; simpl.
  rewrite !Z.mul_1_r. reflexivity.
Qed.

(** The day difference is a whole, non-negative number of days. *)
Lemma dateDifferenceDays_eq d1 d2 :
  dateDifferenceDays tz d1 d2
  = ofZ (Z.abs (normalizeDate tz d1 - normalizeDate tz d2) / Date.msPerDay).
Proof.
  unfold dateDifferenceDays, Date.getTime, ofZ.
  cbn [sub mul Math.abs].
  rewrite div_Num by (intros H; discriminate H).
  cbn [Math.floor]. unfold ofZ. do 2 f_equal.
  rewrite Zdiv_Qdiv. apply Qfloor_comp.
  rewrite Qabs_inject_Z_sub. reflexivity.
Qed.

Lemma dateDifferenceDays_whole d1 d2 :
  exists k, (0 <= k)%Z /\ dateDifferenceDays tz d1 d2 = ofZ k.
Proof.
  rewrite dateDifferenceDays_eq. eexists; split; [|reflexivity].
  apply Z.div_pos; [lia | reflexivity].
Qed.

Lemma dateDifferenceDays_same d : dateDifferenceDays tz d d = Num 0.
Proof. rewrite dateDifferenceDays_eq, Z.sub_diag. reflexivity. Qed.

(** The date score as a function of the whole day difference [k]. *)
Lemma dateScore_of_difference d1 d2 config k :
  dateDifferenceDays tz d1 d2 = ofZ k ->
  calculateDateScore tz d1 d2 config
  = if (k =? 0)%Z then DateResult.mk (Num 1) true (Num 0)
    else if Qle_bool (inject_Z k) (dateWindowDays config)
    then DateResult.mk
           (Math.max (Num 0) (sub (Num 1) (div (ofZ k) (Num (dateWindowDays config)))))
           true (ofZ k)
    else DateResult.mk (Num 0.1) false (ofZ k).
Proof.
  intros Hk. unfold calculateDateScore. rewrite Hk. unfold ofZ.
  destruct (k =? 0)%Z eqn:E0.
  - apply Z.eqb_eq in E0. subst k. reflexivity.
  - assert (Hne : strictEq (Num (inject_Z k)) (Num 0) = false).
    { apply strictEq_Num_false. intros H. apply Z.eqb_neq in E0. apply E0.
      unfold Qeq in H; simpl in H. lia. }
    rewrite Hne.
    destruct (Qle_bool (inject_Z k) (dateWindowDays config)) eqn:Ew.
    + apply Qle_bool_iff, leb_Num in Ew. now rewrite Ew.
    + assert (Hw : leb (Num (inject_Z k)) (Num (dateWindowDays config)) = false).
      { apply not_true_iff_false. rewrite leb_Num, <- Qle_bool_iff. congruence. }
      now rewrite Hw.
Qed.

End DateScore.

Section DateScenario.

Variable tz : TimeZone.

(** [normalizeDate] through the local day number [n] of the date. *)
Lemma normalizeDate_of_day t n :
  Date.Day (Date.LocalTime tz t) = n -> civilRoundTrip n = true ->
  normalizeDate tz t = Date.UTC tz (Date.MakeDate n 0).
Proof.
  intros Hday Hrt.
  unfold normalizeDate, Date.getFullYear, Date.getMonth, Date.getDate,
    Date.YearFromTime, Date.MonthFromTime, Date.DateFromTime.
  rewrite Hday. unfold civilRoundTrip in Hrt.
  destruct (Date.civilFromDays n) as [[y m] d]. cbn [fst snd].
  unfold Date.ofLocal. apply Z.eqb_eq in Hrt. now rewrite Hrt.
Qed.

Hypothesis bounded : boundedOffsets tz.

(** Midnight UTC of the day [m], normalised in the local zone, lies within
    two days of it. *)
Lemma normalizeDate_near m :
  civilRoundTrip (m - 1) = true -> civilRoundTrip m = true ->
  ((m - 2) * Date.msPerDay < normalizeDate tz (Date.MakeDate m 0)
   < (m + 1) * Date.msPerDay)%Z.
Proof.
  intros Hrt1 Hrt.
  set (t := Date.MakeDate m 0).
  pose proof (bounded t true) as Ho.
  assert (Hn : Date.Day (Date.LocalTime tz t) = (m - 1)%Z \/
               Date.Day (Date.LocalTime tz t) = m).
  { unfold Date.Day, Date.LocalTime, t, Date.MakeDate, Date.msPerDay in *.
    Z.to_euclidean_division_equations. lia. }
  destruct Hn as [Hn|Hn].
  - rewrite (normalizeDate_of_day t _ Hn Hrt1).
    pose proof (bounded (Date.MakeDate (m - 1) 0) false) as Ho2.
    unfold Date.UTC, Date.MakeDate, Date.msPerDay in *. lia.
  - rewrite (normalizeDate_of_day t _ Hn Hrt).
    pose proof (bounded (Date.MakeDate m 0) false) as Ho2.
    unfold Date.UTC, Date.MakeDate, Date.msPerDay in *. lia.
Qed.

(** 2024-01-15 against 2024-03-15: at least 57 whole days in any zone. *)
Lemma scenario_difference :
  exists k, (57 <= k)%Z /\
    dateDifferenceDays tz (Date.ofISODate 2024 1 15) (Date.ofISODate 2024 3 15)
    = ofZ k.
Proof.
  rewrite dateDifferenceDays_eq. eexists; split; [|reflexivity].
  change (Date.ofISODate 2024 1 15) with (Date.MakeDate 19737 0).
  change (Date.ofISODate 2024 3 15) with (Date.MakeDate 19797 0).
  pose proof (normalizeDate_near 19737 eq_refl eq_refl) as H1.
  pose proof (normalizeDate_near 19797 eq_refl eq_refl) as H2.
  unfold Date.msPerDay in *.
  Z.to_euclidean_division_equations. lia.
Qed.

End DateScenario.

(** C4.  The date score, by the whole day difference [k] of the two dates:
    [k = 0] gives [(1, true, 0)]; otherwise [k] above [dateWindowDays]
    gives the score [0.1] outside the window; otherwise the score is
    [max(0, 1 - k / dateWindowDays)] inside the window.  In every time zone
    whose offsets are of less than a day, 2024-01-15 against 2024-03-15
    with a window of 30 days is outside the window with score [0.1]. *)
Theorem calculateDateScore_cases (tz : TimeZone) :
  (forall d1 d2 config, exists k : Z,
     (0 <= k)%Z /\ dateDifferenceDays tz d1 d2 = ofZ k /\
     let result := calculateDateScore tz d1 d2 config in
     (k = 0%Z -> result = DateResult.mk (Num 1) true (Num 0)) /\
     (k <> 0%Z -> dateWindowDays config < inject_Z k ->
      result = DateResult.mk (Num 0.1) false (ofZ k)) /\
     (k <> 0%Z -> inject_Z k <= dateWindowDays config ->
      num_eq (DateResult.score result)
        (Num (Qmax 0 (1 - inject_Z k / dateWindowDays config))) /\
      DateResult.inWindow result = true /\
      DateResult.difference result = ofZ k)) /\
  (boundedOffsets tz ->
   forall config, dateWindowDays config == 30 ->
     let result :=
       calculateDateScore tz (Date.ofISODate 2024 1 15)
         (Date.ofISODate 2024 3 15) config in
     DateResult.inWindow result = false /\ DateResult.score result = Num 0.1).
Proof.
  split.
  - intros d1 d2 config.
    destruct (dateDifferenceDays_whole tz d1 d2) as (k & Hk0 & Hk).
    exists k. split; [assumption|]. split; [assumption|].
    cbv zeta. rewrite (dateScore_of_difference tz d1 d2 config k Hk).
    split; [|split].
    + intros ->. reflexivity.
    + intros Hne Hgt. apply Z.eqb_neq in Hne. rewrite Hne.
      destruct (Qle_bool (inject_Z k) (dateWindowDays config)) eqn:E; [|reflexivity].
      apply Qle_bool_iff in E. lra.
    + intros Hne Hle. apply Z.eqb_neq in Hne. rewrite Hne.
      apply Qle_bool_iff in Hle. rewrite Hle. cbn [DateResult.score
        DateResult.inWindow DateResult.difference].
      split; [|split; reflexivity].
      apply Qle_bool_iff in Hle. apply Z.eqb_neq in Hne.
      assert (Hk1 : 1 <= inject_Z k).
      { change (inject_Z 1 <= inject_Z k). rewrite <- Zle_Qle. lia. }
      unfold ofZ. rewrite div_Num by lra. cbn [sub].
      assert (Hq : inject_Z k / dateWindowDays config <= 1).
      { apply Qle_shift_div_r; lra. }
      set (x := 1 - inject_Z k / dateWindowDays config) in *.
      assert (Hx : 0 <= x) by (unfold x; lra).
      pose proof (Q.max_r 0 x Hx) as Hm.
      destruct (Qlt_le_dec 0 x) as [Hp|Hz].
      * rewrite max_Num_r by assumption. cbn [num_eq]. now rewrite Hm.
      * rewrite max_Num_l by assumption. cbn [num_eq]. rewrite Hm. lra.
  - intros Hb config Hw. cbv zeta.
    destruct (scenario_difference tz Hb) as (k & Hk57 & Hk).
    rewrite (dateScore_of_difference tz _ _ config k Hk).
    assert (Hne : (k =? 0)%Z = false) by (apply Z.eqb_neq; lia).
    rewrite Hne.
    assert (Hq : 57 <= inject_Z k).
    { change (inject_Z 57 <= inject_Z k). rewrite <- Zle_Qle. lia. }
    destruct (Qle_bool (inject_Z k) (dateWindowDays config)) eqn:E.
    + apply Qle_bool_iff in E. lra.
    + split; reflexivity.
Qed.

Lemma calculateDateScore_cases_witness :
  boundedOffsets Date.utc /\
  DateResult.score
    (calculateDateScore Date.utc (Date.ofISODate 2024 1 15)
       (Date.ofISODate 2024 3 15) DEFAULT_MATCHING_CONFIG) = Num 0.1.
Proof.
  assert (Hb : boundedOffsets Date.utc) by (intros t b; reflexivity).
  split; [exact Hb|].
  refine (proj2 (proj2 (calculateDateScore_cases Date.utc) Hb
                   DEFAULT_MATCHING_CONFIG _)).
  reflexivity.
Defined.

(* ================================================================== *)
(** * The range of the scores                                          *)
(* ================================================================== *)

Section Ranges.

Lemma inject_nat_nonneg n : 0 <= inject_Z (Z.of_nat n).
Proof. change (inject_Z 0 <= inject_Z (Z.of_nat n)). rewrite <- Zle_Qle. lia. Qed.

Lemma inject_nat_pos n : (n =? 0)%nat = false -> 0 < inject_Z (Z.of_nat n).
Proof.
  intros H. apply Nat.eqb_neq in H.
  change (inject_Z 0 < inject_Z (Z.of_nat n)). rewrite <- Zlt_Qlt. lia.
Qed.

Lemma inject_nat_le n m : (n <= m)%nat -> inject_Z (Z.of_nat n) <= inject_Z (Z.of_nat m).
Proof. intros H. rewrite <- Zle_Qle. lia. Qed.

Lemma ratio_nonneg a n :
  0 <= a -> (n =? 0)%nat = false -> 0 <= a / inject_Z (Z.of_nat n).
Proof.
  intros Ha Hn. apply Qle_shift_div_l; [now apply inject_nat_pos | lra].
Qed.

Lemma max_min_Num lo hi x :
  lo <= hi ->
  exists z, Math.max (Num lo) (Math.min (Num hi) (Num x)) = Num z /\ lo <= z <= hi.
Proof.
  intros Hlh.
  destruct (Qlt_le_dec x hi) as [H1|H1].
  - rewrite (min_Num_r hi x H1).
    destruct (Qlt_le_dec lo x) as [H0|H0].
    + rewrite (max_Num_r lo x H0). exists x. split; [reflexivity | lra].
    + rewrite (max_Num_l lo x H0). exists lo. split; [reflexivity | lra].
  - rewrite (min_Num_l hi x H1).
    destruct (Qlt_le_dec lo hi) as [H0|H0].
    + rewrite (max_Num_r lo hi H0). exists hi. split; [reflexivity | lra].
    + rewrite (max_Num_l lo hi H0). exists lo. split; [reflexivity | lra].
Qed.

Lemma max_inUnit x s :
  inUnit x -> s <= 1 -> inUnit (Math.max x (Num s)).
Proof.
  intros (q & -> & Hu) Hs.
  destruct (Qlt_le_dec q s) as [H|H].
  - rewrite (max_Num_r q s H). exists s. split; [reflexivity | lra].
  - rewrite (max_Num_l q s H). exists q. split; [reflexivity | lra].
Qed.

(** *** String similarity *)

Lemma levenshteinSimilarity_le_1 str1 str2 :
  exists q, levenshteinSimilarity str1 str2 = Num q /\ q <= 1.
Proof.
  unfold levenshteinSimilarity.
  destruct (Nat.max (strlen str1) (strlen str2) =? 0)%nat eqn:E.
  - exists 1. split; [reflexivity | lra].
  - unfold ofNat, ofZ.
    pose proof (inject_nat_pos _ E) as Hpos.
    rewrite div_Num by lra. cbn [sub]. eexists; split; [reflexivity|].
    pose proof (ratio_nonneg _ _ (inject_nat_nonneg (levenshteinDistance str1 str2)) E).
    lra.
Qed.

Lemma fuzzyScore_inUnit pattern target : inUnit (fuzzyScore pattern target).
Proof.
  unfold fuzzyScore.
  destruct (strlen (trim (toLowerCase pattern)) =? 0)%nat eqn:Ep.
  { exists 1. split; [reflexivity | lra]. }
  destruct (strlen (trim (toLowerCase target)) =? 0)%nat eqn:Et.
  { exists 0. split; [reflexivity | lra]. }
  destruct (fuzzyLoop _ _ _ _) as [[rest targetIndex] matched].
  destruct rest.
  - unfold ofNat, ofZ.
    pose proof (inject_nat_pos _ Ep). pose proof (inject_nat_pos _ Et).
    rewrite !div_Num by (try lra; intros H1; discriminate H1).
    cbn [sub add]. rewrite div_Num by (intros H1; discriminate H1).
    destruct (max_min_Num 0.5 1
                ((inject_Z (Z.of_nat matched)
                  / inject_Z (Z.of_nat (strlen (trim (toLowerCase pattern))))
                  + (1 - inject_Z (Z.of_nat targetIndex)
                         / inject_Z (Z.of_nat (strlen (trim (toLowerCase target))))
                         / 2)) / 2)) as (z & -> & Hz); [lra|].
    exists z. split; [reflexivity | lra].
  - exists 0. split; [reflexivity | lra].
Qed.

Lemma bestMatchLoop_inUnit ref1 refs2 : forall bestMatch,
  inUnit bestMatch -> inUnit (bestMatchLoop ref1 refs2 bestMatch).
Proof.
  induction refs2 as [|ref2 refs2 IH]; intros bestMatch Hb; cbn [bestMatchLoop].
  - assumption.
  - destruct (String.eqb ref1 ref2).
    + exists 1. split; [reflexivity | lra].
    + apply IH.
      destruct (levenshteinSimilarity_le_1 ref1 ref2) as (s & -> & Hs).
      destruct (fuzzyScore_inUnit ref1 ref2) as (f & -> & Hf).
      destruct Hb as (b & -> & Hb).
      apply max_inUnit; [|lra].
      apply max_inUnit; [|assumption].
      exists b. now split.
Qed.

Lemma compareLoop_bounds refs2 : forall refs1 total n,
  0 <= total <= inject_Z (Z.of_nat n) ->
  exists total' n',
    fold_left
      (fun '(totalScore, comparisons) ref1 =>
         (add totalScore (bestMatchLoop ref1 refs2 (Num 0)), S comparisons))
      refs1 (Num total, n) = (Num total', n') /\
    n' = (n + List.length refs1)%nat /\
    0 <= total' <= inject_Z (Z.of_nat n').
Proof.
  induction refs1 as [|ref1 refs1 IH]; intros total n Ht; cbn [fold_left].
  - exists total, n. split; [reflexivity|]. split; [simpl; lia | assumption].
  - destruct (bestMatchLoop_inUnit ref1 refs2 (Num 0)) as (b & Hb & Hu).
    { exists 0. split; [reflexivity | lra]. }
    rewrite Hb. cbn [add].
    destruct (IH (total + b) (S n)) as (total' & n' & Hf & Hn & Ht').
    { rewrite Nat2Z.inj_succ. unfold Z.succ. rewrite inject_Z_plus.
      change (inject_Z 1) with 1. lra. }
    exists total', n'. split; [exact Hf|]. split; [simpl; lia | assumption].
Qed.

Lemma compareReferenceSets_inUnit refs1 refs2 :
  inUnit (compareReferenceSets refs1 refs2).
Proof.
  unfold compareReferenceSets.
  destruct ((List.length refs1 =? 0)%nat && (List.length refs2 =? 0)%nat).
  { exists 1. split; [reflexivity | lra]. }
  destruct ((List.length refs1 =? 0)%nat || (List.length refs2 =? 0)%nat).
  { exists 0. split; [reflexivity | lra]. }
  unfold compareLoop.
  destruct (compareLoop_bounds refs2 refs1 0 0%nat) as (total & n & -> & _ & Ht).
  { split; [apply Qle_refl | apply inject_nat_nonneg]. }
  destruct (0 <? n)%nat eqn:En.
  - assert (En' : (n =? 0)%nat = false).
    { apply Nat.eqb_neq. apply Nat.ltb_lt in En. lia. }
    pose proof (inject_nat_pos n En') as Hpos.
    unfold ofNat, ofZ. rewrite div_Num by lra.
    eexists; split; [reflexivity|]. split.
    + apply Qle_shift_div_l; lra.
    + apply Qle_shift_div_r; lra.
  - exists 0. split; [reflexivity | lra].
Qed.

Lemma calculateReferenceScore_inUnit invoice transaction config :
  inUnit (calculateReferenceScore invoice transaction config).
Proof.
  unfold calculateReferenceScore.
  match goal with |- context [if ?b then _ else _] => destruct b end.
  - exists 0.3. split; [reflexivity | lra].
  - destruct (levenshteinSimilarity_le_1 (Invoice.customerName invoice)
                (Transaction.description transaction)) as (l & -> & Hl).
    cbn [mul].
    match goal with |- context [compareReferenceSets ?a ?b] =>
      destruct (compareReferenceSets_inUnit a b) as (s & -> & Hs) end.
    apply max_inUnit; [|lra]. exists s. now split.
Qed.

(** *** The amount score *)

Lemma calculateAmountScore_inUnit config (invoiceAmount transactionAmount : Q) :
  0 < invoiceAmount ->
  inUnit (AmountResult.score
            (calculateAmountScore (Num invoiceAmount) (Num transactionAmount) config)).
Proof.
  intros Hpos.
  destruct (Qeq_dec invoiceAmount transactionAmount) as [Heq|Hne].
  { rewrite (amount_equal config _ _ Heq). exists 1. split; [reflexivity | lra]. }
  destruct (exactAmountMatch config) eqn:Hex.
  { rewrite (amount_exact config _ _ Hne Hex). exists 0. split; [reflexivity | lra]. }
  pose proof (percentDiff_nonneg _ _ Hne Hpos) as Hpd.
  destruct (Qlt_le_dec (tolerance config invoiceAmount)
              (Qabs (invoiceAmount - transactionAmount))) as [H|H].
  - destruct (amount_outside config _ _ Hne Hex Hpos H) as (s & -> & Hs).
    exists s. split; [reflexivity|]. rewrite Hs.
    rewrite Qdiv_pos_const.
    split; [apply Q.le_max_l|]. apply Q.max_lub; lra.
  - rewrite (amount_within config _ _ Hne Hex Hpos H).
    eexists; split; [reflexivity|].
    pose proof (percentDiff_within config _ _ Hne Hpos H) as Hp.
    pose proof (tolerance_pos config _ _ Hne Hpos H) as Ht.
    assert (0 <= percentDiff invoiceAmount transactionAmount
                 / (amountTolerance config * 100)).
    { apply Qle_shift_div_l; lra. }
    rewrite Qdiv_pos_const in Hp. cbn [AmountResult.score]. lra.
Qed.

(** *** The date score *)

Lemma calculateDateScore_inUnit tz d1 d2 config :
  inUnit (DateResult.score (calculateDateScore tz d1 d2 config)).
Proof.
  destruct (dateDifferenceDays_whole tz d1 d2) as (k & Hk0 & Hk).
  rewrite (dateScore_of_difference tz d1 d2 config k Hk).
  destruct (k =? 0)%Z eqn:E0.
  { exists 1. split; [reflexivity | lra]. }
  destruct (Qle_bool (inject_Z k) (dateWindowDays config)) eqn:Ew.
  - apply Qle_bool_iff in Ew. apply Z.eqb_neq in E0.
    assert (Hk1 : 1 <= inject_Z k).
    { change (inject_Z 1 <= inject_Z k). rewrite <- Zle_Qle. lia. }
    unfold ofZ. rewrite div_Num by lra. cbn [sub DateResult.score].
    assert (Hq : inject_Z k / dateWindowDays config <= 1).
    { apply Qle_shift_div_r; lra. }
    assert (Hq0 : 0 <= inject_Z k / dateWindowDays config).
    { apply Qle_shift_div_l; lra. }
    apply max_inUnit; [|lra]. exists 0. split; [reflexivity | lra].
  - exists 0.1. split; [reflexivity | lra].
Qed.

End Ranges.



(* ================================================================== *)
(** * The candidate generator                                          *)
(* ================================================================== *)

Section Sorting.

Context {A : Type}.

Lemma insertBy_perm (cmp : A -> A -> number) x l :
  Permutation (insertBy cmp x l) (x :: l).
Proof.
  induction l as [|y l IH]; cbn [insertBy].
  - reflexivity.
  - destruct (gtb (cmp x y) (Num 0)).
    + rewrite IH. apply perm_swap.
    + reflexivity.
Qed.

Lemma sort_perm (cmp : A -> A -> number) l : Permutation (sort cmp l) l.
Proof.
  induction l as [|x l IH]; cbn [sort fold_right].
  - reflexivity.
  - fold (sort cmp l). rewrite insertBy_perm. now apply perm_skip.
Qed.

Lemma sort_singleton (cmp : A -> A -> number) x : sort cmp [x] = [x].
Proof. reflexivity. Qed.

Lemma flat_map_pointwise_perm {B : Type} (f g : B -> list A) l :
  (forall x, Permutation (f x) (g x)) ->
  Permutation (flat_map f l) (flat_map g l).
Proof.
  intros H. induction l as [|x l IH]; cbn [flat_map].
  - reflexivity.
  - now apply Permutation_app.
Qed.

Lemma filter_map_commute {B : Type} (f : B -> A) (p : A -> bool) l :
  List.filter p (map f l) = map f (List.filter (fun x => p (f x)) l).
Proof.
  induction l as [|x l IH]; cbn [map List.filter].
  - reflexivity.
  - destruct (p (f x)); cbn [map]; now rewrite IH.
Qed.

End Sorting.

Section Candidates.

Variable tz : TimeZone.
Variable config : MatchingConfig.

Lemma byConfidenceDesc_after a b qa qb :
  confidenceScore a = Num qa -> confidenceScore b = Num qb ->
  gtb (byConfidenceDesc a b) (Num 0) = true <-> qa < qb.
Proof.
  intros Ha Hb. unfold byConfidenceDesc. rewrite Ha, Hb. cbn [sub].
  rewrite gtb_Num. split; intros; lra.
Qed.

Lemma insertBy_descending x l :
  finiteConfidence x -> Forall finiteConfidence l ->
  descending l -> descending (insertBy byConfidenceDesc x l).
Proof.
  intros [qx Hx] Hfin Hsorted.
  induction Hsorted as [|y l Hl IH Hy]; cbn [insertBy].
  - repeat constructor.
  - inversion Hfin as [|? ? [qy Hqy] Hfin']; subst.
    destruct (gtb (byConfidenceDesc x y) (Num 0)) eqn:E.
    + apply (byConfidenceDesc_after x y qx qy Hx Hqy) in E.
      constructor; [now apply IH|].
      apply (Permutation_Forall (Permutation_sym (insertBy_perm _ x l))).
      constructor; [|assumption].
      rewrite Hx, Hqy. apply geb_Num. lra.
    + assert (Hge : qy <= qx).
      { destruct (Qlt_le_dec qx qy) as [Hlt|]; [|assumption].
        apply (byConfidenceDesc_after x y qx qy Hx Hqy) in Hlt. congruence. }
      constructor; [now constructor|].
      constructor; [rewrite Hx, Hqy; now apply geb_Num|].
      rewrite Forall_forall in Hy, Hfin' |- *. intros z Hz.
      destruct (Hfin' z Hz) as [qz Hqz]. specialize (Hy z Hz).
      rewrite Hqy, Hqz in Hy. apply geb_Num in Hy.
      rewrite Hx, Hqz. apply geb_Num. lra.
Qed.

Lemma sort_descending l :
  Forall finiteConfidence l -> descending (sort byConfidenceDesc l).
Proof.
  induction l as [|x l IH]; intros Hfin; cbn [sort fold_right].
  - constructor.
  - inversion Hfin; subst. fold (sort byConfidenceDesc l).
    apply insertBy_descending; auto.
    now apply (Permutation_Forall (Permutation_sym (sort_perm _ l))).
Qed.

(** What [candidateFor] pushes. *)
Lemma candidateFor_eq invoice transaction :
  candidateFor tz invoice transaction config
  = if meetsThreshold tz config (invoice, transaction)
    then Some (candidateOf tz config (invoice, transaction)) else None.
Proof. reflexivity. Qed.

Lemma meetsThreshold_finite pair :
  meetsThreshold tz config pair = true ->
  finiteConfidence (candidateOf tz config pair).
Proof.
  destruct pair as [invoice transaction]. unfold meetsThreshold, finiteConfidence.
  cbn [fst snd candidateOf confidenceScore]. unfold confidenceOf.
  match goal with |- context [calculateConfidenceScore ?a ?d ?r config] =>
    destruct (confidence_range config a d r) as [-> | (q & -> & _)] end.
  - discriminate.
  - eauto.
Qed.

(** The loop of [findCandidatesForInvoice]. *)
Lemma candidates_loop invoice transactions : forall acc,
  fold_left
    (fun candidates transaction =>
       match candidateFor tz invoice transaction config with
       | Some c => candidates ++ [c]
       | None => candidates
       end)
    transactions acc
  = acc ++ map (candidateOf tz config)
             (List.filter (meetsThreshold tz config)
                (map (pair invoice) transactions)).
Proof.
  induction transactions as [|t ts IH]; intros acc; cbn [fold_left map List.filter].
  - now rewrite app_nil_r.
  - rewrite IH, candidateFor_eq.
    destruct (meetsThreshold tz config (invoice, t)); cbn [map].
    + now rewrite <- app_assoc.
    + reflexivity.
Qed.

Lemma findCandidatesForInvoice_perm invoice transactions :
  Permutation (findCandidatesForInvoice tz invoice transactions config)
    (map (candidateOf tz config)
       (List.filter (meetsThreshold tz config) (map (pair invoice) transactions))).
Proof.
  unfold findCandidatesForInvoice. rewrite candidates_loop, sort_perm.
  reflexivity.
Qed.

(** The loop of [findMatches]. *)
Lemma matches_loop invoices transactions : forall acc,
  fold_left
    (fun allCandidates invoice =>
       allCandidates ++ findCandidatesForInvoice tz invoice transactions config)
    invoices acc
  = acc ++ flat_map
             (fun invoice => findCandidatesForInvoice tz invoice transactions config)
             invoices.
Proof.
  induction invoices as [|i invs IH]; intros acc; cbn [fold_left flat_map].
  - now rewrite app_nil_r.
  - now rewrite IH, app_assoc.
Qed.

Lemma qualifying_flat_map invoices transactions :
  flat_map
    (fun invoice =>
       map (candidateOf tz config)
         (List.filter (meetsThreshold tz config) (map (pair invoice) transactions)))
    invoices
  = map (candidateOf tz config) (qualifyingPairs tz config invoices transactions).
Proof.
  unfold qualifyingPairs.
  induction invoices as [|i invs IH]; cbn [flat_map list_prod].
  - reflexivity.
  - now rewrite IH, List.filter_app, map_app.
Qed.

Lemma allCandidates_perm invoices transactions :
  Permutation
    (flat_map
       (fun invoice => findCandidatesForInvoice tz invoice transactions config)
       invoices)
    (map (candidateOf tz config) (qualifyingPairs tz config invoices transactions)).
Proof.
  rewrite <- qualifying_flat_map.
  apply flat_map_pointwise_perm. intros i. apply findCandidatesForInvoice_perm.
Qed.

Lemma qualifying_finite invoices transactions :
  Forall finiteConfidence
    (map (candidateOf tz config) (qualifyingPairs tz config invoices transactions)).
Proof.
  apply List.Forall_forall. intros c Hc.
  apply in_map_iff in Hc as (pair & <- & Hp).
  apply filter_In in Hp as [_ Hp]. now apply meetsThreshold_finite.
Qed.

End Candidates.

(** C3.  [findMatches] returns, up to the order, one candidate for each
    pair of the cross product whose confidence reaches
    [minConfidenceScore], and nothing else; the list is in descending
    order of confidence. *)
Theorem findMatches_complete_sorted (tz : TimeZone)
    (invoices : list Invoice.t) (transactions : list Transaction.t)
    (partial : Partial.t) :
  let config := spread DEFAULT_MATCHING_CONFIG partial in
  let result := findMatches tz invoices transactions partial in
  Permutation result
    (map (candidateOf tz config) (qualifyingPairs tz config invoices transactions)) /\
  (forall c, In c result <->
     exists invoice transaction,
       In invoice invoices /\ In transaction transactions /\
       c = candidateOf tz config (invoice, transaction) /\
       geb (confidenceScore c) (Num (minConfidenceScore config)) = true) /\
  descending result.
Proof.
  cbv zeta. set (config := spread DEFAULT_MATCHING_CONFIG partial).
  assert (Hperm : Permutation (findMatches tz invoices transactions partial)
            (map (candidateOf tz config)
               (qualifyingPairs tz config invoices transactions))).
  { unfold findMatches. fold config.
    rewrite matches_loop, sort_perm. cbn [app]. apply allCandidates_perm. }
  split; [exact Hperm|]. split.
  - intros c. split.
    + intros Hc. apply (Permutation_in _ Hperm) in Hc.
      apply in_map_iff in Hc as ([i t] & <- & Hp).
      apply filter_In in Hp as [Hp Hm]. apply in_prod_iff in Hp as [Hi Ht].
      exists i, t. repeat split; assumption.
    + intros (i & t & Hi & Ht & -> & Hm).
      apply (Permutation_in _ (Permutation_sym Hperm)).
      apply in_map_iff. exists (i, t). split; [reflexivity|].
      apply filter_In. split; [now apply in_prod_iff | exact Hm].
  - unfold findMatches. fold config. rewrite matches_loop. cbn [app].
    apply sort_descending.
    apply (Permutation_Forall (Permutation_sym (allCandidates_perm tz config _ _))).
    apply qualifying_finite.
Qed.

(** C9.  Scenario A under the default configuration, in any time zone:
    exactly one candidate, with a confidence above 0.8, the amounts
    matching and the date inside the window. *)
Theorem scenario_exact_match (tz : TimeZone)
    (invoiceId customerId transactionId : string) (dueDate : option Z)
    (invoiceStatus : option InvoiceStatus) (reference : option string)
    (source : Source) (transactionStatus : option TransactionStatus) :
  exists c,
    findMatches tz
      [scenarioInvoice invoiceId customerId dueDate invoiceStatus]
      [scenarioTransaction transactionId reference source transactionStatus]
      Partial.empty = [c] /\
    gtb (confidenceScore c) (Num 0.8) = true /\
    amountMatch (breakdown c) = true /\
    dateInWindow (breakdown c) = true.
Proof.
  set (invoice := scenarioInvoice invoiceId customerId dueDate invoiceStatus).
  set (transaction :=
         scenarioTransaction transactionId reference source transactionStatus).
  set (config := spread DEFAULT_MATCHING_CONFIG Partial.empty).
  assert (Hdate :
    calculateDateScore tz (Invoice.date invoice) (Transaction.date transaction)
      config = DateResult.mk (Num 1) true (Num 0)).
  { rewrite (dateScore_of_difference tz _ _ config 0
               (dateDifferenceDays_same tz _)). reflexivity. }
  assert (Href : calculateReferenceScore invoice transaction config = Num (2 # 2))
    by (vm_compute; reflexivity).
  assert (Hamount :
    calculateAmountScore (Num (Invoice.amount invoice))
      (Num (Transaction.amount transaction)) config
    = AmountResult.mk (Num 1) true (Num 0)) by (vm_compute; reflexivity).
  assert (Hc : candidateFor tz invoice transaction config
               = Some (candidateOf tz config (invoice, transaction))).
  { rewrite candidateFor_eq. unfold meetsThreshold, confidenceOf. cbn [fst snd].
    rewrite Hdate, Href, Hamount. reflexivity. }
  exists (candidateOf tz config (invoice, transaction)).
  split; [|split; [|split]].
  - unfold findMatches. fold config. cbn [fold_left app].
    unfold findCandidatesForInvoice. cbn [fold_left]. fold invoice transaction.
    rewrite Hc. reflexivity.
  - cbn [candidateOf confidenceScore]. unfold confidenceOf.
    rewrite Hdate, Href, Hamount. reflexivity.
  - cbn [candidateOf breakdown amountMatch]. now rewrite Hamount.
  - cbn [candidateOf breakdown dateInWindow]. now rewrite Hdate.
Qed.

(* ================================================================== *)
(** * Result analytics                                                 *)
(* ================================================================== *)

(** C5 (the code departs from it).  With the upper bound [0] the filter
    applies no upper bound at all: a candidate of confidence 0.5 passes the
    range from 0 to 0, which contains no such candidate. *)
Theorem filterByConfidence_zero_bound :
  let c := candidate "INV-001" "TXN-001" 0.5 in
  filterByConfidence [c] (Num 0) (Some (Num 0)) = [c] /\
  filterByRange [c] (Num 0) (Some (Num 0)) = [].
Proof. split; reflexivity. Qed.

(** Where the upper bound is absent or truthy, the filter is the inclusive
    range. *)
Lemma filterByConfidence_range candidates min max :
  match max with Some m => truthy m = true | None => True end ->
  filterByConfidence candidates min max = filterByRange candidates min max.
Proof.
  intros H. unfold filterByConfidence, filterByRange.
  destruct max as [m|]; [rewrite H|]; reflexivity.
Qed.

Section Grouping.

Variable key : MatchCandidate -> string.

Lemma groupStep_lookup (g : gmap string (list MatchCandidate)) c k :
  groupStep key g c !! k
  = if String.eqb (key c) k then Some (default [] (g !! k) ++ [c]) else g !! k.
Proof.
  unfold groupStep.
  destruct (String.eqb_spec (key c) k) as [->|Hne].
  - rewrite lookup_insert_eq. f_equal. f_equal.
    rewrite lookup_total_alt.
    destruct (g !! k) eqn:E.
    + now rewrite E.
    + now rewrite lookup_insert_eq.
  - rewrite lookup_insert_ne by assumption.
    destruct (g !! key c); [reflexivity|].
    now rewrite lookup_insert_ne.
Qed.

Lemma groupLoop_lookup candidates : forall (g : gmap string (list MatchCandidate)) k,
  default [] (fold_left (groupStep key) candidates g !! k)
  = default [] (g !! k)
    ++ List.filter (fun c => String.eqb (key c) k) candidates.
Proof.
  induction candidates as [|c cs IH]; intros g k; cbn [fold_left List.filter].
  - now rewrite app_nil_r.
  - rewrite IH, groupStep_lookup.
    destruct (String.eqb (key c) k); cbn [default from_option id].
    + now rewrite <- app_assoc.
    + reflexivity.
Qed.

(** The group of a key holds the candidates of the list with that key. *)
Lemma groupBy_size candidates k :
  List.length (groupBy key candidates !!! k) = groupSize key candidates k.
Proof.
  unfold groupBy, groupSize.
  rewrite lookup_total_alt, lookup_fmap.
  pose proof (groupLoop_lookup candidates ∅ k) as H.
  rewrite lookup_empty in H. cbn [default from_option id app] in H.
  destruct (fold_left (groupStep key) candidates ∅ !! k) as [l|] eqn:E;
    cbn [default from_option id fmap option_fmap option_map] in *.
  - rewrite <- H. apply Permutation_length, sort_perm.
  - now rewrite <- H.
Qed.

(** The key of every candidate of the list is a key of the map: the
    lookups of the two classifications never miss. *)
Lemma groupBy_lookup candidates c :
  In c candidates -> is_Some (groupBy key candidates !! key c).
Proof.
  intros Hc. unfold groupBy. rewrite lookup_fmap.
  pose proof (groupLoop_lookup candidates ∅ (key c)) as H.
  rewrite lookup_empty in H. cbn [default from_option id app] in H.
  destruct (fold_left (groupStep key) candidates ∅ !! key c) as [l|] eqn:E.
  - now eexists.
  - exfalso. cbn [default from_option id] in H.
    assert (Hin : In c (List.filter (fun c' => String.eqb (key c') (key c)) candidates)).
    { apply filter_In. split; [assumption | apply String.eqb_refl]. }
    rewrite <- H in Hin. exact Hin.
Qed.

Lemma groupSize_member candidates c :
  In c candidates -> (1 <= groupSize key candidates (key c))%nat.
Proof.
  intros Hc. unfold groupSize.
  assert (Hin : In c (List.filter (fun c' => String.eqb (key c') (key c)) candidates)).
  { apply filter_In. split; [assumption | apply String.eqb_refl]. }
  destruct (List.filter _ candidates); [contradiction | simpl; lia].
Qed.

End Grouping.

Section Classification.

Variable candidates : list MatchCandidate.

Lemma findOneToOneMatches_In c :
  In c (findOneToOneMatches candidates) <->
  In c candidates /\
  groupSize invoiceId candidates (invoiceId c) = 1%nat /\
  groupSize transactionId candidates (transactionId c) = 1%nat.
Proof.
  unfold findOneToOneMatches, groupByInvoice, groupByTransaction.
  rewrite filter_In, !groupBy_size, andb_true_iff, !Nat.eqb_eq. reflexivity.
Qed.

Lemma findAmbiguousMatches_In c :
  In c (findAmbiguousMatches candidates) <->
  In c candidates /\
  ((1 < groupSize invoiceId candidates (invoiceId c))%nat \/
   (1 < groupSize transactionId candidates (transactionId c))%nat).
Proof.
  unfold findAmbiguousMatches, groupByInvoice, groupByTransaction.
  rewrite filter_In, !groupBy_size, orb_true_iff, !Nat.ltb_lt. reflexivity.
Qed.

Lemma classes_exclusive c :
  In c (findOneToOneMatches candidates) ->
  In c (findAmbiguousMatches candidates) -> False.
Proof.
  rewrite findOneToOneMatches_In, findAmbiguousMatches_In.
  intros (_ & Hi & Ht) (_ & [H|H]); lia.
Qed.

End Classification.

(** C8.  No candidate is both a one-to-one match (its invoice group and
    its transaction group both of size 1) and an ambiguous match (one of
    the two groups of size above 1). *)
Theorem classification_disjoint (candidates : list MatchCandidate)
    (c : MatchCandidate) :
  In c (findOneToOneMatches candidates) ->
  ~ In c (findAmbiguousMatches candidates).
Proof. intros H1 H2. exact (classes_exclusive candidates c H1 H2). Qed.

Lemma classification_disjoint_witness :
  let a := candidate "INV-001" "TXN-001" 0.9 in
  let b := candidate "INV-002" "TXN-002" 0.7 in
  let c := candidate "INV-002" "TXN-003" 0.6 in
  In a (findOneToOneMatches [a; b; c]) /\
  ~ In a (findAmbiguousMatches [a; b; c]).
Proof.
  cbv zeta.
  assert (H : In (candidate "INV-001" "TXN-001" 0.9)
                (findOneToOneMatches
                   [candidate "INV-001" "TXN-001" 0.9;
                    candidate "INV-002" "TXN-002" 0.7;
                    candidate "INV-002" "TXN-003" 0.6]))
    by (vm_compute; left; reflexivity).
  split; [exact H|].
  exact (classification_disjoint _ _ H).
Defined.

(** C10.  Every candidate of the list is returned by exactly one of the
    two classifications. *)
Theorem classification_covers (candidates : list MatchCandidate)
    (c : MatchCandidate) :
  In c candidates ->
  (In c (findOneToOneMatches candidates) /\
   ~ In c (findAmbiguousMatches candidates)) \/
  (In c (findAmbiguousMatches candidates) /\
   ~ In c (findOneToOneMatches candidates)).
Proof.
  intros Hc.
  pose proof (groupSize_member invoiceId candidates c Hc) as Hi.
  pose proof (groupSize_member transactionId candidates c Hc) as Ht.
  destruct (Nat.eq_dec (groupSize invoiceId candidates (invoiceId c)) 1%nat) as [Ei|Ei];
  destruct (Nat.eq_dec (groupSize transactionId candidates (transactionId c)) 1%nat)
    as [Et|Et].
  1: { left. assert (H1 : In c (findOneToOneMatches candidates))
         by (apply findOneToOneMatches_In; auto).
       split; [exact H1 | intros H2; exact (classes_exclusive _ _ H1 H2)]. }
  all: right;
    assert (H2 : In c (findAmbiguousMatches candidates))
      by (apply findAmbiguousMatches_In; split; [assumption | lia]);
    split; [exact H2 | intros H1; exact (classes_exclusive _ _ H1 H2)].
Qed.

Lemma classification_covers_witness :
  let a := candidate "INV-001" "TXN-001" 0.9 in
  let b := candidate "INV-002" "TXN-002" 0.7 in
  let c := candidate "INV-002" "TXN-003" 0.6 in
  In b [a; b; c] /\
  In b (findAmbiguousMatches [a; b; c]) /\
  ~ In b (findOneToOneMatches [a; b; c]).
Proof.
  cbv zeta.
  assert (H : In (candidate "INV-002" "TXN-002" 0.7)
                [candidate "INV-001" "TXN-001" 0.9;
                 candidate "INV-002" "TXN-002" 0.7;
                 candidate "INV-002" "TXN-003" 0.6])
    by (right; left; reflexivity).
  split; [exact H|].
  destruct (classification_covers _ _ H) as [[H1 _]|H2]; [|exact H2].
  exfalso. vm_compute in H1. intuition discriminate.
Defined.

(* ================================================================== *)
(** * Laws of the string distance                                      *)
(* ================================================================== *)

Section EditDistance.

Lemma strlen_chars s : strlen s = List.length (chars s).
Proof.
  unfold strlen, chars. induction s as [|c s IH]; cbn; [reflexivity | now rewrite IH].
Qed.

Lemma chars_text l : chars (text l) = l.
Proof. apply list_ascii_of_string_of_list_ascii. Qed.

Lemma text_chars s : text (chars s) = s.
Proof. apply string_of_list_ascii_of_string. Qed.

Lemma editDistance_nil_l b : editDistance [] b = List.length b.
Proof. now destruct b. Qed.

Lemma editDistance_nil_r a : editDistance a [] = List.length a.
Proof. now destruct a. Qed.

Lemma editDistance_cons x a y b :
  editDistance (x :: a) (y :: b)
  = Nat.min (Nat.min (editDistance a (y :: b) + 1) (editDistance (x :: a) b + 1))
      (editDistance a b + (if Ascii.eqb x y then 0 else 1))%nat.
Proof. reflexivity. Qed.

Lemma editDistance_sym a : forall b, editDistance a b = editDistance b a.
Proof.
  induction a as [|x a IHa]; intros b.
  - now rewrite editDistance_nil_l, editDistance_nil_r.
  - induction b as [|y b IHb].
    + now rewrite editDistance_nil_l, editDistance_nil_r.
    + rewrite !editDistance_cons, IHb, (IHa (y :: b)), (IHa b), (Ascii.eqb_sym x y).
      f_equal. apply Nat.min_comm.
Qed.

Lemma editDistance_refl a : editDistance a a = 0%nat.
Proof.
  induction a as [|x a IH]; [reflexivity|].
  rewrite editDistance_cons, IH, Ascii.eqb_refl. lia.
Qed.

Lemma editDistance_upper a : forall b,
  (editDistance a b <= Nat.max (List.length a) (List.length b))%nat.
Proof.
  induction a as [|x a IHa]; intros b.
  - rewrite editDistance_nil_l. lia.
  - destruct b as [|y b].
    + rewrite editDistance_nil_r. lia.
    + rewrite editDistance_cons. specialize (IHa b). cbn [List.length].
      destruct (Ascii.eqb x y); lia.
Qed.

Lemma editDistance_lower a : forall b,
  (List.length a - List.length b <= editDistance a b /\
   List.length b - List.length a <= editDistance a b)%nat.
Proof.
  induction a as [|x a IHa]; intros b.
  - rewrite editDistance_nil_l. cbn [List.length]. lia.
  - induction b as [|y b IHb].
    + rewrite editDistance_nil_r. cbn [List.length]. lia.
    + rewrite editDistance_cons.
      pose proof (IHa (y :: b)) as H1. pose proof (IHa b) as H2.
      cbn [List.length] in *. lia.
Qed.

Lemma editDistance_zero a : forall b, editDistance a b = 0%nat -> a = b.
Proof.
  induction a as [|x a IHa]; intros b H.
  - rewrite editDistance_nil_l in H. now destruct b.
  - destruct b as [|y b]; [discriminate|].
    rewrite editDistance_cons in H.
    destruct (Ascii.eqb_spec x y) as [->|Hne].
    + f_equal. apply IHa. lia.
    + lia.
Qed.

(** *** The matrix computes the recurrence *)

Lemma distanceRow_head ra todo rb :
  exists tl, distanceRow ra todo rb = editDistance ra rb :: tl.
Proof. destruct todo; cbn [distanceRow]; eauto. Qed.

Lemma fillRow_distanceRow c2 rb todo : forall ra,
  distanceRow ra todo (c2 :: rb)
  = editDistance ra (c2 :: rb)
    :: fillRow c2 todo (distanceRow ra todo rb) (editDistance ra (c2 :: rb)).
Proof.
  induction todo as [|c1 todo IH]; intros ra; cbn [distanceRow fillRow].
  - reflexivity.
  - f_equal.
    destruct (distanceRow_head (c1 :: ra) todo rb) as [tl Htl].
    rewrite IH, Htl, editDistance_cons. reflexivity.
Qed.

Lemma distanceRow_nil todo : forall ra,
  distanceRow ra todo [] = seq (List.length ra) (List.length todo + 1)%nat.
Proof.
  induction todo as [|c todo IH]; intros ra; cbn [distanceRow List.length].
  - now rewrite editDistance_nil_r.
  - rewrite editDistance_nil_r, IH. reflexivity.
Qed.

Lemma distanceRow_last todo : forall ra rb,
  List.last (distanceRow ra todo rb) 0%nat = editDistance (rev todo ++ ra) rb.
Proof.
  induction todo as [|c todo IH]; intros ra rb; cbn [distanceRow].
  - reflexivity.
  - destruct (distanceRow_head (c :: ra) todo rb) as [tl Htl].
    specialize (IH (c :: ra) rb). rewrite Htl in *.
    cbn [rev]. rewrite <- app_assoc. exact IH.
Qed.

Lemma fillMatrix_distanceRow s1 s2 : forall rb,
  fillMatrix s1 s2 (distanceRow [] s1 rb) (List.length rb)
  = distanceRow [] s1 (rev s2 ++ rb).
Proof.
  induction s2 as [|c2 s2 IH]; intros rb; cbn [fillMatrix].
  - reflexivity.
  - pose proof (fillRow_distanceRow c2 rb s1 []) as H.
    rewrite editDistance_nil_l in H. cbn [List.length] in H.
    rewrite <- H. pose proof (IH (c2 :: rb)) as IH'.
    cbn [List.length] in IH'. rewrite IH'.
    cbn [rev]. now rewrite <- app_assoc.
Qed.

Lemma levenshteinDistance_editDistance str1 str2 :
  levenshteinDistance str1 str2
  = editDistance (rev (normalize str1)) (rev (normalize str2)).
Proof.
  unfold levenshteinDistance, normalize.
  set (s1 := trim (toLowerCase str1)). set (s2 := trim (toLowerCase str2)).
  rewrite !strlen_chars.
  destruct (List.length (chars s1) =? 0)%nat eqn:E1.
  { apply Nat.eqb_eq in E1. destruct (chars s1); [|discriminate].
    cbn [rev]. now rewrite editDistance_nil_l, length_rev. }
  destruct (List.length (chars s2) =? 0)%nat eqn:E2.
  { apply Nat.eqb_eq in E2. destruct (chars s2); [|discriminate].
    cbn [rev]. now rewrite editDistance_nil_r, length_rev. }
  pose proof (distanceRow_nil (chars s1) []) as Hrow.
  pose proof (fillMatrix_distanceRow (chars s1) (chars s2) []) as Hm.
  cbn [List.length] in Hrow, Hm. rewrite <- Hrow, Hm.
  rewrite distanceRow_last. now rewrite !app_nil_r.
Qed.

End EditDistance.

(** X1.  The distance matrix of [levenshteinDistance] computes the
    recurrence of the edit distance on the two normalised texts (lower-cased,
    then trimmed), taken from their ends. *)
Theorem levenshteinDistance_recurrence (str1 str2 : string) :
  levenshteinDistance str1 str2
  = editDistance (rev (normalize str1)) (rev (normalize str2)).
Proof. apply levenshteinDistance_editDistance. Qed.

(** X2.  The distance is symmetric. *)
Theorem levenshteinDistance_symmetric (str1 str2 : string) :
  levenshteinDistance str1 str2 = levenshteinDistance str2 str1.
Proof.
  rewrite !levenshteinDistance_editDistance. apply editDistance_sym.
Qed.

(** Distance zero means equal normalised texts. *)
Lemma levenshteinDistance_zero (str1 str2 : string) :
  levenshteinDistance str1 str2 = 0%nat <->
  trim (toLowerCase str1) = trim (toLowerCase str2).
Proof.
  rewrite !levenshteinDistance_editDistance. split.
  - intros H. apply editDistance_zero in H.
    assert (Hn : normalize str1 = normalize str2).
    { rewrite <- (rev_involutive (normalize str1)), H. apply rev_involutive. }
    unfold normalize in Hn.
    rewrite <- (text_chars (trim (toLowerCase str1))), Hn. apply text_chars.
  - intros H. unfold normalize. rewrite H. apply editDistance_refl.
Qed.

(** X3.  The distance is zero exactly when the two texts are equal once
    lower-cased and trimmed; so a text is at distance zero from itself. *)
Theorem levenshteinDistance_zero_iff (str1 str2 : string) :
  (levenshteinDistance str1 str2 = 0%nat <->
   trim (toLowerCase str1) = trim (toLowerCase str2)) /\
  levenshteinDistance str1 str1 = 0%nat.
Proof.
  split; [apply levenshteinDistance_zero|].
  rewrite levenshteinDistance_editDistance. apply editDistance_refl.
Qed.

(** X4.  The distance lies between the difference of the lengths of the
    two normalised texts and the greater of the two lengths. *)
Theorem levenshteinDistance_bounds (str1 str2 : string) :
  let n1 := strlen (trim (toLowerCase str1)) in
  let n2 := strlen (trim (toLowerCase str2)) in
  (n1 - n2 <= levenshteinDistance str1 str2)%nat /\
  (n2 - n1 <= levenshteinDistance str1 str2)%nat /\
  (levenshteinDistance str1 str2 <= Nat.max n1 n2)%nat.
Proof.
  cbv zeta. rewrite levenshteinDistance_editDistance, !strlen_chars.
  fold (normalize str1) (normalize str2).
  pose proof (editDistance_lower (rev (normalize str1)) (rev (normalize str2))) as [H1 H2].
  pose proof (editDistance_upper (rev (normalize str1)) (rev (normalize str2))) as H3.
  rewrite !length_rev in *. auto.
Qed.

Section Similarity.

Lemma length_dropSpaces l : (List.length (dropSpaces l) <= List.length l)%nat.
Proof.
  induction l as [|c l IH]; cbn [dropSpaces]; [lia|].
  destruct (isSpace c); cbn [List.length] in *; lia.
Qed.

(** Lower-casing keeps the length of a text and trimming does not grow
    it (the characters of the model are single bytes). *)
Lemma length_normalize s : (List.length (normalize s) <= strlen s)%nat.
Proof.
  unfold normalize, trim, toLowerCase.
  rewrite !chars_text, length_rev, strlen_chars.
  etransitivity; [apply length_dropSpaces|]. rewrite length_rev.
  etransitivity; [apply length_dropSpaces|]. now rewrite length_map.
Qed.

Lemma levenshteinDistance_le_maxLength str1 str2 :
  (levenshteinDistance str1 str2 <= Nat.max (strlen str1) (strlen str2))%nat.
Proof.
  rewrite levenshteinDistance_editDistance.
  pose proof (editDistance_upper (rev (normalize str1)) (rev (normalize str2))) as H.
  rewrite !length_rev in H.
  pose proof (length_normalize str1). pose proof (length_normalize str2). lia.
Qed.

End Similarity.

(** X5.  The similarity is a number of the unit interval; it is 1 for two
    texts that are equal once lower-cased and trimmed, and below 1
    otherwise. *)
Theorem levenshteinSimilarity_unit (str1 str2 : string) :
  exists q, levenshteinSimilarity str1 str2 = Num q /\ 0 <= q <= 1 /\
    (q == 1 <-> trim (toLowerCase str1) = trim (toLowerCase str2)).
Proof.
  unfold levenshteinSimilarity.
  pose proof (levenshteinDistance_le_maxLength str1 str2) as Hle.
  pose proof (levenshteinDistance_zero str1 str2) as Hz.
  destruct (Nat.max (strlen str1) (strlen str2) =? 0)%nat eqn:E.
  - exists 1. split; [reflexivity|]. split; [lra|].
    split; [intros _ | reflexivity].
    apply Hz. apply Nat.eqb_eq in E. lia.
  - unfold ofNat, ofZ. pose proof (inject_nat_pos _ E) as Hpos.
    rewrite div_Num by lra. cbn [sub]. eexists; split; [reflexivity|].
    set (d := inject_Z (Z.of_nat (levenshteinDistance str1 str2))).
    set (m := inject_Z (Z.of_nat (Nat.max (strlen str1) (strlen str2)))) in *.
    assert (Hd0 : 0 <= d) by apply inject_nat_nonneg.
    assert (Hdm : d <= m) by now apply inject_nat_le.
    assert (Hr0 : 0 <= d / m) by (apply Qle_shift_div_l; lra).
    assert (Hr1 : d / m <= 1) by (apply Qle_shift_div_r; lra).
    split; [lra|]. rewrite <- Hz. split.
    + intros H1. assert (Hdz : d / m == 0) by lra.
      assert (Hd : d == 0).
      { assert (Hm : d == d / m * m) by (field; lra). rewrite Hm, Hdz. ring. }
      unfold d, Qeq in Hd. cbn in Hd. lia.
    + intros Hd. unfold d. rewrite Hd. cbn [Z.of_nat]. field. lra.
Qed.

(* ================================================================== *)
(** * Laws of the fuzzy score and of the reference sets                *)
(* ================================================================== *)

Section Fuzzy.

(** The loop stops with the pattern used up exactly when the pattern is a
    subsequence of the target. *)
Lemma fuzzyLoop_sublist t : forall p targetIndex matched,
  fst (fst (fuzzyLoop p t targetIndex matched)) = [] <-> p `sublist_of` t.
Proof.
  induction t as [|ct t IH]; intros p ti m.
  - destruct p; cbn [fuzzyLoop fst]; now rewrite sublist_nil_r.
  - destruct p as [|cp p]; cbn [fuzzyLoop fst].
    { split; [intros _; apply sublist_nil_l | reflexivity]. }
    destruct (Ascii.eqb_spec cp ct) as [->|Hne].
    + rewrite IH, sublist_cons_r. split.
      * intros H. right. eauto.
      * intros [H|(l' & [= <-] & H)]; [|assumption].
        transitivity (ct :: p); [now apply sublist_cons | assumption].
    + rewrite IH, sublist_cons_r. split; [now left|].
      intros [H|(l' & [= -> _] & _)]; [assumption | contradiction].
Qed.

(** The counters of the loop. *)
Lemma fuzzyLoop_counters t : forall p targetIndex matched,
  let '(rest, targetIndex', matched') := fuzzyLoop p t targetIndex matched in
  (matched' + List.length rest = matched + List.length p)%nat /\
  (targetIndex' <= targetIndex + List.length t)%nat /\
  (targetIndex + (matched' - matched) <= targetIndex')%nat.
Proof.
  induction t as [|ct t IH]; intros p ti m.
  - destruct p; cbn [fuzzyLoop List.length]; lia.
  - destruct p as [|cp p]; cbn [fuzzyLoop].
    { cbn [List.length]. lia. }
    destruct (Ascii.eqb cp ct).
    + specialize (IH p (S ti) (S m)).
      destruct (fuzzyLoop p t (S ti) (S m)) as [[rest ti'] m'].
      cbn [List.length] in *. lia.
    + specialize (IH (cp :: p) (S ti) m).
      destruct (fuzzyLoop (cp :: p) t (S ti) m) as [[rest ti'] m'].
      cbn [List.length] in *. lia.
Qed.

End Fuzzy.

(** X6.  The fuzzy score is zero exactly when the normalised pattern is not
    a subsequence of the normalised target: some character of the pattern
    is missing from the target, in the order of the pattern. *)
Theorem fuzzyScore_zero_iff (pattern target : string) :
  fuzzyScore pattern target = Num 0 <->
  ~ normalize pattern `sublist_of` normalize target.
Proof.
  unfold fuzzyScore, normalize.
  set (p := trim (toLowerCase pattern)). set (t := trim (toLowerCase target)).
  rewrite !strlen_chars.
  destruct (List.length (chars p) =? 0)%nat eqn:Ep.
  { apply Nat.eqb_eq in Ep. destruct (chars p); [|discriminate].
    split; [discriminate|]. intros H. exfalso. apply H, sublist_nil_l. }
  destruct (List.length (chars t) =? 0)%nat eqn:Et.
  { apply Nat.eqb_eq in Et. destruct (chars t); [|discriminate].
    split; [|reflexivity]. intros _ H. apply sublist_nil_r in H.
    rewrite H in Ep. discriminate. }
  pose proof (fuzzyLoop_sublist (chars t) (chars p) 0%nat 0%nat) as Hs.
  destruct (fuzzyLoop (chars p) (chars t) 0 0) as [[rest ti] m]. cbn [fst] in Hs.
  destruct rest as [|c rest].
  - split; [|intros H; exfalso; apply H, Hs; reflexivity].
    intros H. exfalso.
    unfold ofNat, ofZ in H.
    pose proof (inject_nat_pos _ Ep) as Hpp. pose proof (inject_nat_pos _ Et) as Hpt.
    rewrite !div_Num in H by (try lra; intros Hd; discriminate Hd).
    cbn [sub add] in H. rewrite div_Num in H by (intros Hd; discriminate Hd).
    match type of H with Math.max _ (Math.min _ (Num ?x)) = _ =>
      destruct (max_min_Num 0.5 1 x) as (z & Hz & Hr); [lra|] end.
    rewrite Hz in H. injection H as ->. lra.
  - split; [|reflexivity]. intros _ H. apply Hs in H. discriminate.
Qed.

(** X7.  A non-empty pattern that is a subsequence of the target scores at
    least 0.75 and less than 1: all its characters count as matched, and
    the bounds 0.5 and 1 of the final clamp are never reached.  The empty
    pattern scores 1. *)
Theorem fuzzyScore_matched (pattern target : string) :
  normalize pattern `sublist_of` normalize target ->
  (normalize pattern = [] -> fuzzyScore pattern target = Num 1) /\
  (normalize pattern <> [] ->
   exists q, fuzzyScore pattern target = Num q /\ 0.75 <= q < 1).
Proof.
  intros Hsub. unfold fuzzyScore. fold (normalize pattern) (normalize target).
  rewrite !strlen_chars. fold (normalize pattern) (normalize target).
  split.
  - intros ->. reflexivity.
  - intros Hne.
    destruct (List.length (normalize pattern) =? 0)%nat eqn:Ep.
    { apply Nat.eqb_eq in Ep. destruct (normalize pattern); [contradiction|discriminate]. }
    destruct (List.length (normalize target) =? 0)%nat eqn:Et.
    { apply Nat.eqb_eq in Et. destruct (normalize target); [|discriminate].
      apply sublist_nil_r in Hsub. contradiction. }
    pose proof (fuzzyLoop_sublist (normalize target) (normalize pattern) 0%nat 0%nat) as Hs.
    pose proof (fuzzyLoop_counters (normalize target) (normalize pattern) 0%nat 0%nat) as Hc.
    destruct (fuzzyLoop (normalize pattern) (normalize target) 0 0) as [[rest ti] m].
    cbn [fst] in Hs. apply Hs in Hsub. subst rest.
    destruct Hc as (Hm & Hti & Hlo). cbn [List.length] in Hm.
    assert (Hmp : m = List.length (normalize pattern)) by lia. subst m.
    apply Nat.eqb_neq in Ep. apply Nat.eqb_neq in Et.
    set (np := List.length (normalize pattern)) in *.
    set (nt := List.length (normalize target)) in *.
    unfold ofNat, ofZ.
    assert (Hp : 0 < inject_Z (Z.of_nat np)).
    { apply inject_nat_pos. now apply Nat.eqb_neq. }
    assert (Ht : 0 < inject_Z (Z.of_nat nt)).
    { apply inject_nat_pos. now apply Nat.eqb_neq. }
    assert (Hi1 : 1 <= inject_Z (Z.of_nat ti)).
    { change (inject_Z 1 <= inject_Z (Z.of_nat ti)). rewrite <- Zle_Qle. lia. }
    assert (Hi2 : inject_Z (Z.of_nat ti) <= inject_Z (Z.of_nat nt)).
    { apply inject_nat_le. lia. }
    rewrite !div_Num by (try lra; intros Hd; discriminate Hd).
    cbn [sub add]. rewrite div_Num by (intros Hd; discriminate Hd).
    set (a := inject_Z (Z.of_nat np)) in *.
    set (b := inject_Z (Z.of_nat nt)) in *.
    set (i := inject_Z (Z.of_nat ti)) in *.
    assert (Ha : a / a == 1) by (field; lra).
    assert (Hb0 : 0 < i / b) by (apply Qlt_shift_div_l; lra).
    assert (Hb1 : i / b <= 1) by (apply Qle_shift_div_r; lra).
    assert (Hx : 0.75 <= (a / a + (1 - i / b / 2)) / 2 < 1).
    { rewrite Ha, !Qdiv_pos_const. lra. }
    rewrite min_Num_r by lra. rewrite max_Num_r by lra.
    eexists; split; [reflexivity | exact Hx].
Qed.

Lemma fuzzyScore_matched_witness :
  normalize "acme" `sublist_of` normalize "a3cxme corp" /\
  exists q, fuzzyScore "acme" "a3cxme corp" = Num q /\ 0.75 <= q < 1.
Proof.
  assert (H : normalize "acme" `sublist_of` normalize "a3cxme corp").
  { apply (fuzzyLoop_sublist (normalize "a3cxme corp") (normalize "acme") 0%nat 0%nat).
    reflexivity. }
  split; [exact H|].
  apply (proj2 (fuzzyScore_matched "acme" "a3cxme corp" H)). discriminate.
Defined.

Section Tokens.

Lemma mem_In x l : mem x l = true <-> In x l.
Proof.
  induction l as [|y l IH]; cbn [mem In]; [split; [discriminate | tauto]|].
  rewrite orb_true_iff, IH, String.eqb_eq. split; intros [H|H]; auto.
Qed.

Lemma distinct_loop l : forall seen,
  List.NoDup seen ->
  List.NoDup (fold_left (fun seen x => if mem x seen then seen else x :: seen) l seen) /\
  (forall x,
     In x (fold_left (fun seen x => if mem x seen then seen else x :: seen) l seen)
     <-> In x seen \/ In x l).
Proof.
  induction l as [|y l IH]; intros seen Hnd; cbn [fold_left].
  - split; [assumption|]. intros x. cbn [In]. tauto.
  - destruct (mem y seen) eqn:E.
    + destruct (IH seen Hnd) as [H1 H2]. split; [assumption|].
      intros x. rewrite H2. cbn [In]. apply mem_In in E.
      split; [tauto|]. intros [H|[<-|H]]; auto.
    + assert (Hnd' : List.NoDup (y :: seen)).
      { constructor; [|assumption]. intros Hin. apply mem_In in Hin. congruence. }
      destruct (IH (y :: seen) Hnd') as [H1 H2]. split; [assumption|].
      intros x. rewrite H2. cbn [In]. tauto.
Qed.

Lemma distinct_NoDup l : List.NoDup (distinct l).
Proof.
  unfold distinct. apply List.NoDup_rev, distinct_loop. apply List.NoDup_nil.
Qed.

Lemma distinct_In l x : In x (distinct l) <-> In x l.
Proof.
  unfold distinct. rewrite <- in_rev.
  rewrite (proj2 (distinct_loop l [] (List.NoDup_nil _)) x). cbn [In]. tauto.
Qed.

(** A match has at least the least length of its pattern. *)
Lemma greedy_min_length {R : Type} cls rest : forall lo hi prev acc
    (k : option ascii -> list ascii -> list ascii -> option R) res,
  RegExp.greedy cls lo hi prev rest acc k = Some res ->
  exists p s a, k p s a = Some res /\
    (List.length acc + lo <= List.length a)%nat.
Proof.
  induction rest as [|c rest IH]; intros lo hi prev acc k res H;
    cbn [RegExp.greedy] in H.
  - destruct lo; [|discriminate]. exists prev, [], acc. split; [assumption | lia].
  - assert (Hstop : match lo with O => k prev (c :: rest) acc | S _ => None end
                    = Some res ->
                    exists p s a, k p s a = Some res /\
                      (List.length acc + lo <= List.length a)%nat).
    { destruct lo; [|discriminate]. intros Hk.
      exists prev, (c :: rest), acc. split; [assumption | lia]. }
    destruct (cls c && RegExp.canTake hi); [|auto].
    destruct (RegExp.greedy cls (Nat.pred lo) (option_map Nat.pred hi) (Some c)
                rest (c :: acc) k) as [r|] eqn:E; [|auto].
    injection H as ->.
    destruct (IH _ _ _ _ _ _ E) as (p & s & a & Hk & Hl).
    exists p, s, a. split; [assumption|]. cbn [List.length] in Hl. lia.
Qed.

Lemma exec_min_length {R : Type} r : forall prev rest acc
    (k : option ascii -> list ascii -> list ascii -> option R) res,
  RegExp.exec r prev rest acc k = Some res ->
  exists p s a, k p s a = Some res /\
    (List.length acc + minLength r <= List.length a)%nat.
Proof.
  induction r as [|cls lo hi|r1 IH1 r2 IH2]; intros prev rest acc k res H;
    cbn [RegExp.exec minLength] in *.
  - destruct (RegExp.isBoundary prev rest); [|discriminate].
    exists prev, rest, acc. split; [assumption | lia].
  - now apply greedy_min_length in H.
  - apply IH1 in H as (p1 & s1 & a1 & H & Hl1).
    apply IH2 in H as (p & s & a & H & Hl).
    exists p, s, a. split; [assumption | lia].
Qed.

Lemma scan_min_length r : forall fuel prev rest,
  Forall (fun m => (minLength r <= List.length m)%nat) (RegExp.scan fuel r prev rest).
Proof.
  induction fuel as [|fuel IH]; intros prev rest; cbn [RegExp.scan]; [constructor|].
  destruct (RegExp.matchAt r prev rest) as [[[m p] s]|] eqn:E.
  - assert (Hm : (minLength r <= List.length m)%nat).
    { unfold RegExp.matchAt in E.
      apply exec_min_length in E as (p' & s' & a' & E & Hl).
      injection E as <- _ _. rewrite length_rev. cbn [List.length] in Hl. lia. }
    destruct m as [|c m].
    + destruct rest; repeat constructor; auto.
    + constructor; auto.
  - destruct rest; [constructor | apply IH].
Qed.

Lemma matchAll_min_length r s x :
  In x (RegExp.matchAll r s) -> (minLength r <= strlen x)%nat.
Proof.
  unfold RegExp.matchAll. intros H.
  apply in_map_iff in H as (m & <- & Hm).
  pose proof (scan_min_length r (S (List.length (chars s))) None (chars s)) as Hall.
  rewrite List.Forall_forall in Hall. specialize (Hall m Hm).
  now rewrite strlen_chars, chars_text.
Qed.

Lemma strlen_toUpperCase s : strlen (toUpperCase s) = strlen s.
Proof.
  unfold toUpperCase. now rewrite !strlen_chars, chars_text, length_map.
Qed.

End Tokens.

(** X8.  The tokens [extractReferences] returns are pairwise distinct, and
    each has at least two characters; the empty text has no token. *)
Theorem extractReferences_tokens (txt : string) :
  List.NoDup (extractReferences txt) /\
  (forall token, In token (extractReferences txt) -> (2 <= strlen token)%nat) /\
  extractReferences "" = [].
Proof.
  split; [|split; [|reflexivity]].
  - unfold extractReferences. destruct (strlen txt =? 0)%nat.
    + constructor.
    + apply distinct_NoDup.
  - intros token. unfold extractReferences.
    destruct (strlen txt =? 0)%nat; [contradiction|].
    rewrite distinct_In, !in_app_iff, in_map_iff, filter_In.
    intros [H|[(m & <- & H)|[_ H]]].
    + apply matchAll_min_length in H. cbn [minLength numberPattern] in H. lia.
    + apply matchAll_min_length in H. rewrite strlen_toUpperCase.
      cbn [minLength alphanumericPattern] in H. lia.
    + apply Nat.ltb_lt in H. lia.
Qed.

Section ReferenceSets.

Lemma bestMatchLoop_exact ref1 refs2 : forall bestMatch,
  In ref1 refs2 -> bestMatchLoop ref1 refs2 bestMatch = Num 1.
Proof.
  induction refs2 as [|ref2 refs2 IH]; intros bestMatch Hin; [contradiction|].
  cbn [bestMatchLoop].
  destruct (String.eqb_spec ref1 ref2) as [|Hne]; [reflexivity|].
  apply IH. destruct Hin as [Heq|Hin]; [congruence | assumption].
Qed.

Lemma compareLoop_exact refs2 : forall refs1 total n,
  (forall r, In r refs1 -> In r refs2) ->
  exists total',
    fold_left
      (fun '(totalScore, comparisons) ref1 =>
         (add totalScore (bestMatchLoop ref1 refs2 (Num 0)), S comparisons))
      refs1 (Num total, n) = (Num total', (n + List.length refs1)%nat) /\
    total' == total + inject_Z (Z.of_nat (List.length refs1)).
Proof.
  induction refs1 as [|ref1 refs1 IH]; intros total n Hsub; cbn [fold_left].
  - exists total. rewrite Nat.add_0_r. split; [reflexivity|]. cbn. ring.
  - rewrite (bestMatchLoop_exact ref1 refs2 (Num 0)) by (apply Hsub; now left).
    cbn [add].
    destruct (IH (total + 1) (S n)) as (total' & Hf & Ht).
    { intros r Hr. apply Hsub. now right. }
    exists total'. cbn [List.length]. rewrite Nat.add_succ_r. split; [exact Hf|].
    rewrite Ht, Nat2Z.inj_succ. unfold Z.succ. rewrite inject_Z_plus.
    change (inject_Z 1) with 1. ring.
Qed.

Lemma compareReferenceSets_subset refs1 refs2 :
  refs1 <> [] -> (forall r, In r refs1 -> In r refs2) ->
  exists q, compareReferenceSets refs1 refs2 = Num q /\ q == 1.
Proof.
  intros Hne Hsub. unfold compareReferenceSets.
  destruct refs1 as [|r1 refs1]; [contradiction|].
  destruct refs2 as [|r2 refs2]; [exfalso; apply (Hsub r1); now left|].
  cbn [List.length Nat.eqb andb orb]. unfold compareLoop.
  destruct (compareLoop_exact (r2 :: refs2) (r1 :: refs1) 0 0%nat Hsub)
    as (total & -> & Ht).
  cbn [Nat.add List.length Nat.ltb Nat.leb].
  unfold ofNat, ofZ.
  assert (Hpos : 0 < inject_Z (Z.of_nat (S (List.length refs1)))).
  { apply inject_nat_pos. reflexivity. }
  rewrite div_Num by lra. eexists; split; [reflexivity|].
  cbn [List.length] in Ht. rewrite Ht. field. lra.
Qed.

End ReferenceSets.

(** X9.  The comparison of two token lists is a number of the unit
    interval; it is 1 when the first list is not empty and each of its
    tokens occurs in the second, and so for every list against itself. *)
Theorem compareReferenceSets_laws (refs1 refs2 : list string) :
  inUnit (compareReferenceSets refs1 refs2) /\
  (refs1 <> [] -> (forall r, In r refs1 -> In r refs2) ->
   num_eq (compareReferenceSets refs1 refs2) (Num 1)) /\
  num_eq (compareReferenceSets refs1 refs1) (Num 1).
Proof.
  split; [apply compareReferenceSets_inUnit|]. split.
  - intros Hne Hsub.
    destruct (compareReferenceSets_subset refs1 refs2 Hne Hsub) as (q & -> & Hq).
    exact Hq.
  - destruct refs1 as [|r l]; [reflexivity|].
    destruct (compareReferenceSets_subset (r :: l) (r :: l)) as (q & -> & Hq);
      [discriminate | auto | exact Hq].
Qed.

Lemma compareReferenceSets_laws_witness :
  num_eq
    (compareReferenceSets ["test"; "company"]%string
       ["001"; "REF-001"; "test"; "company"; "ref"; "payment"]%string)
    (Num 1).
Proof.
  apply (proj1 (proj2 (compareReferenceSets_laws ["test"; "company"]%string
           ["001"; "REF-001"; "test"; "company"; "ref"; "payment"]%string))).
  - discriminate.
  - intros r [<-|[<-|[]]]; cbn; tauto.
Defined.

(** X10.  When the invoice has tokens and each of them occurs among the
    tokens of the transaction description, the reference score is 1. *)
Theorem calculateReferenceScore_all_tokens (invoice : Invoice.t)
    (transaction : Transaction.t) (config : MatchingConfig) :
  let invoiceRefs :=
    extractReferences
      (Invoice.customerName invoice ++ " " ++
       orEmpty (Invoice.referenceId invoice) ++ " " ++
       orEmpty (Invoice.description invoice))%string in
  let transactionRefs := extractReferences (Transaction.description transaction) in
  invoiceRefs <> [] ->
  (forall r, In r invoiceRefs -> In r transactionRefs) ->
  num_eq (calculateReferenceScore invoice transaction config) (Num 1).
Proof.
  cbv zeta. intros Hne Hsub. unfold calculateReferenceScore.
  destruct (compareReferenceSets_subset _ _ Hne Hsub) as (q & Hq & Hq1).
  rewrite Hq.
  match goal with |- context [if ?b then _ else _] => destruct b eqn:E end.
  - exfalso. apply orb_true_iff in E as [E|E]; apply Nat.eqb_eq in E.
    + apply Hne. now apply length_zero_iff_nil.
    + apply length_zero_iff_nil in E. rewrite E in Hsub.
      destruct (extractReferences _) as [|r l] eqn:Er in Hne; [contradiction|].
      rewrite Er in Hsub. apply (Hsub r). now left.
  - destruct (levenshteinSimilarity_le_1 (Invoice.customerName invoice)
                (Transaction.description transaction)) as (l & -> & Hl).
    cbn [mul]. rewrite max_Num_l by lra. exact Hq1.
Qed.

Lemma calculateReferenceScore_all_tokens_witness :
  num_eq
    (calculateReferenceScore (scenarioInvoice "INV-001" "CUST-001" None None)
       (scenarioTransaction "TXN-001" None Bank None) DEFAULT_MATCHING_CONFIG)
    (Num 1).
Proof.
  apply calculateReferenceScore_all_tokens.
  - vm_compute. discriminate.
  - vm_compute. tauto.
Defined.

(* ================================================================== *)
(** * More on the candidate generator                                  *)
(* ================================================================== *)

Section Generator.

Variable tz : TimeZone.

Lemma candidateOf_invoiceId config invoice transaction :
  invoiceId (candidateOf tz config (invoice, transaction)) = Invoice.id invoice.
Proof. reflexivity. Qed.

Lemma candidateOf_confidence_unit config pair :
  meetsThreshold tz config pair = true ->
  inUnit (confidenceScore (candidateOf tz config pair)).
Proof.
  destruct pair as [invoice transaction]. unfold meetsThreshold.
  cbn [fst snd candidateOf confidenceScore]. unfold confidenceOf.
  match goal with |- context [calculateConfidenceScore ?a ?d ?r config] =>
    destruct (confidence_range config a d r) as [-> | H] end.
  - discriminate.
  - intros _. exact H.
Qed.

(** The scores do not read the threshold. *)
Lemma spread_withThreshold partial threshold :
  spread DEFAULT_MATCHING_CONFIG (withThreshold partial threshold)
  = setThreshold (spread DEFAULT_MATCHING_CONFIG partial) threshold.
Proof. reflexivity. Qed.

Lemma calculateAmountScore_threshold a b config threshold :
  calculateAmountScore a b (setThreshold config threshold)
  = calculateAmountScore a b config.
Proof. unfold calculateAmountScore. destruct config. reflexivity. Qed.

Lemma calculateDateScore_threshold d1 d2 config threshold :
  calculateDateScore tz d1 d2 (setThreshold config threshold)
  = calculateDateScore tz d1 d2 config.
Proof. unfold calculateDateScore. destruct config. reflexivity. Qed.

Lemma calculateReferenceScore_threshold invoice transaction config config' :
  calculateReferenceScore invoice transaction config
  = calculateReferenceScore invoice transaction config'.
Proof. unfold calculateReferenceScore. reflexivity. Qed.

Lemma calculateConfidenceScore_threshold a d r config threshold :
  calculateConfidenceScore a d r (setThreshold config threshold)
  = calculateConfidenceScore a d r config.
Proof. unfold calculateConfidenceScore. destruct config. reflexivity. Qed.

Lemma candidateOf_threshold config threshold pair :
  candidateOf tz (setThreshold config threshold) pair
  = candidateOf tz config pair.
Proof.
  destruct pair as [invoice transaction]. unfold candidateOf, confidenceOf.
  rewrite !calculateAmountScore_threshold, !calculateDateScore_threshold,
    !calculateConfidenceScore_threshold,
    !(calculateReferenceScore_threshold invoice transaction
        (setThreshold config threshold) config).
  reflexivity.
Qed.

Lemma filter_perm {A : Type} (f : A -> bool) (l l' : list A) :
  Permutation l l' -> Permutation (List.filter f l) (List.filter f l').
Proof.
  induction 1 as [|x l l' _ IH|x y l|l l' l'' _ IH1 _ IH2]; cbn [List.filter].
  - reflexivity.
  - destruct (f x); [now apply perm_skip | assumption].
  - destruct (f x), (f y); try reflexivity. apply perm_swap.
  - now transitivity (List.filter f l').
Qed.

Lemma filter_filter {A : Type} (f g : A -> bool) (l : list A) :
  List.filter f (List.filter g l) = List.filter (fun x => g x && f x) l.
Proof.
  induction l as [|x l IH]; cbn [List.filter]; [reflexivity|].
  destruct (g x); cbn [List.filter andb]; [destruct (f x)|]; now rewrite IH.
Qed.

Lemma filter_ext_in' {A : Type} (f g : A -> bool) (l : list A) :
  (forall x, In x l -> f x = g x) -> List.filter f l = List.filter g l.
Proof.
  induction l as [|x l IH]; intros H; cbn [List.filter]; [reflexivity|].
  rewrite (H x) by now left. rewrite IH; [reflexivity|].
  intros y Hy. apply H. now right.
Qed.

End Generator.

Section GeneratorLaws.

Variable tz : TimeZone.

Lemma descending_app l1 l2 :
  descending (l1 ++ l2) ->
  descending l1 /\
  (forall a b, In a l1 -> In b l2 ->
     geb (confidenceScore a) (confidenceScore b) = true).
Proof.
  unfold descending. induction l1 as [|x l1 IH]; cbn [app]; intros H.
  - split; [constructor | contradiction].
  - inversion H as [|? ? Hs Hall]; subst. destruct (IH Hs) as [IH1 IH2].
    rewrite List.Forall_forall in Hall. split.
    + constructor; [assumption|]. apply List.Forall_forall.
      intros y Hy. apply Hall, in_app_iff. now left.
    + intros a b [<-|Ha] Hb; [|now apply IH2].
      apply Hall, in_app_iff. now right.
Qed.

Lemma findCandidatesForInvoice_descending invoice transactions config :
  descending (findCandidatesForInvoice tz invoice transactions config).
Proof.
  unfold findCandidatesForInvoice. rewrite candidates_loop. cbn [app].
  apply sort_descending. apply List.Forall_forall. intros c Hc.
  apply in_map_iff in Hc as (pair & <- & Hp).
  apply filter_In in Hp as [_ Hp]. now apply meetsThreshold_finite.
Qed.

Lemma findCandidatesForInvoice_In invoice transactions config c :
  In c (findCandidatesForInvoice tz invoice transactions config) <->
  exists transaction,
    In transaction transactions /\
    c = candidateOf tz config (invoice, transaction) /\
    meetsThreshold tz config (invoice, transaction) = true.
Proof.
  split.
  - intros Hc.
    apply (Permutation_in _ (findCandidatesForInvoice_perm tz config _ _)) in Hc.
    apply in_map_iff in Hc as ([i t] & <- & Hp).
    apply filter_In in Hp as [Hp Hm].
    apply in_map_iff in Hp as (t' & [= <- <-] & Ht). eauto.
  - intros (t & Ht & -> & Hm).
    apply (Permutation_in _
             (Permutation_sym (findCandidatesForInvoice_perm tz config _ _))).
    apply in_map_iff. exists (invoice, t). split; [reflexivity|].
    apply filter_In. split; [|assumption]. now apply in_map.
Qed.

Lemma findCandidatesForInvoice_length invoice transactions config :
  (List.length (findCandidatesForInvoice tz invoice transactions config)
   <= List.length transactions)%nat.
Proof.
  rewrite (Permutation_length (findCandidatesForInvoice_perm tz config _ _)).
  rewrite length_map.
  etransitivity; [apply List.filter_length_le|]. now rewrite length_map.
Qed.

End GeneratorLaws.

(** X11.  The candidates of one invoice come in descending order of
    confidence, are at most as many as the transactions, and each of them
    pairs the invoice with one of the transactions, carries the identifiers
    of the two, and has a confidence of the unit interval that reaches the
    threshold. *)
Theorem findCandidatesForInvoice_laws (tz : TimeZone) (invoice : Invoice.t)
    (transactions : list Transaction.t) (config : MatchingConfig) :
  let result := findCandidatesForInvoice tz invoice transactions config in
  descending result /\
  (List.length result <= List.length transactions)%nat /\
  (forall c, In c result ->
     exists transaction,
       In transaction transactions /\
       c = candidateOf tz config (invoice, transaction) /\
       invoiceId c = Invoice.id invoice /\
       transactionId c = Transaction.id transaction /\
       inUnit (confidenceScore c) /\
       geb (confidenceScore c) (Num (minConfidenceScore config)) = true).
Proof.
  cbv zeta. split; [apply findCandidatesForInvoice_descending|].
  split; [apply findCandidatesForInvoice_length|].
  intros c Hc. apply findCandidatesForInvoice_In in Hc as (t & Ht & -> & Hm).
  exists t. repeat split; try assumption.
  now apply candidateOf_confidence_unit.
Qed.

Section TopMatches.

Variable tz : TimeZone.

Lemma sliceTo_ofNat {A : Type} (l : list A) n : sliceTo l (ofNat n) = firstn n l.
Proof.
  unfold sliceTo, ofNat, ofZ, toIntegerOrInfinity.
  assert (Hle : Qle_bool 0 (inject_Z (Z.of_nat n)) = true).
  { apply Qle_bool_iff. apply inject_nat_nonneg. }
  rewrite Hle, Qfloor_Z.
  destruct (Z.of_nat n <? 0)%Z eqn:E; [apply Z.ltb_lt in E; lia|].
  destruct (Nat.le_gt_cases n (List.length l)) as [H|H].
  - rewrite Z.min_l by lia. now rewrite Nat2Z.id.
  - rewrite Z.min_r by lia. rewrite Nat2Z.id.
    rewrite firstn_all. symmetry. apply firstn_all2. lia.
Qed.

Lemma find_snoc {A : Type} (f : A -> bool) l x :
  find f (l ++ [x])
  = match find f l with Some y => Some y | None => if f x then Some x else None end.
Proof.
  induction l as [|y l IH]; cbn [app find]; [reflexivity|].
  destruct (f y); [reflexivity | exact IH].
Qed.

(** The entry of a key after the loop of [findTopMatches]: the one of the
    last invoice of the list that has the key. *)
Lemma topLoop_lookup transactions topN config invoices :
  forall (m : gmap string (list MatchCandidate)) k,
  fold_left
    (fun (matchesByInvoice : gmap string (list MatchCandidate)) invoice =>
       <[Invoice.id invoice :=
           sliceTo (findCandidatesForInvoice tz invoice transactions config) topN]>
         matchesByInvoice)
    invoices m !! k
  = match find (fun i => String.eqb (Invoice.id i) k) (rev invoices) with
    | Some i =>
        Some (sliceTo (findCandidatesForInvoice tz i transactions config) topN)
    | None => m !! k
    end.
Proof.
  induction invoices as [|i invs IH]; intros m k; cbn [fold_left rev].
  - reflexivity.
  - rewrite IH, find_snoc.
    destruct (find _ (rev invs)); [reflexivity|].
    destruct (String.eqb_spec (Invoice.id i) k) as [->|Hne].
    + now rewrite lookup_insert_eq.
    + now rewrite lookup_insert_ne.
Qed.

End TopMatches.

(** X12.  [findTopMatches] with a whole [topN >= 0].  A key has an entry
    exactly when an invoice has it as its identifier, also when the
    invoice has no candidate.  The entry holds the first [topN] candidates
    of such an invoice (the last one of the list, should several share the
    identifier): at most [topN], in descending order, and none of the
    candidates left out has a greater confidence than one kept. *)
Theorem findTopMatches_entries (tz : TimeZone) (invoices : list Invoice.t)
    (transactions : list Transaction.t) (topN : nat) (partial : Partial.t)
    (k : string) :
  let config := spread DEFAULT_MATCHING_CONFIG partial in
  let top := findTopMatches tz invoices transactions (ofNat topN) partial in
  (top !! k = None <-> forall i, In i invoices -> Invoice.id i <> k) /\
  (forall entry, top !! k = Some entry ->
     exists i, In i invoices /\ Invoice.id i = k /\
       let all := findCandidatesForInvoice tz i transactions config in
       entry = firstn topN all /\
       (List.length entry <= topN)%nat /\
       descending entry /\
       (forall a b, In a entry -> In b (skipn topN all) ->
          geb (confidenceScore a) (confidenceScore b) = true)).
Proof.
  cbv zeta. unfold findTopMatches.
  rewrite topLoop_lookup, lookup_empty.
  destruct (find (fun i => String.eqb (Invoice.id i) k) (rev invoices))
    as [i|] eqn:E.
  - apply find_some in E as [Hi Hk]. apply in_rev in Hi.
    apply String.eqb_eq in Hk. split.
    + split; [discriminate|]. intros H. exfalso. exact (H i Hi Hk).
    + intros entry [= <-]. exists i. split; [assumption|]. split; [assumption|].
      cbv zeta. rewrite sliceTo_ofNat. split; [reflexivity|].
      split; [apply firstn_le_length|].
      pose proof (findCandidatesForInvoice_descending tz i transactions
                    (spread DEFAULT_MATCHING_CONFIG partial)) as Hd.
      rewrite <- (firstn_skipn topN) in Hd at 1.
      now apply descending_app in Hd.
  - split; [|discriminate]. split; [|reflexivity].
    intros _ i Hi Hk.
    pose proof (find_none _ _ E i) as Hf.
    rewrite <- in_rev in Hf. specialize (Hf Hi).
    apply String.eqb_neq in Hf. contradiction.
Qed.

Lemma findTopMatches_entries_witness :
  let top :=
    findTopMatches Date.utc [scenarioInvoice "INV-001" "CUST-001" None None]
      [scenarioTransaction "TXN-001" None Bank None] (ofNat 3) Partial.empty in
  exists entry, top !! "INV-001"%string = Some entry /\
    (List.length entry <= 3)%nat /\ descending entry.
Proof.
  cbv zeta.
  destruct (findTopMatches Date.utc [scenarioInvoice "INV-001" "CUST-001" None None]
              [scenarioTransaction "TXN-001" None Bank None] (ofNat 3) Partial.empty
            !! "INV-001"%string) as [entry|] eqn:E.
  - exists entry. split; [reflexivity|].
    destruct (proj2 (findTopMatches_entries Date.utc _ _ 3 Partial.empty "INV-001"%string)
                entry E) as (i & _ & _ & _ & Hlen & Hdesc & _).
    split; assumption.
  - exfalso.
    apply (proj1 (proj1 (findTopMatches_entries Date.utc _ _ 3 Partial.empty
                           "INV-001"%string)) E
             (scenarioInvoice "INV-001" "CUST-001" None None)).
    + left; reflexivity.
    + reflexivity.
Defined.

Section Thresholds.

Variable tz : TimeZone.

Lemma findMatches_perm invoices transactions partial :
  Permutation (findMatches tz invoices transactions partial)
    (map (candidateOf tz (spread DEFAULT_MATCHING_CONFIG partial))
       (qualifyingPairs tz (spread DEFAULT_MATCHING_CONFIG partial)
          invoices transactions)).
Proof.
  unfold findMatches. rewrite matches_loop, sort_perm. cbn [app].
  apply allCandidates_perm.
Qed.

Lemma findMatches_descending invoices transactions partial :
  descending (findMatches tz invoices transactions partial).
Proof.
  unfold findMatches. rewrite matches_loop. cbn [app].
  apply sort_descending.
  apply (Permutation_Forall (Permutation_sym (allCandidates_perm tz _ _ _))).
  apply qualifying_finite.
Qed.

Lemma filter_none {A : Type} (l : list A) : List.filter (fun _ => false) l = [].
Proof. induction l; cbn [List.filter]; auto. Qed.

Lemma perm_of_eq {A : Type} (l l' : list A) : l = l' -> Permutation l l'.
Proof. intros ->. reflexivity. Qed.

Lemma perm_nil_eq {A : Type} (l : list A) : Permutation l [] -> l = [].
Proof. intros H. apply Permutation_sym in H. now apply Permutation_nil. Qed.

Lemma meetsThreshold_setThreshold config threshold pair :
  meetsThreshold tz (setThreshold config threshold) pair
  = geb (confidenceScore (candidateOf tz config pair)) (Num threshold).
Proof.
  destruct pair as [i t]. unfold meetsThreshold. cbn [fst snd].
  change (confidenceOf tz (setThreshold config threshold) i t)
    with (confidenceScore (candidateOf tz (setThreshold config threshold) (i, t))).
  now rewrite candidateOf_threshold.
Qed.

End Thresholds.

(** X13.  Empty input gives the empty list: no invoice, or no transaction,
    means no candidate. *)
Theorem findMatches_empty (tz : TimeZone) (invoices : list Invoice.t)
    (transactions : list Transaction.t) (partial : Partial.t) :
  findMatches tz [] transactions partial = [] /\
  findMatches tz invoices [] partial = [].
Proof.
  split; [reflexivity|].
  apply perm_nil_eq. rewrite findMatches_perm. unfold qualifyingPairs.
  replace (list_prod invoices (@nil Transaction.t)) with (@nil (Invoice.t * Transaction.t)).
  - reflexivity.
  - induction invoices as [|i invs IH]; cbn [list_prod map app]; auto.
Qed.

(** X14.  With the three weights at zero no candidate is ever returned:
    each confidence is [NaN], which reaches no threshold. *)
Theorem findMatches_zero_weights (tz : TimeZone) (invoices : list Invoice.t)
    (transactions : list Transaction.t) (partial : Partial.t) :
  allWeightsZero (spread DEFAULT_MATCHING_CONFIG partial) ->
  findMatches tz invoices transactions partial = [].
Proof.
  intros Hz. apply perm_nil_eq. rewrite findMatches_perm.
  unfold qualifyingPairs.
  rewrite (filter_ext_in' _ (fun _ => false)).
  - now rewrite filter_none.
  - intros [i t] _. unfold meetsThreshold, confidenceOf. cbn [fst snd].
    now rewrite confidence_zero_total.
Qed.

Lemma findMatches_zero_weights_witness :
  let partial :=
    Partial.mk None None (Some 0) None (Some 0) None (Some 0) None in
  allWeightsZero (spread DEFAULT_MATCHING_CONFIG partial) /\
  findMatches Date.utc [scenarioInvoice "INV-001" "CUST-001" None None]
    [scenarioTransaction "TXN-001" None Bank None] partial = [].
Proof.
  cbv zeta.
  assert (H : allWeightsZero
                (spread DEFAULT_MATCHING_CONFIG
                   (Partial.mk None None (Some 0) None (Some 0) None (Some 0) None)))
    by (repeat split; reflexivity).
  split; [exact H|]. exact (findMatches_zero_weights Date.utc _ _ _ H).
Defined.

(** X15.  The list [findMatches] returns has at most one candidate for
    each pair of an invoice and a transaction; the confidence, the date
    score and the reference score of each candidate are numbers of the unit
    interval, the breakdown repeats the reference score, and so is the
    amount score when the invoice amounts are positive. *)
Theorem findMatches_well_formed (tz : TimeZone) (invoices : list Invoice.t)
    (transactions : list Transaction.t) (partial : Partial.t) :
  let result := findMatches tz invoices transactions partial in
  (List.length result <= List.length invoices * List.length transactions)%nat /\
  (forall c, In c result ->
     inUnit (confidenceScore c) /\ inUnit (dateScore c) /\
     inUnit (referenceScore c) /\
     referenceSimilarity (breakdown c) = referenceScore c /\
     ((forall i, In i invoices -> 0 < Invoice.amount i) -> inUnit (amountScore c))).
Proof.
  cbv zeta. split.
  - rewrite (Permutation_length (findMatches_perm tz _ _ _)), length_map.
    unfold qualifyingPairs.
    etransitivity; [apply List.filter_length_le|]. now rewrite length_prod.
  - intros c Hc. apply (Permutation_in _ (findMatches_perm tz _ _ _)) in Hc.
    apply in_map_iff in Hc as ([i t] & <- & Hp).
    apply filter_In in Hp as [Hp Hm]. apply in_prod_iff in Hp as [Hi Ht].
    split; [now apply candidateOf_confidence_unit|].
    cbn [candidateOf dateScore referenceScore amountScore breakdown referenceSimilarity].
    split; [apply calculateDateScore_inUnit|].
    split; [apply calculateReferenceScore_inUnit|].
    split; [reflexivity|].
    intros Hpos. apply calculateAmountScore_inUnit. now apply Hpos.
Qed.

(** X16.  Raising the threshold is the same as filtering afterwards: for
    [m] at least the threshold of the configuration, the candidates of
    confidence at least [m] among those of [findMatches] are, up to the
    order of equal confidences, the result of [findMatches] under the
    threshold [m]. *)
Theorem findMatches_threshold (tz : TimeZone) (invoices : list Invoice.t)
    (transactions : list Transaction.t) (partial : Partial.t) (m : Q) :
  minConfidenceScore (spread DEFAULT_MATCHING_CONFIG partial) <= m ->
  Permutation
    (filterByConfidence (findMatches tz invoices transactions partial) (Num m) None)
    (findMatches tz invoices transactions (withThreshold partial m)).
Proof.
  intros Hm. set (config := spread DEFAULT_MATCHING_CONFIG partial) in *.
  rewrite (findMatches_perm tz _ _ (withThreshold partial m)).
  rewrite spread_withThreshold. fold config.
  unfold filterByConfidence.
  rewrite (filter_perm _ _ _ (findMatches_perm tz invoices transactions partial)).
  fold config. unfold qualifyingPairs.
  rewrite filter_map_commute, filter_filter.
  rewrite (filter_ext_in' _ (meetsThreshold tz (setThreshold config m))).
  - apply perm_of_eq. symmetry. apply map_ext. intros pair.
    apply candidateOf_threshold.
  - intros pair _. rewrite meetsThreshold_setThreshold, andb_true_r.
    destruct (meetsThreshold tz config pair) eqn:E; cbn [andb]; [reflexivity|].
    symmetry. apply not_true_iff_false. intros H.
    apply not_true_iff_false in E. apply E. clear E.
    destruct pair as [i t]. unfold meetsThreshold. cbn [fst snd].
    change (confidenceOf tz config i t)
      with (confidenceScore (candidateOf tz config (i, t))).
    destruct (confidenceScore (candidateOf tz config (i, t))) as [| | |q];
      try discriminate; [reflexivity|].
    apply geb_Num in H. apply geb_Num. lra.
Qed.

Lemma findMatches_threshold_witness :
  minConfidenceScore (spread DEFAULT_MATCHING_CONFIG Partial.empty) <= 0.8 /\
  Permutation
    (filterByConfidence
       (findMatches Date.utc [scenarioInvoice "INV-001" "CUST-001" None None]
          [scenarioTransaction "TXN-001" None Bank None] Partial.empty)
       (Num 0.8) None)
    (findMatches Date.utc [scenarioInvoice "INV-001" "CUST-001" None None]
       [scenarioTransaction "TXN-001" None Bank None]
       (withThreshold Partial.empty 0.8)).
Proof.
  assert (Hm : minConfidenceScore (spread DEFAULT_MATCHING_CONFIG Partial.empty)
               <= 0.8) by (vm_compute; discriminate).
  split; [exact Hm | apply (findMatches_threshold _ _ _ _ _ Hm)].
Defined.

(* ================================================================== *)
(** * The statistics                                                   *)
(* ================================================================== *)

Section Stats.

Lemma statsLoop_distribution candidates : forall total d,
  snd (fold_left statsStep candidates (total, d))
  = ConfidenceDistribution.mk
      (ConfidenceDistribution.high d
       + List.length
           (List.filter (fun c => geb (confidenceScore c) (Num 0.8)) candidates))
      (ConfidenceDistribution.medium d
       + List.length
           (List.filter
              (fun c => negb (geb (confidenceScore c) (Num 0.8))
                        && geb (confidenceScore c) (Num 0.5)) candidates))
      (ConfidenceDistribution.low d
       + List.length
           (List.filter
              (fun c => negb (geb (confidenceScore c) (Num 0.8))
                        && negb (geb (confidenceScore c) (Num 0.5))) candidates))%nat.
Proof.
  induction candidates as [|c cs IH]; intros total d; cbn [fold_left List.filter].
  - destruct d. cbn. now rewrite !Nat.add_0_r.
  - unfold statsStep at 2. rewrite IH.
    destruct (geb (confidenceScore c) (Num 0.8));
      [|destruct (geb (confidenceScore c) (Num 0.5))];
      cbn [negb andb List.length ConfidenceDistribution.high
           ConfidenceDistribution.medium ConfidenceDistribution.low];
      f_equal; lia.
Qed.

Lemma filter_three_way {A : Type} (f g : A -> bool) (l : list A) :
  (List.length (List.filter f l)
   + List.length (List.filter (fun x => negb (f x) && g x) l)
   + List.length (List.filter (fun x => negb (f x) && negb (g x)) l)
   = List.length l)%nat.
Proof.
  induction l as [|x l IH]; cbn [List.filter List.length]; [reflexivity|].
  destruct (f x), (g x); cbn [negb andb List.length]; lia.
Qed.

(** The sum of the loop, for finite confidences between two bounds. *)
Lemma statsLoop_total lo hi candidates : forall total d,
  Forall (fun c => exists q, confidenceScore c = Num q /\ lo <= q <= hi) candidates ->
  exists total',
    fst (fold_left statsStep candidates (Num total, d)) = Num total' /\
    total + lo * inject_Z (Z.of_nat (List.length candidates)) <= total' /\
    total' <= total + hi * inject_Z (Z.of_nat (List.length candidates)).
Proof.
  induction candidates as [|c cs IH]; intros total d Hall; cbn [fold_left].
  - exists total. split; [reflexivity|].
    change (inject_Z (Z.of_nat (List.length (@nil MatchCandidate)))) with 0.
    split; lra.
  - inversion Hall as [|? ? (q & Hq & Hr) Hall']; subst.
    unfold statsStep at 2. rewrite Hq. cbn [add].
    match goal with |- context [fold_left statsStep cs (Num (total + q), ?d')] =>
      destruct (IH (total + q) d' Hall') as (total' & Ht & Hlo & Hhi) end.
    exists total'. split; [exact Ht|].
    cbn [List.length]. rewrite Nat2Z.inj_succ. unfold Z.succ.
    rewrite inject_Z_plus. change (inject_Z 1) with 1. split; nra.
Qed.

Lemma size_list_to_set_le (l : list string) :
  (size (list_to_set l : gset string) <= List.length l)%nat.
Proof.
  induction l as [|x l IH]; cbn [list_to_set foldr List.length].
  - now rewrite size_empty.
  - rewrite size_union_alt, size_singleton.
    pose proof (subseteq_size ((list_to_set l : gset string) ∖ {[x]})
                  (list_to_set l)) as Hsub.
    assert (Hd : (list_to_set l : gset string) ∖ {[x]} ⊆ list_to_set l).
    { intros y Hy. apply elem_of_difference in Hy. tauto. }
    specialize (Hsub Hd). lia.
Qed.

End Stats.

(** X17.  The statistics count every candidate once: the three buckets
    (confidence at least 0.8, from 0.5 to below 0.8, and the rest, where a
    [NaN] confidence falls too) add up to the number of candidates; the
    numbers of distinct invoices and transactions do not exceed it; the
    empty list has average 0. *)
Theorem getMatchingStats_counts (candidates : list MatchCandidate) :
  let stats := getMatchingStats candidates in
  let d := confidenceDistribution stats in
  totalCandidates stats = List.length candidates /\
  ConfidenceDistribution.high d
  = List.length (List.filter (fun c => geb (confidenceScore c) (Num 0.8)) candidates) /\
  ConfidenceDistribution.medium d
  = List.length
      (List.filter
         (fun c => negb (geb (confidenceScore c) (Num 0.8))
                   && geb (confidenceScore c) (Num 0.5)) candidates) /\
  (ConfidenceDistribution.high d + ConfidenceDistribution.medium d
   + ConfidenceDistribution.low d = totalCandidates stats)%nat /\
  (totalInvoices stats <= totalCandidates stats)%nat /\
  (totalTransactions stats <= totalCandidates stats)%nat /\
  averageConfidence (getMatchingStats []) = Num 0.
Proof.
  cbv zeta. unfold getMatchingStats.
  pose proof (statsLoop_distribution candidates (Num 0)
                (ConfidenceDistribution.mk 0 0 0)) as Hd.
  destruct (fold_left statsStep candidates (Num 0, ConfidenceDistribution.mk 0 0 0))
    as [total d].
  cbn [snd] in Hd. subst d.
  cbn [totalCandidates confidenceDistribution totalInvoices totalTransactions
       ConfidenceDistribution.high ConfidenceDistribution.medium
       ConfidenceDistribution.low Nat.add].
  repeat split.
  - apply filter_three_way.
  - rewrite <- (length_map invoiceId candidates). apply size_list_to_set_le.
  - rewrite <- (length_map transactionId candidates). apply size_list_to_set_le.
Qed.

(** X18.  The statistics of a result of [findMatches]: when there is a
    candidate, the average confidence is a number of the unit interval;
    with a threshold of 0.5 or more (as in the default configuration) the
    low bucket is empty, and with 0.8 or more the medium bucket too. *)
Theorem getMatchingStats_of_findMatches (tz : TimeZone)
    (invoices : list Invoice.t) (transactions : list Transaction.t)
    (partial : Partial.t) :
  let threshold := minConfidenceScore (spread DEFAULT_MATCHING_CONFIG partial) in
  let result := findMatches tz invoices transactions partial in
  let stats := getMatchingStats result in
  (result <> [] ->
   inUnit (averageConfidence stats)) /\
  (0.5 <= threshold ->
   ConfidenceDistribution.low (confidenceDistribution stats) = 0%nat) /\
  (0.8 <= threshold ->
   ConfidenceDistribution.medium (confidenceDistribution stats) = 0%nat).
Proof.
  cbv zeta.
  set (config := spread DEFAULT_MATCHING_CONFIG partial).
  set (result := findMatches tz invoices transactions partial).
  assert (Hall : forall c, In c result ->
            exists q, confidenceScore c = Num q /\
              minConfidenceScore config <= q /\ 0 <= q <= 1).
  { intros c Hc. apply (Permutation_in _ (findMatches_perm tz _ _ _)) in Hc.
    apply in_map_iff in Hc as ([i t] & <- & Hp). apply filter_In in Hp as [_ Hm].
    fold config in Hm |- *.
    destruct (candidateOf_confidence_unit tz config (i, t) Hm) as (q & Hq & Hu).
    exists q. split; [assumption|]. split; [|assumption].
    unfold meetsThreshold in Hm. cbn [fst snd] in Hm.
    cbn [candidateOf confidenceScore] in Hq.
    rewrite Hq in Hm. now apply geb_Num in Hm. }
  unfold getMatchingStats.
  pose proof (statsLoop_distribution result (Num 0)
                (ConfidenceDistribution.mk 0 0 0)) as Hd.
  assert (Hlo : Forall (fun c => exists q, confidenceScore c = Num q /\
                          minConfidenceScore config <= q <= 1) result).
  { apply List.Forall_forall. intros c Hc.
    destruct (Hall c Hc) as (q & Hq & H1 & H2). exists q. split; [assumption | lra]. }
  assert (H0 : Forall (fun c => exists q, confidenceScore c = Num q /\
                          0 <= q <= 1) result).
  { apply List.Forall_forall. intros c Hc.
    destruct (Hall c Hc) as (q & Hq & H1 & H2). exists q. split; [assumption | lra]. }
  pose proof (statsLoop_total _ _ result 0 (ConfidenceDistribution.mk 0 0 0) Hlo)
    as (t1 & Ht1 & Hlo1 & Hhi1).
  pose proof (statsLoop_total _ _ result 0 (ConfidenceDistribution.mk 0 0 0) H0)
    as (t2 & Ht2 & Hlo2 & Hhi2).
  destruct (fold_left statsStep result (Num 0, ConfidenceDistribution.mk 0 0 0))
    as [total d].
  cbn [fst snd] in Hd, Ht1, Ht2. subst d total. injection Ht2 as <-.
  cbn [averageConfidence confidenceDistribution ConfidenceDistribution.low
       ConfidenceDistribution.medium Nat.add].
  split; [|split].
  - intros Hne.
    assert (Hn : (0 <? List.length result)%nat = true).
    { apply Nat.ltb_lt. destruct result; [contradiction | cbn; lia]. }
    rewrite Hn. unfold ofNat, ofZ.
    assert (Hpos : 0 < inject_Z (Z.of_nat (List.length result))).
    { apply inject_nat_pos. apply Nat.eqb_neq. apply Nat.ltb_lt in Hn. lia. }
    rewrite div_Num by lra. eexists; split; [reflexivity|].
    set (n := inject_Z (Z.of_nat (List.length result))) in *.
    split.
    + apply Qle_shift_div_l; [assumption | lra].
    + apply Qle_shift_div_r; [assumption | lra].
  - intros Hth. apply length_zero_iff_nil.
    rewrite (filter_ext_in' _ (fun _ => false)); [apply filter_none|].
    intros c Hc. destruct (Hall c Hc) as (q & -> & H1 & H2).
    destruct (geb (Num q) (Num 0.5)) eqn:E;
      [now rewrite andb_false_r|].
    exfalso. apply not_true_iff_false in E. apply E, geb_Num. lra.
  - intros Hth. apply length_zero_iff_nil.
    rewrite (filter_ext_in' _ (fun _ => false)); [apply filter_none|].
    intros c Hc. destruct (Hall c Hc) as (q & -> & H1 & H2).
    destruct (geb (Num q) (Num 0.8)) eqn:E; [reflexivity|].
    exfalso. apply not_true_iff_false in E. apply E, geb_Num. lra.
Qed.

Lemma getMatchingStats_of_findMatches_witness :
  let result :=
    findMatches Date.utc [scenarioInvoice "INV-001" "CUST-001" None None]
      [scenarioTransaction "TXN-001" None Bank None] Partial.empty in
  result <> [] /\
  ConfidenceDistribution.low (confidenceDistribution (getMatchingStats result)) = 0%nat /\
  inUnit (averageConfidence (getMatchingStats result)).
Proof.
  cbv zeta.
  pose proof (getMatchingStats_of_findMatches Date.utc
                [scenarioInvoice "INV-001" "CUST-001" None None]
                [scenarioTransaction "TXN-001" None Bank None] Partial.empty)
    as (Havg & Hlow & _).
  assert (Hne : findMatches Date.utc [scenarioInvoice "INV-001" "CUST-001" None None]
                  [scenarioTransaction "TXN-001" None Bank None] Partial.empty <> [])
    by (vm_compute; discriminate).
  split; [exact Hne|]. split.
  - apply Hlow. vm_compute. discriminate.
  - exact (Havg Hne).
Defined.

(* ================================================================== *)
(** * Grouping and the one-to-one matches                              *)
(* ================================================================== *)

Section GroupingLaws.

Variable key : MatchCandidate -> string.

Lemma groupLoop_absent candidates k : forall (g : gmap string (list MatchCandidate)),
  (forall c, In c candidates -> key c <> k) ->
  fold_left (groupStep key) candidates g !! k = g !! k.
Proof.
  induction candidates as [|c cs IH]; intros g Hk; cbn [fold_left]; [reflexivity|].
  rewrite IH by (intros c' Hc'; apply Hk; now right).
  rewrite groupStep_lookup.
  destruct (String.eqb_spec (key c) k) as [Heq|]; [|reflexivity].
  exfalso. apply (Hk c); [now left | assumption].
Qed.

Lemma candidatesOf_nil candidates k :
  candidatesOf key k candidates = [] <-> forall c, In c candidates -> key c <> k.
Proof.
  unfold candidatesOf. split.
  - intros Hnil c Hc Hk.
    assert (Hin : In c (List.filter (fun c => String.eqb (key c) k) candidates)).
    { apply filter_In. split; [assumption | now apply String.eqb_eq]. }
    rewrite Hnil in Hin. exact Hin.
  - intros H. rewrite (filter_ext_in' _ (fun _ => false)); [apply filter_none|].
    intros c Hc. apply String.eqb_neq. now apply H.
Qed.

Lemma groupBy_groupedBy candidates : groupedBy key candidates (groupBy key candidates).
Proof.
  intros k. unfold groupBy. rewrite lookup_fmap.
  pose proof (groupLoop_lookup key candidates ∅ k) as Hl.
  rewrite lookup_empty in Hl. cbn [default from_option id app] in Hl.
  fold (candidatesOf key k candidates) in Hl.
  destruct (fold_left (groupStep key) candidates ∅ !! k) as [g0|] eqn:E;
    cbn [default from_option id fmap option_fmap option_map] in *.
  - assert (Hne : candidatesOf key k candidates <> []).
    { intros Hnil. pose proof (proj1 (candidatesOf_nil candidates k) Hnil) as Habs.
      rewrite (groupLoop_absent candidates k ∅ Habs), lookup_empty in E.
      discriminate. }
    split.
    + split; [discriminate|]. intros H.
      apply (proj2 (candidatesOf_nil candidates k)) in H. contradiction.
    + intros g [= <-]. subst g0. split; [|split].
      * intros Hnil. apply Hne.
        apply Permutation_nil. rewrite <- Hnil. apply sort_perm.
      * apply sort_perm.
      * intros Hfin. apply sort_descending.
        rewrite List.Forall_forall in Hfin |- *.
        intros c Hc. apply Hfin. unfold candidatesOf in Hc.
        now apply filter_In in Hc.
  - split; [|discriminate]. split; [|reflexivity].
    intros _. apply (proj1 (candidatesOf_nil candidates k)). now rewrite <- Hl.
Qed.

End GroupingLaws.

(** X19.  [groupByInvoice] and [groupByTransaction] partition the
    candidates: a key has a group exactly when a candidate has it, no group
    is empty, the group of a key holds the candidates of that key and no
    other, and it is in descending order of confidence when the
    confidences are finite. *)
Theorem groupBy_partition (candidates : list MatchCandidate) :
  groupedBy invoiceId candidates (groupByInvoice candidates) /\
  groupedBy transactionId candidates (groupByTransaction candidates).
Proof. split; apply groupBy_groupedBy. Qed.

(** X20.  A one-to-one match shares its invoice with no other candidate of
    the list, and its transaction with none either. *)
Theorem findOneToOneMatches_exclusive (candidates : list MatchCandidate)
    (c other : MatchCandidate) :
  In c (findOneToOneMatches candidates) -> In other candidates ->
  invoiceId other = invoiceId c \/ transactionId other = transactionId c ->
  other = c.
Proof.
  intros Hc Ho Hshare.
  apply findOneToOneMatches_In in Hc as (Hc & Hi & Ht).
  assert (Hone : forall key,
            groupSize key candidates (key c) = 1%nat -> key other = key c ->
            other = c).
  { intros key Hsize Hk. unfold groupSize in Hsize.
    assert (H1 : In c (List.filter (fun c' => String.eqb (key c') (key c)) candidates)).
    { apply filter_In. split; [assumption | apply String.eqb_refl]. }
    assert (H2 : In other (List.filter (fun c' => String.eqb (key c') (key c)) candidates)).
    { apply filter_In. split; [assumption | now apply String.eqb_eq]. }
    destruct (List.filter _ candidates) as [|x [|y l]]; try discriminate.
    destruct H1 as [<-|[]]. destruct H2 as [<-|[]]. reflexivity. }
  destruct Hshare as [H|H]; [apply (Hone invoiceId) | apply (Hone transactionId)];
    assumption.
Qed.

Lemma findOneToOneMatches_exclusive_witness :
  let a := candidate "INV-001" "TXN-001" 0.9 in
  let b := candidate "INV-002" "TXN-002" 0.7 in
  let c := candidate "INV-002" "TXN-003" 0.6 in
  In a (findOneToOneMatches [a; b; c]) /\ In a [a; b; c] /\ a = a.
Proof.
  cbv zeta.
  assert (H1 : In (candidate "INV-001" "TXN-001" 0.9)
                 (findOneToOneMatches
                    [candidate "INV-001" "TXN-001" 0.9;
                     candidate "INV-002" "TXN-002" 0.7;
                     candidate "INV-002" "TXN-003" 0.6]))
    by (vm_compute; left; reflexivity).
  assert (H2 : In (candidate "INV-001" "TXN-001" 0.9)
                 [candidate "INV-001" "TXN-001" 0.9;
                  candidate "INV-002" "TXN-002" 0.7;
                  candidate "INV-002" "TXN-003" 0.6])
    by (left; reflexivity).
  split; [exact H1|]. split; [exact H2|].
  exact (findOneToOneMatches_exclusive _ _ _ H1 H2 (or_introl eq_refl)).
Defined.

(* ================================================================== *)
(** * The accuracy metrics                                             *)
(* ================================================================== *)

Section Metrics.

Lemma count_elements (X Y : gset string) (P : string -> Prop)
    `{!forall x, Decision (P x)} :
  (forall x, x ∈ Y <-> P x /\ x ∈ X) ->
  List.length (filter P (elements X)) = size Y.
Proof.
  intros Hspec. unfold size, set_size. cbn.
  apply Permutation_length, NoDup_Permutation.
  - apply NoDup_filter, NoDup_elements.
  - apply NoDup_elements.
  - intros x. rewrite list_elem_of_filter, !elem_of_elements. symmetry. apply Hspec.
Qed.

Lemma positivesLoop (T : gset string) l : forall tp fp,
  fold_left
    (fun '(tp, fp) m =>
       if bool_decide (m ∈ T) then (S tp, fp) else (tp, S fp)) l (tp, fp)
  = ((tp + List.length (filter (fun m => m ∈ T) l))%nat,
     (fp + List.length (filter (fun m => m ∉ T) l))%nat).
Proof.
  induction l as [|x l IH]; intros tp fp; cbn [fold_left].
  - cbn. now rewrite !Nat.add_0_r.
  - rewrite !filter_cons. cbv beta iota. case_bool_decide as Hin.
    + rewrite IH. destruct (decide (x ∉ T)); [contradiction|].
      rewrite decide_True by assumption.
      cbn [List.length]. f_equal; lia.
    + rewrite IH. destruct (decide (x ∉ T)); [|contradiction].
      rewrite decide_False by assumption.
      cbn [List.length]. f_equal; lia.
Qed.

Lemma negativesLoop (P : gset string) l : forall fn,
  fold_left
    (fun fn m => if negb (bool_decide (m ∈ P)) then S fn else fn) l fn
  = (fn + List.length (filter (fun m => m ∉ P) l))%nat.
Proof.
  induction l as [|x l IH]; intros fn; cbn [fold_left].
  - cbn. now rewrite Nat.add_0_r.
  - rewrite filter_cons, IH. case_bool_decide as Hin;
      destruct (decide (x ∉ P)); try contradiction;
      cbn [negb List.length]; lia.
Qed.

Lemma calculateMetrics_eq proposedMatches (trueMatches : gset string) :
  calculateMetrics proposedMatches trueMatches
  = metricsOf (size (proposedKeys proposedMatches ∩ trueMatches))
      (size (proposedKeys proposedMatches ∖ trueMatches))
      (size (trueMatches ∖ proposedKeys proposedMatches)).
Proof.
  unfold calculateMetrics. fold (proposedKeys proposedMatches).
  set (P := proposedKeys proposedMatches).
  rewrite positivesLoop, negativesLoop. cbn [Nat.add].
  rewrite (count_elements P (P ∩ trueMatches) (fun m => m ∈ trueMatches))
    by (intros x; rewrite elem_of_intersection; tauto).
  rewrite (count_elements P (P ∖ trueMatches) (fun m => m ∉ trueMatches))
    by (intros x; rewrite elem_of_difference; tauto).
  rewrite (count_elements trueMatches (trueMatches ∖ P) (fun m => m ∉ P))
    by (intros x; rewrite elem_of_difference; tauto).
  reflexivity.
Qed.

Lemma ratio_unit a b :
  (a <= b)%nat -> (b =? 0)%nat = false ->
  exists q, div (ofNat a) (ofNat b) = Num q /\ 0 <= q <= 1 /\
    (a = b -> q == 1) /\ (a = 0%nat -> q == 0).
Proof.
  intros Hab Hb. unfold ofNat, ofZ.
  pose proof (inject_nat_pos b Hb) as Hpos.
  pose proof (inject_nat_nonneg a) as Ha. pose proof (inject_nat_le a b Hab) as Hle.
  rewrite div_Num by lra. eexists; split; [reflexivity|]. split; [split|split].
  - apply Qle_shift_div_l; lra.
  - apply Qle_shift_div_r; lra.
  - intros ->. field. lra.
  - intros ->. cbn [Z.of_nat]. change (inject_Z 0) with 0. field. lra.
Qed.

Lemma f1_unit p r :
  0 <= p <= 1 -> 0 <= r <= 1 ->
  exists f,
    (if strictEq (add (Num p) (Num r)) (Num 0) then Num 0
     else div (mul (Num 2) (mul (Num p) (Num r))) (add (Num p) (Num r))) = Num f /\
    0 <= f <= 1 /\ (p == 1 -> r == 1 -> f == 1) /\ (p == 0 -> f == 0).
Proof.
  intros Hp Hr. cbn [add mul].
  destruct (strictEq (Num (p + r)) (Num 0)) eqn:E.
  - apply strictEq_Num in E. exists 0. split; [reflexivity|].
    split; [lra|]. split; [intros; lra | reflexivity].
  - apply strictEq_Num_false in E.
    assert (Hpos : 0 < p + r).
    { destruct (Qlt_le_dec 0 (p + r)); [assumption|]. exfalso. apply E. lra. }
    rewrite div_Num by assumption. eexists; split; [reflexivity|].
    split; [split|split].
    + apply Qle_shift_div_l; [assumption|]. nra.
    + apply Qle_shift_div_r; [assumption|]. nra.
    + intros H1 H2. rewrite H1, H2. field.
    + intros H0. rewrite H0. field. lra.
Qed.

End Metrics.

(** X21.  The counters of [calculateMetrics] are the sizes of the parts of
    the two sets of keys: true positives the keys proposed and true, false
    positives the keys proposed and not true, false negatives the true keys
    not proposed; a key proposed several times counts once. *)
Theorem calculateMetrics_counts (proposedMatches : list MatchCandidate)
    (trueMatches : gset string) :
  let proposed := proposedKeys proposedMatches in
  let m := calculateMetrics proposedMatches trueMatches in
  truePositives m = size (proposed ∩ trueMatches) /\
  falsePositives m = size (proposed ∖ trueMatches) /\
  falseNegatives m = size (trueMatches ∖ proposed) /\
  (truePositives m + falsePositives m = size proposed)%nat /\
  (truePositives m + falseNegatives m = size trueMatches)%nat.
Proof.
  cbv zeta. rewrite calculateMetrics_eq.
  cbn [metricsOf truePositives falsePositives falseNegatives].
  set (P := proposedKeys proposedMatches).
  repeat split.
  - rewrite <- size_union.
    + f_equal. apply set_eq. intros x.
      rewrite elem_of_union, elem_of_intersection, elem_of_difference.
      destruct (decide (x ∈ trueMatches)); tauto.
    + apply elem_of_disjoint. intros x.
      rewrite elem_of_intersection, elem_of_difference. tauto.
  - rewrite <- size_union.
    + f_equal. apply set_eq. intros x.
      rewrite elem_of_union, elem_of_intersection, elem_of_difference.
      destruct (decide (x ∈ P)); tauto.
    + apply elem_of_disjoint. intros x.
      rewrite elem_of_intersection, elem_of_difference. tauto.
Qed.

(** X22.  Precision, recall and the F1 score are numbers of the unit
    interval.  They are all 1 when the proposed keys are exactly the true
    ones and there is one at least, and all 0 when no proposed key is true;
    no proposal at all gives precision 0, and no true match recall 0. *)
Theorem calculateMetrics_scores (proposedMatches : list MatchCandidate)
    (trueMatches : gset string) :
  let proposed := proposedKeys proposedMatches in
  let m := calculateMetrics proposedMatches trueMatches in
  inUnit (precision m) /\ inUnit (recall m) /\ inUnit (f1Score m) /\
  (proposed = trueMatches -> trueMatches <> ∅ ->
   num_eq (precision m) (Num 1) /\ num_eq (recall m) (Num 1) /\
   num_eq (f1Score m) (Num 1)) /\
  (proposed ∩ trueMatches = ∅ ->
   num_eq (precision m) (Num 0) /\ num_eq (recall m) (Num 0) /\
   num_eq (f1Score m) (Num 0)).
Proof.
  cbv zeta. rewrite calculateMetrics_eq.
  set (P := proposedKeys proposedMatches).
  set (tp := size (P ∩ trueMatches)). set (fp := size (P ∖ trueMatches)).
  set (fn := size (trueMatches ∖ P)).
  assert (Hp : exists p, precision (metricsOf tp fp fn) = Num p /\ 0 <= p <= 1 /\
             (fp = 0%nat -> tp <> 0%nat -> p == 1) /\ (tp = 0%nat -> p == 0)).
  { cbn [metricsOf precision]. destruct (tp + fp =? 0)%nat eqn:E.
    - exists 0. split; [reflexivity|]. split; [lra|].
      apply Nat.eqb_eq in E. split; [intros; lia | reflexivity].
    - destruct (ratio_unit tp (tp + fp)) as (q & -> & Hq & H1 & H0); [lia|assumption|].
      exists q. split; [reflexivity|]. split; [assumption|].
      split; [intros; apply H1; lia | assumption]. }
  assert (Hr : exists r, recall (metricsOf tp fp fn) = Num r /\ 0 <= r <= 1 /\
             (fn = 0%nat -> tp <> 0%nat -> r == 1) /\ (tp = 0%nat -> r == 0)).
  { cbn [metricsOf recall]. destruct (tp + fn =? 0)%nat eqn:E.
    - exists 0. split; [reflexivity|]. split; [lra|].
      apply Nat.eqb_eq in E. split; [intros; lia | reflexivity].
    - destruct (ratio_unit tp (tp + fn)) as (q & -> & Hq & H1 & H0); [lia|assumption|].
      exists q. split; [reflexivity|]. split; [assumption|].
      split; [intros; apply H1; lia | assumption]. }
  destruct Hp as (p & Hp & Hpu & Hp1 & Hp0).
  destruct Hr as (r & Hr & Hru & Hr1 & Hr0).
  assert (Hf : exists f, f1Score (metricsOf tp fp fn) = Num f /\ 0 <= f <= 1 /\
             (p == 1 -> r == 1 -> f == 1) /\ (p == 0 -> f == 0)).
  { cbn [metricsOf f1Score]. cbn [metricsOf precision] in Hp.
    cbn [metricsOf recall] in Hr. rewrite Hp, Hr. now apply f1_unit. }
  destruct Hf as (f & Hf & Hfu & Hf1 & Hf0).
  rewrite Hp, Hr, Hf. cbn [num_eq].
  split; [now exists p|]. split; [now exists r|]. split; [now exists f|]. split.
  - intros Heq Hne.
    assert (Hfp : fp = 0%nat).
    { unfold fp. apply size_empty_iff. rewrite Heq.
      apply elem_of_equiv_empty. intros x. rewrite elem_of_difference. tauto. }
    assert (Hfn : fn = 0%nat).
    { unfold fn. apply size_empty_iff. rewrite Heq.
      apply elem_of_equiv_empty. intros x. rewrite elem_of_difference. tauto. }
    assert (Htp : tp <> 0%nat).
    { unfold tp. rewrite Heq. intros Hz. apply size_empty_iff in Hz.
      apply Hne. apply set_eq. intros x. split.
      - intros Hx. exfalso. apply (proj1 (elem_of_equiv_empty _) Hz x).
        apply elem_of_intersection. tauto.
      - intros Hx. exfalso. exact (not_elem_of_empty x Hx). }
    auto.
  - intros Hdis.
    assert (Htp : tp = 0%nat).
    { unfold tp. rewrite Hdis. apply size_empty. }
    auto.
Qed.

Lemma calculateMetrics_scores_witness :
  let proposed := [candidate "A" "1" 0.9; candidate "B" "2" 0.8] in
  let truth : gset string := {[ "A-1"%string; "B-2"%string ]} in
  proposedKeys proposed = truth /\ truth <> ∅ /\
  num_eq (f1Score (calculateMetrics proposed truth)) (Num 1).
Proof.
  cbv zeta.
  assert (H1 : proposedKeys [candidate "A" "1" 0.9; candidate "B" "2" 0.8]
               = ({[ "A-1"%string; "B-2"%string ]} : gset string)).
  { apply set_eq. intros x. unfold proposedKeys. cbn. set_solver. }
  assert (H2 : ({[ "A-1"%string; "B-2"%string ]} : gset string) <> ∅)
    by set_solver.
  split; [exact H1|]. split; [exact H2|].
  exact (proj2 (proj2 (proj1 (proj2 (proj2 (proj2
           (calculateMetrics_scores _ _)))) H1 H2))).
Defined.

(* ================================================================== *)
(** * The analysis of the scoring factors                              *)
(* ================================================================== *)

Section Analysis.

Lemma analyzeLoop_amount candidates : forall s,
  (let r := fold_left analyzeStep candidates s in
   (Running.amountSum r, Running.amountMin r, Running.amountMax r))
  = fold_left (track amountScore) candidates
      (Running.amountSum s, Running.amountMin s, Running.amountMax s).
Proof.
  induction candidates as [|c cs IH]; intros s; cbn [fold_left]; [reflexivity|].
  cbv zeta in *. now rewrite IH.
Qed.

Lemma analyzeLoop_date candidates : forall s,
  (let r := fold_left analyzeStep candidates s in
   (Running.dateSum r, Running.dateMin r, Running.dateMax r))
  = fold_left (track dateScore) candidates
      (Running.dateSum s, Running.dateMin s, Running.dateMax s).
Proof.
  induction candidates as [|c cs IH]; intros s; cbn [fold_left]; [reflexivity|].
  cbv zeta in *. now rewrite IH.
Qed.

Lemma analyzeLoop_reference candidates : forall s,
  (let r := fold_left analyzeStep candidates s in
   (Running.referenceSum r, Running.refMin r, Running.refMax r))
  = fold_left (track referenceScore) candidates
      (Running.referenceSum s, Running.refMin s, Running.refMax s).
Proof.
  induction candidates as [|c cs IH]; intros s; cbn [fold_left]; [reflexivity|].
  cbv zeta in *. now rewrite IH.
Qed.

Variable f : MatchCandidate -> number.

Lemma scoreOf_finite c : finiteScore f c -> f c = Num (scoreOf f c).
Proof. intros [q Hq]. unfold scoreOf. now rewrite Hq. Qed.

(** The loop from a state of finite numbers. *)
Lemma track_loop candidates :
  Forall (finiteScore f) candidates ->
  forall sum least greatest (P : number -> Prop),
    least <= greatest -> P (Num least) -> P (Num greatest) ->
    (forall c, In c candidates -> P (f c)) ->
    exists sum' least' greatest',
      fold_left (track f) candidates (Num sum, Num least, Num greatest)
      = (Num sum', Num least', Num greatest') /\
      sum' == sum + totalOf f candidates /\
      least' <= least /\ greatest <= greatest' /\
      (forall c, In c candidates -> least' <= scoreOf f c <= greatest') /\
      P (Num least') /\ P (Num greatest').
Proof.
  induction candidates as [|c cs IH]; intros Hfin sum least greatest P Hle Pl Pg HP;
    cbn [fold_left totalOf fold_right].
  - exists sum, least, greatest. repeat split; try lra; try assumption.
    + contradiction.
    + contradiction.
  - inversion Hfin as [|? ? Hc Hfin']; subst.
    pose proof (HP c (or_introl eq_refl)) as Pc.
    rewrite (scoreOf_finite c Hc) in Pc.
    unfold track at 2. rewrite (scoreOf_finite c Hc). cbn [add].
    set (q := scoreOf f c) in *.
    assert (Hmin : exists l, Math.min (Num least) (Num q) = Num l /\
                     l <= least /\ l <= q /\ P (Num l)).
    { destruct (Qlt_le_dec q least) as [H|H].
      - rewrite min_Num_r by assumption. exists q. repeat split; try lra; assumption.
      - rewrite min_Num_l by assumption. exists least. repeat split; try lra; assumption. }
    assert (Hmax : exists g, Math.max (Num greatest) (Num q) = Num g /\
                     greatest <= g /\ q <= g /\ P (Num g)).
    { destruct (Qlt_le_dec greatest q) as [H|H].
      - rewrite max_Num_r by assumption. exists q. repeat split; try lra; assumption.
      - rewrite max_Num_l by assumption. exists greatest.
        repeat split; try lra; assumption. }
    destruct Hmin as (l & -> & Hl1 & Hl2 & Pl').
    destruct Hmax as (g & -> & Hg1 & Hg2 & Pg').
    destruct (IH Hfin' (sum + q) l g P) as (sum' & l' & g' & Hf & Hs & Hl' & Hg' & Hall & Pl'' & Pg'');
      [lra | assumption | assumption | intros c' Hc'; apply HP; now right |].
    exists sum', l', g'. split; [exact Hf|].
    fold (totalOf f cs). repeat split; try lra; try assumption.
    + destruct H as [<-|H]; [fold q; lra | now apply Hall].
    + destruct H as [<-|H]; [fold q; lra | now apply Hall].
Qed.

Lemma totalOf_bounds candidates lo hi :
  (forall c, In c candidates -> lo <= scoreOf f c <= hi) ->
  lo * inject_Z (Z.of_nat (List.length candidates)) <= totalOf f candidates /\
  totalOf f candidates <= hi * inject_Z (Z.of_nat (List.length candidates)).
Proof.
  induction candidates as [|c cs IH]; intros H; cbn [totalOf fold_right].
  - change (inject_Z (Z.of_nat (List.length (@nil MatchCandidate)))) with 0.
    split; lra.
  - fold (totalOf f cs).
    destruct IH as [IH1 IH2]; [intros c' Hc'; apply H; now right|].
    pose proof (H c (or_introl eq_refl)) as Hc.
    cbn [List.length]. rewrite Nat2Z.inj_succ. unfold Z.succ.
    rewrite inject_Z_plus. change (inject_Z 1) with 1. split; nra.
Qed.

(** The loop of [analyzeScoringFactors] for one score, from its initial
    state, over a list that is not empty. *)
Lemma track_extremes candidates :
  candidates <> [] -> Forall (finiteScore f) candidates ->
  exists sum least greatest,
    fold_left (track f) candidates (Num 0, PosInf, NegInf)
    = (Num sum, Num least, Num greatest) /\
    sum == totalOf f candidates /\
    forall avg,
      extremes f candidates (Distribution.mk (Num least) (Num greatest) avg).
Proof.
  intros Hne Hfin. destruct candidates as [|c cs]; [contradiction|].
  inversion Hfin as [|? ? Hc Hfin']; subst.
  cbn [fold_left]. unfold track at 2. rewrite (scoreOf_finite c Hc).
  set (q := scoreOf f c). cbn [add].
  change (Math.min PosInf (Num q)) with (Num q).
  change (Math.max NegInf (Num q)) with (Num q).
  destruct (track_loop cs Hfin' (0 + q) q q
              (fun x => exists c', In c' (c :: cs) /\ f c' = x))
    as (sum & l & g & Hf & Hs & Hl & Hg & Hall & (cl & Hcl & Hfl) & (cg & Hcg & Hfg)).
  { lra. }
  { exists c. split; [now left | now apply scoreOf_finite]. }
  { exists c. split; [now left | now apply scoreOf_finite]. }
  { intros c' Hc'. exists c'. split; [now right | reflexivity]. }
  exists sum, l, g. split; [exact Hf|].
  split.
  { cbn [totalOf fold_right]. fold (totalOf f cs). fold q. rewrite Hs. ring. }
  intros avg. exists l, g.
  split; [reflexivity|]. split; [reflexivity|]. split; [|split].
  - intros c' [<-|Hc']; [fold q; lra | now apply Hall].
  - eauto.
  - eauto.
Qed.

End Analysis.

Section AnalysisLaws.

Variable candidates : list MatchCandidate.
Hypothesis nonempty : candidates <> [].

Lemma analyze_nonempty_length : (List.length candidates =? 0)%nat = false.
Proof. destruct candidates; [contradiction | reflexivity]. Qed.

(** The final state of the loop, score by score. *)
Lemma analyze_state :
  Forall (finiteScore amountScore) candidates ->
  Forall (finiteScore dateScore) candidates ->
  Forall (finiteScore referenceScore) candidates ->
  exists sa la ga sd ld gd sr lr gr,
    fold_left analyzeStep candidates
      (Running.mk (Num 0) (Num 0) (Num 0) PosInf NegInf PosInf NegInf PosInf NegInf)
    = Running.mk (Num sa) (Num sd) (Num sr) (Num la) (Num ga) (Num ld) (Num gd)
        (Num lr) (Num gr) /\
    sa == totalOf amountScore candidates /\
    sd == totalOf dateScore candidates /\
    sr == totalOf referenceScore candidates /\
    (forall avg, extremes amountScore candidates
                   (Distribution.mk (Num la) (Num ga) avg)) /\
    (forall avg, extremes dateScore candidates
                   (Distribution.mk (Num ld) (Num gd) avg)) /\
    (forall avg, extremes referenceScore candidates
                   (Distribution.mk (Num lr) (Num gr) avg)).
Proof.
  intros Ha Hd Hr.
  destruct (track_extremes amountScore candidates nonempty Ha)
    as (sa & la & ga & Hfa & Hsa & Hda).
  destruct (track_extremes dateScore candidates nonempty Hd)
    as (sd & ld & gd & Hfd & Hsd & Hdd).
  destruct (track_extremes referenceScore candidates nonempty Hr)
    as (sr & lr & gr & Hfr & Hsr & Hdr).
  exists sa, la, ga, sd, ld, gd, sr, lr, gr.
  pose proof (analyzeLoop_amount candidates
    (Running.mk (Num 0) (Num 0) (Num 0) PosInf NegInf PosInf NegInf PosInf NegInf)) as Ea.
  pose proof (analyzeLoop_date candidates
    (Running.mk (Num 0) (Num 0) (Num 0) PosInf NegInf PosInf NegInf PosInf NegInf)) as Ed.
  pose proof (analyzeLoop_reference candidates
    (Running.mk (Num 0) (Num 0) (Num 0) PosInf NegInf PosInf NegInf PosInf NegInf)) as Er.
  cbv zeta in Ea, Ed, Er.
  cbn [Running.amountSum Running.amountMin Running.amountMax Running.dateSum
       Running.dateMin Running.dateMax Running.referenceSum Running.refMin
       Running.refMax] in Ea, Ed, Er.
  rewrite Hfa in Ea. rewrite Hfd in Ed. rewrite Hfr in Er.
  destruct (fold_left analyzeStep candidates _) as [s1 s2 s3 m1 x1 m2 x2 m3 x3].
  cbn [Running.amountSum Running.amountMin Running.amountMax Running.dateSum
       Running.dateMin Running.dateMax Running.referenceSum Running.refMin
       Running.refMax] in Ea, Ed, Er.
  injection Ea as -> -> ->. injection Ed as -> -> ->. injection Er as -> -> ->.
  repeat split; assumption.
Qed.

End AnalysisLaws.

(** X23.  For a list that is not empty and whose scores are finite, [min]
    and [max] of each of the three distributions of [analyzeScoringFactors]
    are the least and the greatest score among the candidates, each the
    score of one of them. *)
Theorem analyzeScoringFactors_distributions (candidates : list MatchCandidate) :
  candidates <> [] ->
  (forall c, In c candidates ->
     finiteScore amountScore c /\ finiteScore dateScore c /\
     finiteScore referenceScore c) ->
  let analysis := analyzeScoringFactors candidates in
  extremes amountScore candidates (amountScoresDistribution analysis) /\
  extremes dateScore candidates (dateScoresDistribution analysis) /\
  extremes referenceScore candidates (referenceScoresDistribution analysis).
Proof.
  intros Hne Hfin. cbv zeta. unfold analyzeScoringFactors.
  rewrite (analyze_nonempty_length candidates Hne).
  destruct (analyze_state candidates Hne)
    as (sa & la & ga & sd & ld & gd & sr & lr & gr & -> & _ & _ & _ & Ha & Hd & Hr).
  - apply List.Forall_forall. intros c Hc. apply (Hfin c Hc).
  - apply List.Forall_forall. intros c Hc. apply (Hfin c Hc).
  - apply List.Forall_forall. intros c Hc. apply (Hfin c Hc).
  - cbn [amountScoresDistribution dateScoresDistribution
         referenceScoresDistribution Running.amountSum Running.amountMin
         Running.amountMax Running.dateSum Running.dateMin Running.dateMax
         Running.referenceSum Running.refMin Running.refMax].
    auto.
Qed.

Lemma analyzeScoringFactors_distributions_witness :
  let cs := [candidate "INV-001" "TXN-001" 0.9; candidate "INV-002" "TXN-002" 0.7] in
  cs <> [] /\
  extremes amountScore cs (amountScoresDistribution (analyzeScoringFactors cs)).
Proof.
  cbv zeta.
  assert (Hne : [candidate "INV-001" "TXN-001" 0.9; candidate "INV-002" "TXN-002" 0.7]
                <> []) by discriminate.
  split; [exact Hne|].
  apply (analyzeScoringFactors_distributions _ Hne).
  intros c [<-|[<-|[]]]; repeat split; eexists; reflexivity.
Defined.

(** X24.  For a list that is not empty and whose scores are numbers of the
    unit interval, the three influences and the three averages of
    [analyzeScoringFactors] are numbers of the unit interval, and the three
    influences are all zero exactly when every score is zero. *)
Theorem analyzeScoringFactors_influences (candidates : list MatchCandidate) :
  candidates <> [] ->
  (forall c, In c candidates -> unitScores c) ->
  let analysis := analyzeScoringFactors candidates in
  let total :=
    totalOf amountScore candidates + totalOf dateScore candidates
    + totalOf referenceScore candidates in
  inUnit (amountScoreInfluence analysis) /\
  inUnit (dateScoreInfluence analysis) /\
  inUnit (referenceScoreInfluence analysis) /\
  inUnit (Distribution.avg (amountScoresDistribution analysis)) /\
  inUnit (Distribution.avg (dateScoresDistribution analysis)) /\
  inUnit (Distribution.avg (referenceScoresDistribution analysis)) /\
  (total == 0 <->
   num_eq (amountScoreInfluence analysis) (Num 0) /\
   num_eq (dateScoreInfluence analysis) (Num 0) /\
   num_eq (referenceScoreInfluence analysis) (Num 0)).
Proof.
  intros Hne Hunit. cbv zeta. unfold analyzeScoringFactors.
  rewrite (analyze_nonempty_length candidates Hne).
  set (n := inject_Z (Z.of_nat (List.length candidates))).
  assert (Hn : 0 < n).
  { apply inject_nat_pos. apply (analyze_nonempty_length candidates Hne). }
  assert (Hf : forall f,
            (forall c, In c candidates -> inUnit (f c)) ->
            Forall (finiteScore f) candidates /\
            0 <= totalOf f candidates <= n).
  { intros f Hu. split.
    - apply List.Forall_forall. intros c Hc.
      destruct (Hu c Hc) as (q & Hq & _). now exists q.
    - assert (Hb : forall c, In c candidates -> 0 <= scoreOf f c <= 1).
      { intros c Hc. destruct (Hu c Hc) as (q & Hq & Hr). unfold scoreOf.
        now rewrite Hq. }
      destruct (totalOf_bounds f candidates 0 1 Hb) as [H0 H1].
      fold n in H0, H1. split; lra. }
  destruct (Hf amountScore) as [Ha Ta]; [intros c Hc; apply (Hunit c Hc)|].
  destruct (Hf dateScore) as [Hd Td]; [intros c Hc; apply (Hunit c Hc)|].
  destruct (Hf referenceScore) as [Hr Tr]; [intros c Hc; apply (Hunit c Hc)|].
  destruct (analyze_state candidates Hne Ha Hd Hr)
    as (sa & la & ga & sd & ld & gd & sr & lr & gr & -> & Hsa & Hsd & Hsr & _).
  rewrite <- Hsa in Ta. rewrite <- Hsd in Td. rewrite <- Hsr in Tr.
  rewrite <- Hsa, <- Hsd, <- Hsr.
  clear Hsa Hsd Hsr Ha Hd Hr Hf.
  cbn [amountScoreInfluence dateScoreInfluence referenceScoreInfluence
       amountScoresDistribution dateScoresDistribution
       referenceScoresDistribution Distribution.avg
       Running.amountSum Running.dateSum Running.referenceSum add].
  assert (Hshare : forall s t, 0 <= s -> s <= t -> 0 < t ->
                     inUnit (div (Num s) (Num t))).
  { intros s t H0 H1 Ht. rewrite div_Num by lra.
    exists (s / t). split; [reflexivity|]. split.
    - apply Qle_shift_div_l; [assumption | lra].
    - apply Qle_shift_div_r; [assumption | lra]. }
  assert (Hzero : inUnit (Num 0)) by (exists 0; split; [reflexivity | lra]).
  unfold ofNat, ofZ. fold n.
  split; [|split; [|split; [|split; [|split; [|split]]]]].
  4: apply Hshare; lra.
  4: apply Hshare; lra.
  4: apply Hshare; lra.
  all: destruct (strictEq (Num (sa + sd + sr)) (Num 0)) eqn:E;
    [apply strictEq_Num in E | apply strictEq_Num_false in E].
  all: try exact Hzero.
  all: try (apply Hshare; [lra | lra |];
            destruct (Qlt_le_dec 0 (sa + sd + sr)); [assumption|];
            exfalso; apply E; lra).
  - split; [intros _; cbn [num_eq]; repeat split; reflexivity | intros _; exact E].
  - assert (Hpos : 0 < sa + sd + sr).
    { destruct (Qlt_le_dec 0 (sa + sd + sr)); [assumption|]. exfalso. apply E. lra. }
    rewrite !div_Num by lra. cbn [num_eq].
    split; [intros Hz; contradiction|].
    intros (Hia & Hid & Hir). exfalso. apply E.
    assert (Hmul : forall s, s / (sa + sd + sr) == 0 -> s == 0).
    { intros s Hs.
      assert (Hm : s == s / (sa + sd + sr) * (sa + sd + sr)) by (field; lra).
      rewrite Hm, Hs. ring. }
    apply Hmul in Hia. apply Hmul in Hid. apply Hmul in Hir.
    rewrite Hia, Hid, Hir. reflexivity.
Qed.

Lemma analyzeScoringFactors_influences_witness :
  let cs := [candidate "INV-001" "TXN-001" 0.9; candidate "INV-002" "TXN-002" 0.7] in
  cs <> [] /\ inUnit (amountScoreInfluence (analyzeScoringFactors cs)).
Proof.
  cbv zeta.
  assert (Hne : [candidate "INV-001" "TXN-001" 0.9; candidate "INV-002" "TXN-002" 0.7]
                <> []) by discriminate.
  split; [exact Hne|].
  apply (analyzeScoringFactors_influences _ Hne).
  intros c [<-|[<-|[]]]; repeat split; eexists; (split; [reflexivity | lra]).
Defined.

(* ================================================================== *)
(** * Calendar days                                                    *)
(* ================================================================== *)

Section Calendar.

Local Open Scope Z_scope.

(** The civil date of a day number is a date of the calendar, and its day
    number is the one it came from. *)
Lemma civilFromDays_round_trip n :
  let '(y, m, d) := Date.civilFromDays n in
  Date.daysFromCivil y m d = n /\ 1 <= m <= 12 /\ 1 <= d <= 31.
Proof.
  unfold Date.civilFromDays, Date.daysFromCivil. cbv zeta.
  set (z' := n + 719468).
  set (era := z' / 146097).
  set (doe := z' - era * 146097).
  assert (Hdoe : 0 <= doe < 146097)
    by (unfold doe, era; Z.to_euclidean_division_equations; lia).
  set (yoe := (doe - doe / 1460 + doe / 36524 - doe / 146096) / 365).
  assert (Hyoe : 0 <= yoe <= 399)
    by (unfold yoe; Z.to_euclidean_division_equations; lia).
  set (doy := doe - (365 * yoe + yoe / 4 - yoe / 100)).
  assert (Hdoy : 0 <= doy <= 365)
    by (unfold doy, yoe; Z.to_euclidean_division_equations; lia).
  set (mp := (5 * doy + 2) / 153).
  assert (Hmp : 0 <= mp <= 11)
    by (unfold mp; Z.to_euclidean_division_equations; lia).
  destruct (mp <? 10) eqn:E1.
  - apply Z.ltb_lt in E1.
    destruct (mp + 3 <=? 2) eqn:E2; [apply Z.leb_le in E2; lia|].
    destruct (2 <? mp + 3) eqn:E3; [|apply Z.ltb_ge in E3; lia].
    replace ((yoe + era * 400) / 400) with era
      by (Z.to_euclidean_division_equations; lia).
    replace (yoe + era * 400 - era * 400) with yoe by lia.
    replace (mp + 3 - 3) with mp by lia.
    fold doy.
    split; [|split; [lia|]].
    + unfold doy, z' in *. lia.
    + unfold mp. Z.to_euclidean_division_equations; lia.
  - apply Z.ltb_ge in E1.
    destruct (mp - 9 <=? 2) eqn:E2; [|apply Z.leb_gt in E2; lia].
    destruct (2 <? mp - 9) eqn:E3; [apply Z.ltb_lt in E3; lia|].
    replace (yoe + era * 400 + 1 - 1) with (yoe + era * 400) by lia.
    replace ((yoe + era * 400) / 400) with era
      by (Z.to_euclidean_division_equations; lia).
    replace (yoe + era * 400 - era * 400) with yoe by lia.
    replace (mp - 9 + 9) with mp by lia.
    fold doy.
    split; [|split; [lia|]].
    + unfold doy, z' in *. lia.
    + unfold mp. Z.to_euclidean_division_equations; lia.
Qed.

(** Before year 100 the day numbers are below the one of 0100-01-01. *)
Lemma daysFromCivil_before_100 y m d :
  y <= 99 -> 1 <= m <= 12 -> 1 <= d <= 31 ->
  Date.daysFromCivil y m d < Date.daysFromCivil 100 1 1.
Proof.
  intros Hy Hm Hd.
  change (Date.daysFromCivil 100 1 1) with (-683003).
  unfold Date.daysFromCivil. cbv zeta.
  destruct (m <=? 2) eqn:E1, (2 <? m) eqn:E2;
    try apply Z.leb_le in E1; try apply Z.leb_gt in E1;
    try apply Z.ltb_lt in E2; try apply Z.ltb_ge in E2; try lia;
    Z.to_euclidean_division_equations; lia.
Qed.

(** From year 100 on, the [Date] constructor gives back the day of the
    civil date it is given. *)
Lemma civilRoundTrip_from_100 n :
  Date.daysFromCivil 100 1 1 <= n -> civilRoundTrip n = true.
Proof.
  intros Hn. unfold civilRoundTrip.
  pose proof (civilFromDays_round_trip n) as Hrt.
  destruct (Date.civilFromDays n) as [[y m] d].
  destruct Hrt as (Hday & Hm & Hd).
  assert (Hy : 100 <= y).
  { destruct (Z_lt_le_dec y 100) as [Hlt|]; [|assumption].
    pose proof (daysFromCivil_before_100 y m d ltac:(lia) Hm Hd). lia. }
  replace ((0 <=? y) && (y <=? 99))%bool with false
    by (symmetry; apply andb_false_iff; right; apply Z.leb_gt; lia).
  apply Z.eqb_eq. rewrite <- Hday. unfold Date.MakeDay.
  replace ((m - 1) / 12) with 0 by (Z.to_euclidean_division_equations; lia).
  replace ((m - 1) mod 12 + 1) with m by (Z.to_euclidean_division_equations; lia).
  rewrite Z.add_0_r. unfold Date.daysFromCivil. cbv zeta. lia.
Qed.

Lemma Day_from_100 t : year100 <= t -> Date.daysFromCivil 100 1 1 <= Date.Day t.
Proof.
  unfold year100, Date.MakeDate, Date.Day. intros H.
  apply Z.div_le_lower_bound; [reflexivity|]. lia.
Qed.

(** In any zone, [normalizeDate] is midnight of the local day, taken back
    to UTC with the offset the zone has at that local midnight. *)
Lemma normalizeDate_local_midnight (tz : TimeZone) t :
  year100 <= Date.LocalTime tz t ->
  normalizeDate tz t
  = Date.MakeDate (Date.Day (Date.LocalTime tz t)) 0
    - tz (Date.MakeDate (Date.Day (Date.LocalTime tz t)) 0) false.
Proof.
  intros H.
  rewrite (normalizeDate_of_day tz t _ eq_refl
             (civilRoundTrip_from_100 _ (Day_from_100 _ H))).
  reflexivity.
Qed.

End Calendar.

(** X25.  In a zone of constant offset, for a local date from year 100 on,
    [normalizeDate] is the start of the local day of its argument: at most
    the argument, less than a day before it, and a fixed point of
    [normalizeDate]. *)
Theorem normalizeDate_start_of_day (c t : Z) :
  (year100 <= t + c)%Z ->
  let tz := fixedOffset c in
  normalizeDate tz t = (Date.MakeDate (Date.Day (t + c)) 0 - c)%Z /\
  (normalizeDate tz t <= t < normalizeDate tz t + Date.msPerDay)%Z /\
  normalizeDate tz (normalizeDate tz t) = normalizeDate tz t.
Proof.
  intros H tz.
  assert (E : forall u, (year100 <= u + c)%Z ->
            normalizeDate tz u = (Date.MakeDate (Date.Day (u + c)) 0 - c)%Z).
  { intros u Hu. apply (normalizeDate_local_midnight tz u Hu). }
  pose proof (Day_from_100 _ H) as Hd.
  assert (Hms : (0 < Date.msPerDay)%Z) by reflexivity.
  split; [exact (E t H)|]. split.
  - rewrite (E t H). unfold Date.MakeDate, Date.Day.
    pose proof (Z.mul_div_le (t + c) _ Hms).
    pose proof (Z.mul_succ_div_gt (t + c) _ Hms). lia.
  - rewrite (E t H).
    assert (Hn : (Date.MakeDate (Date.Day (t + c)) 0 - c + c
                  = Date.Day (t + c) * Date.msPerDay)%Z)
      by (unfold Date.MakeDate; lia).
    rewrite E.
    + rewrite Hn. unfold Date.Day at 1.
      rewrite Z.div_mul by (intros Hz; discriminate Hz). reflexivity.
    + rewrite Hn. unfold year100, Date.MakeDate in *.
      change (Date.daysFromCivil 100 1 1) with (-683003)%Z in *.
      unfold Date.msPerDay. lia.
Qed.

Lemma normalizeDate_start_of_day_witness :
  (year100 <= Date.ofISODate 2024 1 15 + 3600000)%Z /\
  normalizeDate (fixedOffset 3600000) (Date.ofISODate 2024 1 15)
  = (Date.ofISODate 2024 1 15 - 3600000)%Z.
Proof.
  assert (H : (year100 <= Date.ofISODate 2024 1 15 + 3600000)%Z)
    by (vm_compute; discriminate).
  split; [exact H|].
  exact (proj1 (normalizeDate_start_of_day 3600000 (Date.ofISODate 2024 1 15) H)).
Defined.

(** X26.  The day difference against the calendar.  For two dates from
    year 100 on, with local days [n1 <= n2] and the offsets [o1], [o2] of
    the zone at the two local midnights: equal offsets give [n2 - n1]; an
    offset that went down by less than a day gives [n2 - n1] as well; an
    offset that went up by less than a day (clocks put forward between the
    two) gives one day less, [n2 - n1 - 1]. *)
Theorem dateDifferenceDays_calendar (tz : TimeZone) (t1 t2 : Z) :
  let n1 := Date.Day (Date.LocalTime tz t1) in
  let n2 := Date.Day (Date.LocalTime tz t2) in
  let o1 := tz (Date.MakeDate n1 0) false in
  let o2 := tz (Date.MakeDate n2 0) false in
  (year100 <= Date.LocalTime tz t1)%Z -> (n1 <= n2)%Z ->
  (o1 = o2 -> dateDifferenceDays tz t1 t2 = ofZ (n2 - n1)) /\
  ((o2 < o1 < o2 + Date.msPerDay)%Z ->
   dateDifferenceDays tz t1 t2 = ofZ (n2 - n1)) /\
  ((o1 < o2 < o1 + Date.msPerDay)%Z ->
   dateDifferenceDays tz t1 t2 = ofZ (n2 - n1 - 1)).
Proof.
  intros n1 n2 o1 o2 H1 Hn.
  assert (H2 : (year100 <= Date.LocalTime tz t2)%Z).
  { pose proof (Day_from_100 _ H1) as Hd. fold n1 in Hd.
    assert (Hd2 : (-683003 <= n2)%Z)
      by (change (Date.daysFromCivil 100 1 1) with (-683003)%Z in Hd; lia).
    unfold n2, Date.Day, Date.msPerDay in Hd2.
    change year100 with (-683003 * 86400000)%Z.
    Z.to_euclidean_division_equations. lia. }
  rewrite dateDifferenceDays_eq.
  rewrite (normalizeDate_local_midnight tz t1 H1),
          (normalizeDate_local_midnight tz t2 H2).
  fold n1 n2. fold o1 o2.
  unfold Date.MakeDate, Date.msPerDay.
  split; [|split].
  - intros Ho. f_equal. rewrite Ho.
    Z.to_euclidean_division_equations. lia.
  - intros Ho. f_equal.
    Z.to_euclidean_division_equations. lia.
  - intros Ho. f_equal.
    assert (Hlt : (n1 < n2)%Z).
    { destruct (Z.eq_dec n1 n2) as [Heq|]; [|lia].
      exfalso. unfold o1, o2 in Ho. rewrite Heq in Ho. lia. }
    Z.to_euclidean_division_equations. lia.
Qed.

Lemma dateDifferenceDays_calendar_witness :
  let tz := springForward 1710054000000 (-18000000) in
  let t1 := 1710090000000%Z in
  let t2 := 1710172800000%Z in
  Date.getDate tz t1 = 10%Z /\ Date.getDate tz t2 = 11%Z /\
  dateDifferenceDays tz t1 t2 = ofZ 0.
Proof.
  cbv zeta.
  split; [reflexivity|]. split; [reflexivity|].
  refine (proj2 (proj2
    (dateDifferenceDays_calendar (springForward 1710054000000 (-18000000))
       1710090000000 1710172800000 _ _)) _);
    vm_compute; intuition discriminate.
Defined.

(** X27.  The two dates may be exchanged, in any zone: the day difference
    and the date score are the same in both orders. *)
Theorem calculateDateScore_symmetric (tz : TimeZone) (date1 date2 : Z)
    (config : MatchingConfig) :
  dateDifferenceDays tz date1 date2 = dateDifferenceDays tz date2 date1 /\
  calculateDateScore tz date1 date2 config
  = calculateDateScore tz date2 date1 config.
Proof.
  assert (E : dateDifferenceDays tz date1 date2 = dateDifferenceDays tz date2 date1).
  { rewrite !dateDifferenceDays_eq. do 2 f_equal.
    rewrite <- Z.abs_opp. f_equal. lia. }
  split; [exact E|]. unfold calculateDateScore. now rewrite E.
Qed.

(* ================================================================== *)
(** * Amounts at the edges                                             *)
(* ================================================================== *)


